(** * The slow-start goodput model of goodput.cc

    A shallow embedding of the two functions of [goodput.cc], [Gpeak] and
    [GoodputBps], together with the properties stated about them.

    Conventions of the embedding.
    - Every C++ integer is a [Z] kept in the range of its type; each
      operation writes its wrap-around out ([Int.u64], [Int.s64], ...).
      Unsigned arithmetic wraps by definition of the language.  Signed
      overflow and over-wide shifts are undefined in C++; the embedding
      gives them the two's-complement results of an x86-64 build and the
      comments say where a statement relies on that.
    - [double] values are IEEE-754 binary64 numbers, taken from the
      executable specification [SpecFloat] of the standard library.
    - [assert] is kept: a failed assertion is the outcome [Abort]. *)

From Stdlib Require Import ZArith Lia Bool List SpecFloat.

Local Open Scope Z_scope.

(** ** Machine integers *)

Module Int.

(** Value of [x] in an unsigned type of [w] bits. *)
Definition wrap_u (w x : Z) : Z := x mod 2 ^ w.

(** Value of [x] in a signed two's-complement type of [w] bits. *)
Definition wrap_s (w x : Z) : Z := (x + 2 ^ (w - 1)) mod 2 ^ w - 2 ^ (w - 1).

Definition u64 : Z -> Z := wrap_u 64.
Definition s64 : Z -> Z := wrap_s 64.
Definition u32 : Z -> Z := wrap_u 32.
Definition s32 : Z -> Z := wrap_s 32.
Definition u16 : Z -> Z := wrap_u 16.

Definition min_s64 : Z := - 2 ^ 63.
Definition max_s64 : Z := 2 ^ 63 - 1.

Definition in_u64 (x : Z) : Prop := 0 <= x < 2 ^ 64.
Definition in_s64 (x : Z) : Prop := - 2 ^ 63 <= x < 2 ^ 63.

(** [1 << n] in type [int], as in the source: the left operand is the
    literal [1], so the shift is a 32-bit one whatever the type of the
    count.  For [0 <= n <= 30] this is [2 ^ n]; [1 << 31] is the most
    negative [int]; for other counts (undefined in C++) the count is
    taken modulo 32, as the x86 shift instruction does. *)
Definition shl1_int (n : Z) : Z := s32 (Z.shiftl 1 (n mod 32)).

End Int.

(** ** Binary64 arithmetic *)

Module Dbl.

Definition prec : Z := 53.
Definition emax : Z := 1024.

Definition double : Type := spec_float.

(** Conversion of an integer to [double] (round to nearest even). *)
Definition of_Z (n : Z) : double := binary_normalize prec emax n 0 false.

Definition div (x y : double) : double := SFdiv prec emax x y.
Definition add (x y : double) : double := SFadd prec emax x y.
Definition sub (x y : double) : double := SFsub prec emax x y.

(** [std::ceil]. *)
Definition ceil (x : double) : double :=
  match x with
  | S754_finite s m e =>
      if 0 <=? e then x
      else
        let c := - ((- (cond_Zopp s (Zpos m))) / 2 ^ (- e)) in
        if c =? 0 then S754_zero s else of_Z c
  | _ => x
  end.

(** [std::fmax]: the larger argument, a NaN argument being ignored. *)
Definition fmax (x y : double) : double :=
  match x, y with
  | S754_nan, _ => y
  | _, S754_nan => x
  | _, _ => if SFltb x y then y else x
  end.

(** Conversion of a [double] to [int64_t]: truncation toward zero.  A
    value outside the range of [int64_t] (undefined in C++) gives the
    x86-64 result, the most negative integer. *)
Definition to_s64 (x : double) : Z :=
  match x with
  | S754_zero _ => 0
  | S754_finite s m e =>
      let v := if 0 <=? e then Zpos m * 2 ^ e else Zpos m / 2 ^ (- e) in
      let v := cond_Zopp s v in
      if (Int.min_s64 <=? v) && (v <=? Int.max_s64) then v else Int.min_s64
  | _ => Int.min_s64
  end.

(** [std::log2] belongs to the C library, not to this program.  It is
    modelled by the binary logarithm computed in fixed point and rounded
    to nearest: the integer part is exact, the fraction is produced bit
    by bit by repeated squaring of the significand, [frac_bits] bits
    deep on [work_bits]-bit fixed-point numbers.  In particular
    [log2 (2 ^ k) = k] exactly and [log2 1 = +0]. *)
Definition work_bits : Z := 256.
Definition frac_bits : nat := 128.

Fixpoint log2_frac (n : nat) (M acc : Z) : Z :=
  match n with
  | O => acc
  | S n' =>
      let M2 := (M * M) / 2 ^ work_bits in
      if 2 ^ (work_bits + 1) <=? M2
      then log2_frac n' (M2 / 2) (2 * acc + 1)
      else log2_frac n' M2 (2 * acc)
  end.

Definition log2 (x : double) : double :=
  match x with
  | S754_zero _ => S754_infinity true
  | S754_infinity false => x
  | S754_finite false m e =>
      let d := Zpos (digits2_pos m) in
      let M := Zpos m * 2 ^ (work_bits - (d - 1)) in
      let t := log2_frac frac_bits M 0 in
      binary_normalize prec emax
        ((e + d - 1) * 2 ^ Z.of_nat frac_bits + t) (- Z.of_nat frac_bits) false
  | _ => S754_nan
  end.

End Dbl.

(** ** The result types *)

Definition MICROS_IN_SEC : Z := 1000000.

Inductive ModelResult : Type :=
| OK
| ERROR_MINRTT_IS_ZERO
| ERROR_INIT_CWND_SLOWER_THAN_1BPMS
| ERROR_TRANSFER_FASTER_THAN_MODEL.

Record ModelRate : Type := mkModelRate {
  bytesPerSec : Z;
  rttsInSlowStart : Z;
  projectedCwndPkts : Z;
  lastFullCwndPkts : Z;
  status : ModelResult
}.

(** Outcome of a call: a returned record, a failed [assert], or a loop
    that used up the iterations it was given. *)
Inductive outcome : Type :=
| Ret (r : ModelRate)
| Abort
| OutOfFuel.

Definition error_rate (e : ModelResult) : ModelRate := mkModelRate 0 0 0 0 e.

(** [assert (b); k]. *)
Definition assert (b : bool) (k : outcome) : outcome := if b then k else Abort.

(** ** Gpeak *)

(** [const int64_t xferPkts = std::ceil(double(totalBytes) / mssBytes)]. *)
Definition xferPkts (totalBytes mssBytes : Z) : Z :=
  Dbl.to_s64 (Dbl.ceil (Dbl.div (Dbl.of_Z totalBytes) (Dbl.of_Z mssBytes))).

(** [std::ceil(std::log2(double(xferPkts) / initCwndPkts + 1)) - 1]. *)
Definition rttsToLast (xfer initCwndPkts : Z) : Z :=
  Dbl.to_s64
    (Dbl.sub
       (Dbl.ceil
          (Dbl.log2
             (Dbl.add (Dbl.div (Dbl.of_Z xfer) (Dbl.of_Z initCwndPkts))
                (Dbl.of_Z 1))))
       (Dbl.of_Z 1)).

(** [int * uint64_t] stored into an [int64_t]. *)
Definition int_times_u64 (i u : Z) : Z := Int.s64 (Int.u64 (Int.u64 i * u)).

(** The value of the local [lastFullCwndPkts] before the return. *)
Definition lastFullCwnd (rtts initCwndPkts : Z) : Z :=
  if 0 <? rtts then int_times_u64 (Int.shl1_int (rtts - 1)) initCwndPkts else 0.

(** [ssPkts = ((1 << rttsToLast) - 1) * initCwndPkts]. *)
Definition ssPkts (rtts initCwndPkts : Z) : Z :=
  int_times_u64 (Int.s32 (Int.shl1_int rtts - 1)) initCwndPkts.

(** [std::fmax] on two integers, the result stored into an [int64_t]. *)
Definition fmax_s64 (a b : Z) : Z :=
  Dbl.to_s64 (Dbl.fmax (Dbl.of_Z a) (Dbl.of_Z b)).

(** [x * mssBytes * MICROS_IN_SEC / minRtt.count()] with [x] an [int64_t]:
    the arithmetic is unsigned, the quotient is stored into an [int64_t]. *)
Definition rate_of (x mssBytes minRtt : Z) : Z :=
  Int.s64 (Int.u64 (Int.u64 (Int.u64 x * mssBytes) * MICROS_IN_SEC) / Int.u64 minRtt).

(** The value of the local [lastFullCwndPktsMax]. *)
Definition lastFullCwndPktsMax (rtts initCwndPkts : Z) : Z :=
  fmax_s64 initCwndPkts (lastFullCwnd rtts initCwndPkts).

Definition Gpeak (totalBytes initCwndPkts mssBytes minRtt : Z) : outcome :=
  if minRtt =? 0 then Ret (error_rate ERROR_MINRTT_IS_ZERO)
  else
    let xfer := xferPkts totalBytes mssBytes in
    let rtts := rttsToLast xfer initCwndPkts in
    assert (0 <=? rtts)
      (let lastFull := lastFullCwnd rtts initCwndPkts in
       let ss := ssPkts rtts initCwndPkts in
       assert (ss <=? xfer)
         (let lastRttPkts := Int.s64 (xfer - ss) in
          let maxRttBytes := fmax_s64 lastFull lastRttPkts in
          let GpeakBps := rate_of maxRttBytes mssBytes minRtt in
          let projected := Int.s64 (Int.u64 (initCwndPkts + Int.u64 xfer)) in
          let lastFullMax := lastFullCwndPktsMax rtts initCwndPkts in
          Ret (mkModelRate (Int.u64 GpeakBps) (Int.u64 rtts) (Int.u64 projected)
                 (Int.u16 lastFullMax) OK))).

(** ** GoodputBps *)

(** The locals of the search loop.  [modelTime] is declared without an
    initial value and holds nothing until the first iteration stores it. *)
Record search_state : Type := mkState {
  rtts : Z;
  cumulativePkts : Z;
  cwnd : Z;
  modelTime : option Z
}.

(** How the search loop is left: down to the code after it, through the
    [return] inside it, or not within the iterations allowed. *)
Inductive search_result : Type :=
| Left (st : search_state)
| RateIsZero
| Unfinished.

Section Search.

Variables totalBytes initCwndPkts mssBytes minRtt totalTime : Z.

Let xfer : Z := xferPkts totalBytes mssBytes.

(** [tputBps = cwnd * mssBytes * MICROS_IN_SEC / minRtt.count()]. *)
Definition tputBps (st : search_state) : Z := rate_of (cwnd st) mssBytes minRtt.

(** [rtts * mssBytes * MICROS_IN_SEC / tputBps], as a duration. *)
Definition ssXmissionTime (st : search_state) : Z :=
  Int.s64
    (Int.u64 (Int.u64 (Int.u64 (rtts st) * mssBytes) * MICROS_IN_SEC)
     / Int.u64 (tputBps st)).

(** [(totalBytes - cumulativePkts * mssBytes) * MICROS_IN_SEC / tputBps]. *)
Definition xmissionTime (st : search_state) : Z :=
  Int.s64
    (Int.u64
       (Int.u64 (totalBytes - Int.u64 (Int.u64 (cumulativePkts st) * mssBytes))
        * MICROS_IN_SEC)
     / Int.u64 (tputBps st)).

(** [minRtt * (rtts + 1)]. *)
Definition rampTime (r : Z) : Z := Int.s64 (minRtt * Int.s64 (r + 1)).

(** [(minRtt * (rtts + 1)) + xmissionTime + ssXmissionTime]. *)
Definition modelTimeAt (st : search_state) : Z :=
  Int.s64 (Int.s64 (rampTime (rtts st) + xmissionTime st) + ssXmissionTime st).

(** [rtts++; cumulativePkts += cwnd; cwnd <<= 1;] after [modelTime] was
    stored. *)
Definition advance (st : search_state) : search_state :=
  mkState (Int.s64 (rtts st + 1))
          (Int.s64 (cumulativePkts st + cwnd st))
          (Int.s64 (2 * cwnd st))
          (Some (modelTimeAt st)).

(** The [while] loop; [fuel] bounds the number of times its body runs. *)
Fixpoint search (fuel : nat) (st : search_state) : search_result :=
  if cumulativePkts st <? xfer then
    match fuel with
    | O => Unfinished
    | S fuel' =>
        if tputBps st =? 0 then RateIsZero
        else if modelTimeAt st <=? totalTime
             then Left (mkState (rtts st) (cumulativePkts st) (cwnd st)
                          (Some (modelTimeAt st)))
             else search fuel' (advance st)
    end
  else Left st.

Definition initial : search_state := mkState 0 0 (Int.s64 initCwndPkts) None.

(** [assert(totalTime < modelTime)]; reading [modelTime] before any
    iteration stored it has no defined value and is taken as a failed
    assertion. *)
Definition modelTime_above (st : search_state) : bool :=
  match modelTime st with
  | Some t => totalTime <? t
  | None => false
  end.

(** [cwnd >>= 1; cumulativePkts -= cwnd; rtts--;]. *)
Definition backtrack (st : search_state) : search_state :=
  let c := Z.shiftr (cwnd st) 1 in
  mkState (Int.s64 (rtts st - 1)) (Int.s64 (cumulativePkts st - c)) c
          (modelTime st).

(** [totalTime - (minRtt * (rtts + 1))]. *)
Definition remainingTime (st : search_state) : Z :=
  Int.s64 (totalTime - rampTime (rtts st)).

(** [xferPkts - cumulativePkts + rtts]. *)
Definition remainingPkts (st : search_state) : Z :=
  Int.s64 (Int.s64 (xfer - cumulativePkts st) + rtts st).

Definition remainingBytes (st : search_state) : Z :=
  Int.s64 (Int.u64 (Int.u64 (remainingPkts st) * mssBytes)).

(** [remainingBytes * MICROS_IN_SEC / remainingTime.count()], signed. *)
Definition achievedBps (st : search_state) : Z :=
  Int.s64 (Z.quot (Int.s64 (remainingBytes st * MICROS_IN_SEC)) (remainingTime st)).

(** [achievedBps * minRtt.count() / MICROS_IN_SEC / mssBytes]: two signed
    operations, then an unsigned division by [mssBytes]. *)
Definition projected (st : search_state) : Z :=
  Int.s64
    (Int.u64 (Int.s64 (Z.quot (Int.s64 (achievedBps st * minRtt)) MICROS_IN_SEC))
     / mssBytes).

(** The code after the loop. *)
Definition finish (st : search_state) : outcome :=
  let k (st : search_state) : outcome :=
    if remainingTime st <=? 0
    then Ret (error_rate ERROR_TRANSFER_FASTER_THAN_MODEL)
    else
      assert (0 <? remainingPkts st)
        (Ret (mkModelRate (Int.u32 (achievedBps st)) (Int.u32 (rtts st))
                (Int.u64 (projected st)) (Int.u64 (cwnd st)) OK)) in
  if xfer <=? cumulativePkts st
  then assert (modelTime_above st) (k (backtrack st))
  else k st.

Definition GoodputBps_fuel (fuel : nat) : outcome :=
  if minRtt =? 0 then Ret (error_rate ERROR_MINRTT_IS_ZERO)
  else
    match search fuel initial with
    | Left st => finish st
    | RateIsZero => Ret (error_rate ERROR_INIT_CWND_SLOWER_THAN_1BPMS)
    | Unfinished => OutOfFuel
    end.

End Search.

(** The function itself: 65 turns of the loop are always enough. *)
Definition GoodputBps (totalBytes initCwndPkts mssBytes minRtt totalTime : Z)
  : outcome :=
  GoodputBps_fuel totalBytes initCwndPkts mssBytes minRtt totalTime 65.


(** The locals as the code after the loop uses them: backtracked by one
    round when the loop ran to its end, unchanged after a [break]. *)
Definition settled (totalBytes mssBytes : Z) (st : search_state) : search_state :=
  if xferPkts totalBytes mssBytes <=? cumulativePkts st then backtrack st else st.

(** The locals at the start of the turn of the loop that follows [n]
    completed ones. *)
Fixpoint state_after (totalBytes mssBytes minRtt : Z) (n : nat)
  (st : search_state) : search_state :=
  match n with
  | O => st
  | S n' => state_after totalBytes mssBytes minRtt n'
              (advance totalBytes mssBytes minRtt st)
  end.


(** The idealised schedule after [n] completed rounds: the window has
    doubled [n] times and the windows sent so far add up to
    [initCwndPkts * (2 ^ n - 1)]. *)
Definition doubling (initCwndPkts : Z) (n : nat) (st : search_state) : Prop :=
  rtts st = Z.of_nat n /\
  cwnd st = initCwndPkts * 2 ^ Z.of_nat n /\
  cumulativePkts st = initCwndPkts * (2 ^ Z.of_nat n - 1).


(** The state in which [break] leaves the loop in round [st]. *)
Definition broken (totalBytes mssBytes minRtt : Z) (st : search_state)
  : search_state :=
  mkState (rtts st) (cumulativePkts st) (cwnd st)
          (Some (modelTimeAt totalBytes mssBytes minRtt st)).

(** ** Rounding of quotients to binary64 *)

(** Rounding a mantissa of 53 digits, or 2 ^ 53 itself, that needs no
    further rounding. *)
Definition finish_round (M e : Z) : spec_float :=
  if M <? 2 ^ 53 then S754_finite false (Z.to_pos M) e
  else S754_finite false (Z.to_pos (2 ^ 52)) (e + 1).

(** The mantissa and exponent shift after the first rounding of a
    quotient of 53 or 54 digits. *)
Definition first_round (q : Z) (l : location) : Z * Z :=
  if q <? 2 ^ 53 then (round_nearest_even q l, 0)
  else
    let mrs := shr_1 (shr_record_of_loc q l) in
    (round_nearest_even (shr_m mrs) (loc_of_shr_record mrs), 1).

(** ** The closed form of the rounds *)

(** A record that carries no rounding information. *)
Definition exact_record (mrs : shr_record) : Prop :=
  shr_r mrs = false /\ shr_s mrs = false.

(** [std::ceil(std::log2(x)) - 1] as an [int64_t]. *)
Definition rounds_of (x : Dbl.double) : Z :=
  Dbl.to_s64 (Dbl.sub (Dbl.ceil (Dbl.log2 x)) (Dbl.of_Z 1)).

(** Doubles are compared as integers: [m * 2 ^ (e + scale)] stands for
    the double [m * 2 ^ e], an integer since no exponent of a binary64
    number is below -1074. *)
Definition scale : Z := 1200.

(** ** Statements under examination *)

(** The inputs called valid: a nonzero transfer, initial window, segment
    size and round-trip time, each within its C++ type. *)
Definition valid_input (totalBytes initCwndPkts mssBytes minRtt : Z) : Prop :=
  0 < totalBytes < 2 ^ 64 /\ 0 < initCwndPkts < 2 ^ 64 /\
  0 < mssBytes < 2 ^ 64 /\ 0 < minRtt < 2 ^ 63.


(** "An observed time below [minRtt] is reported as
    [ERROR_TRANSFER_FASTER_THAN_MODEL]", for every valid input whose rounds
    all have a nonzero rate (the loop is left without its [return]). *)
Definition faster_than_model_as_stated : Prop :=
  forall totalBytes initCwndPkts mssBytes minRtt totalTime st,
    valid_input totalBytes initCwndPkts mssBytes minRtt ->
    - 2 ^ 63 <= totalTime < minRtt ->
    search totalBytes mssBytes minRtt totalTime 65 (initial initCwndPkts)
      = Left st ->
    GoodputBps totalBytes initCwndPkts mssBytes minRtt totalTime
      = Ret (mkModelRate 0 0 0 0 ERROR_TRANSFER_FASTER_THAN_MODEL).


(** "Given as observed time the time the model predicts for the number
    [k] of rounds in slow start that [Gpeak] returns, [GoodputBps] returns
    [OK] and [k] rounds", for every valid input whose round [k] has a
    nonzero rate.  [Gpeak] computes no time; the time of the model is the
    one the loop of [GoodputBps] computes in round [k].  (The statement
    goes on with the rate returned, which is left out here.) *)
Definition round_trip_as_stated : Prop :=
  forall totalBytes initCwndPkts mssBytes minRtt k g,
    valid_input totalBytes initCwndPkts mssBytes minRtt ->
    Gpeak totalBytes initCwndPkts mssBytes minRtt = Ret g ->
    rttsInSlowStart g = Z.of_nat k ->
    let st := state_after totalBytes mssBytes minRtt k (initial initCwndPkts) in
    cumulativePkts st < xferPkts totalBytes mssBytes ->
    tputBps mssBytes minRtt st <> 0 ->
    exists r,
      GoodputBps totalBytes initCwndPkts mssBytes minRtt
        (modelTimeAt totalBytes mssBytes minRtt st) = Ret r /\
      status r = OK /\ rttsInSlowStart r = Z.of_nat k.

(** * Properties *)

(** ** Division and conversion in binary64 *)

(** The number of binary digits of a positive number. *)
Lemma digits2_pos_bounds :
  forall p, 2 ^ (Zpos (digits2_pos p) - 1) <= Zpos p < 2 ^ Zpos (digits2_pos p).
Proof.
  induction p as [p IH | p IH |]; cbn [digits2_pos].
  - rewrite Pos2Z.inj_succ. replace (Z.succ (Zpos (digits2_pos p)) - 1)
      with (Z.succ (Zpos (digits2_pos p) - 1)) by lia.
    rewrite !Z.pow_succ_r by lia. lia.
  - rewrite Pos2Z.inj_succ. replace (Z.succ (Zpos (digits2_pos p)) - 1)
      with (Z.succ (Zpos (digits2_pos p) - 1)) by lia.
    rewrite !Z.pow_succ_r by lia. lia.
  - cbn. lia.
Qed.

Lemma digits2_pos_unique :
  forall p d, 2 ^ (d - 1) <= Zpos p < 2 ^ d -> Zpos (digits2_pos p) = d.
Proof.
  intros p d [Hlo Hhi]. pose proof (digits2_pos_bounds p) as [Hl Hh].
  assert (0 < d).
  { destruct (Z.lt_ge_cases 0 d); [assumption|].
    exfalso. destruct (Z.eq_dec d 0) as [->|];
      [cbn in Hhi; lia | rewrite Z.pow_neg_r in Hhi by lia; lia]. }
  destruct (Z.lt_trichotomy (Zpos (digits2_pos p)) d) as [Hc | [Hc | Hc]];
    [exfalso | assumption | exfalso].
  - assert (2 ^ Zpos (digits2_pos p) <= 2 ^ (d - 1)) by (apply Z.pow_le_mono_r; lia).
    lia.
  - assert (2 ^ d <= 2 ^ (Zpos (digits2_pos p) - 1)) by (apply Z.pow_le_mono_r; lia).
    lia.
Qed.

Lemma Zdigits2_53 : forall q, 2 ^ 52 <= q < 2 ^ 53 -> Zdigits2 q = 53.
Proof.
  intros q Hq. destruct q as [|p|p]; try (cbn in Hq; lia).
  apply digits2_pos_unique. exact Hq.
Qed.

Lemma Zdigits2_54 : forall q, 2 ^ 53 <= q < 2 ^ 54 -> Zdigits2 q = 54.
Proof.
  intros q Hq. destruct q as [|p|p]; try (cbn in Hq; lia).
  apply digits2_pos_unique. exact Hq.
Qed.

Lemma shr_fexp_53 :
  forall q e l, 2 ^ 52 <= q < 2 ^ 53 -> -1074 <= e ->
    shr_fexp 53 1024 q e l = (shr_record_of_loc q l, e).
Proof.
  intros q e l Hq He. unfold shr_fexp. rewrite Zdigits2_53 by assumption.
  unfold fexp, emin.
  replace (Z.max (53 + e - 53) (3 - 1024 - 53) - e) with 0 by lia.
  reflexivity.
Qed.

Lemma shr_fexp_54 :
  forall q e l, 2 ^ 53 <= q < 2 ^ 54 -> -1074 <= e ->
    shr_fexp 53 1024 q e l = (shr_1 (shr_record_of_loc q l), e + 1).
Proof.
  intros q e l Hq He. unfold shr_fexp. rewrite Zdigits2_54 by assumption.
  unfold fexp, emin.
  replace (Z.max (54 + e - 53) (3 - 1024 - 53) - e) with 1 by lia.
  reflexivity.
Qed.

Lemma second_round :
  forall M e, 2 ^ 52 <= M <= 2 ^ 53 -> -1074 <= e <= 969 ->
    (let '(mrs, e') := shr_fexp 53 1024 M e loc_Exact in
     match shr_m mrs with
     | Z0 => S754_zero false
     | Zpos m => if e' <=? 1024 - 53 then S754_finite false m e' else S754_infinity false
     | Zneg _ => S754_nan
     end) = finish_round M e.
Proof.
  intros M e HM He. unfold finish_round.
  destruct (Z.ltb_spec M (2 ^ 53)) as [Hlt | Hge].
  - rewrite shr_fexp_53 by lia. cbn [shr_record_of_loc shr_m].
    destruct M as [|m|m]; try (cbn in HM; lia).
    destruct (Z.leb_spec e (1024 - 53)); [reflexivity|lia].
  - assert (M = 2 ^ 53) by lia. subst M.
    rewrite shr_fexp_54 by lia.
    destruct (Z.leb_spec (e + 1) (1024 - 53)); [reflexivity|lia].
Qed.

(** Where the remainder of a division lies. *)
Lemma new_location_cases :
  forall B r, 0 < B -> 0 <= r < B ->
    (r = 0 /\ new_location B r = loc_Exact) \/
    (0 < r /\ 2 * r < B /\ new_location B r = loc_Inexact Lt) \/
    (2 * r = B /\ new_location B r = loc_Inexact Eq) \/
    (B < 2 * r /\ new_location B r = loc_Inexact Gt).
Proof.
  intros B r HB Hr. unfold new_location.
  destruct (Z.even B) eqn:Hev;
    [unfold new_location_even | unfold new_location_odd];
    (destruct (Z.eqb_spec r 0) as [-> | Hr0];
     [left; split; reflexivity | right]).
  - destruct (Z.compare_spec (2 * r) B) as [Heq | Hlt | Hgt].
    + right; left. split; [exact Heq|reflexivity].
    + left. repeat split; try lia.
    + right; right. split; [lia|reflexivity].
  - destruct (Z.compare_spec (2 * r + 1) B) as [Heq | Hlt | Hgt].
    + left. repeat split; lia.
    + left. repeat split; lia.
    + right; right. split; [|reflexivity].
      assert (2 * r <> B).
      { intros <-. rewrite Z.even_mul in Hev. discriminate. }
      lia.
Qed.

Lemma loc_of_record_of_loc :
  forall m l, loc_of_shr_record (shr_record_of_loc m l) = l
              /\ shr_m (shr_record_of_loc m l) = m.
Proof. intros m [|[ | | ]]; split; reflexivity. Qed.

Lemma round_nearest_even_range :
  forall m l, m <= round_nearest_even m l <= m + 1.
Proof.
  intros m [|[ | | ]]; cbn [round_nearest_even]; try lia.
  destruct (Z.even m); lia.
Qed.

Lemma shr_1_half :
  forall q l, 0 < q -> shr_m (shr_1 (shr_record_of_loc q l)) = q / 2.
Proof.
  intros q l Hq. destruct q as [|p|p]; try lia.
  destruct l as [|[ | | ]]; destruct p; cbn [shr_record_of_loc shr_1 shr_m];
    try reflexivity;
    try (rewrite Pos2Z.inj_xI, Z.mul_comm, Z.div_add_l by lia; reflexivity);
    try (rewrite Pos2Z.inj_xO, Z.mul_comm, Z.div_mul by lia; reflexivity).
Qed.

Lemma binary_round_aux_quotient :
  forall q e l, 2 ^ 52 <= q < 2 ^ 54 -> -1074 <= e <= 968 ->
    binary_round_aux 53 1024 false q e l
    = finish_round (fst (first_round q l)) (e + snd (first_round q l))
    /\ 2 ^ 52 <= fst (first_round q l) <= 2 ^ 53.
Proof.
  intros q e l Hq He. unfold binary_round_aux, first_round.
  destruct (Z.ltb_spec q (2 ^ 53)) as [Hlt | Hge].
  - rewrite shr_fexp_53 by lia.
    destruct (loc_of_record_of_loc q l) as (-> & ->).
    cbn [fst snd]. pose proof (round_nearest_even_range q l).
    rewrite Z.add_0_r. split; [|lia].
    apply second_round; lia.
  - rewrite shr_fexp_54 by lia. cbn [fst snd].
    pose proof (shr_1_half q l ltac:(lia)) as Hh.
    pose proof (round_nearest_even_range
                  (shr_m (shr_1 (shr_record_of_loc q l)))
                  (loc_of_shr_record (shr_1 (shr_record_of_loc q l)))) as Hr.
    rewrite Hh in Hr.
    assert (2 ^ 52 <= q / 2 < 2 ^ 53).
    { change (2 ^ 53) with (2 ^ 52 * 2) in Hge.
      change (2 ^ 54) with (2 ^ 53 * 2) in Hq.
      split; [apply Z.div_le_lower_bound; lia|apply Z.div_lt_upper_bound; lia]. }
    split; [|rewrite Hh in *; lia].
    apply second_round; [rewrite Hh in *; lia|lia].
Qed.

(** The location after one more shift. *)
Lemma shr_1_loc :
  forall q l, 0 < q ->
    loc_of_shr_record (shr_1 (shr_record_of_loc q l))
    = match Z.odd q, l with
      | false, loc_Exact => loc_Exact
      | false, loc_Inexact _ => loc_Inexact Lt
      | true, loc_Exact => loc_Inexact Eq
      | true, loc_Inexact _ => loc_Inexact Gt
      end.
Proof.
  intros q l Hq. destruct q as [|p|p]; try lia.
  destruct l as [|[ | | ]]; destruct p; reflexivity.
Qed.

(** The first rounding gives a nearest multiple of the step: with
    [N = q * B + r] the quotient under division, the rounded mantissa [M]
    at shift [sh] has [|M * 2 ^ sh * B - N| <= 2 ^ sh * B / 2]. *)
Lemma first_round_nearest :
  forall N B, 0 < B -> 2 ^ 52 <= N / B < 2 ^ 54 ->
    let '(M, sh) := first_round (N / B) (new_location B (N mod B)) in
    (sh = 0 \/ sh = 1) /\
    - (2 ^ sh * B) <= 2 * (M * 2 ^ sh * B - N) <= 2 ^ sh * B.
Proof.
  intros N B HB Hq.
  pose proof (Z.div_mod N B ltac:(lia)) as HN.
  pose proof (Z.mod_pos_bound N B HB) as Hr.
  set (q := N / B) in *. set (r := N mod B) in *.
  unfold first_round. destruct (Z.ltb_spec q (2 ^ 53)) as [Hlt | Hge].
  - split; [left; reflexivity|]. change (2 ^ 0) with 1.
    pose proof (round_nearest_even_range q (new_location B r)) as HM.
    destruct (new_location_cases B r HB Hr)
      as [(H0 & ->) | [(H0 & H1 & ->) | [(H1 & ->) | (H1 & ->)]]];
      cbn [round_nearest_even] in *.
    + nia.
    + nia.
    + destruct (Z.even q); nia.
    + nia.
  - split; [right; reflexivity|]. change (2 ^ 1) with 2.
    rewrite shr_1_loc, shr_1_half by lia.
    pose proof (Z.div_mod q 2 ltac:(lia)) as Hq2.
    rewrite Zmod_odd in Hq2.
    set (h := q / 2) in *.
    pose proof (round_nearest_even_range h
                  (match Z.odd q, new_location B r with
                   | false, loc_Exact => loc_Exact
                   | false, loc_Inexact _ => loc_Inexact Lt
                   | true, loc_Exact => loc_Inexact Eq
                   | true, loc_Inexact _ => loc_Inexact Gt
                   end)) as HM.
    destruct (Z.odd q);
      destruct (new_location_cases B r HB Hr)
        as [(H0 & ->) | [(H0 & H1 & ->) | [(H1 & ->) | (H1 & ->)]]];
      cbn [round_nearest_even] in *; try nia;
      destruct (Z.even h); nia.
Qed.

Lemma iter_xO_pow : forall k p, Zpos (Pos.iter xO p k) = Zpos p * 2 ^ Zpos k.
Proof.
  intros k p. induction k as [|k IH] using Pos.peano_ind.
  - cbn [Pos.iter]. rewrite Pos2Z.inj_xO. change (2 ^ 1) with 2. ring.
  - rewrite Pos.iter_succ, Pos2Z.inj_xO, IH, Pos2Z.inj_succ, Z.pow_succ_r by lia.
    ring.
Qed.

(** An integer below 2 ^ 53 converts exactly: the [double] is the integer
    scaled to 53 digits. *)
Lemma of_Z_exact :
  forall n, 0 < n < 2 ^ 53 ->
    exists m e, Dbl.of_Z n = S754_finite false m e /\
                Zpos m = n * 2 ^ (- e) /\ 2 ^ 52 <= Zpos m < 2 ^ 53 /\
                -52 <= e <= 0.
Proof.
  intros n Hn. destruct n as [|p|p]; try lia.
  pose proof (digits2_pos_bounds p) as Hd.
  set (d := Zpos (digits2_pos p)) in *.
  assert (Hd53 : 1 <= d <= 53).
  { split; [unfold d; lia|].
    destruct (Z.le_gt_cases d 53) as [|Hgt]; [assumption|exfalso].
    assert (2 ^ 53 <= 2 ^ (d - 1)) by (apply Z.pow_le_mono_r; lia). lia. }
  unfold Dbl.of_Z, binary_normalize, binary_round, shl_align.
  fold d. unfold fexp, emin, Dbl.prec, Dbl.emax.
  replace (Z.max (d + 0 - 53) (3 - 1024 - 53) - 0) with (d - 53) by lia.
  replace (Z.max (d + 0 - 53) (3 - 1024 - 53)) with (d - 53) by lia.
  destruct (Z.eq_dec d 53) as [H53 | Hne].
  - rewrite H53. change (53 - 53) with 0. cbv beta iota.
    assert (Hr : 2 ^ 52 <= Zpos p < 2 ^ 53) by (rewrite H53 in Hd; exact Hd).
    destruct (binary_round_aux_quotient (Zpos p) 0 loc_Exact) as (Hb & _); [lia|lia|].
    rewrite Hb. unfold first_round, finish_round.
    destruct (Z.ltb_spec (Zpos p) (2 ^ 53)); [|lia]. cbn [fst snd round_nearest_even].
    destruct (Z.ltb_spec (Zpos p) (2 ^ 53)); [|lia].
    exists p, 0. repeat split; lia.
  - assert (Hneg : d - 53 < 0) by lia.
    destruct (d - 53) as [|k|k] eqn:Hk; try lia. cbv beta iota.
    assert (Hkd : Zpos k = 53 - d) by lia.
    assert (Hm : Zpos (Pos.iter xO p k) = Zpos p * 2 ^ (53 - d))
      by (rewrite iter_xO_pow, Hkd; reflexivity).
    assert (Hr : 2 ^ 52 <= Zpos (Pos.iter xO p k) < 2 ^ 53).
    { assert (H52 : 2 ^ 52 = 2 ^ (d - 1) * 2 ^ (53 - d))
        by (rewrite <- Z.pow_add_r by lia; f_equal; lia).
      assert (H53 : 2 ^ 53 = 2 ^ d * 2 ^ (53 - d))
        by (rewrite <- Z.pow_add_r by lia; f_equal; lia).
      assert (0 < 2 ^ (53 - d)) by (apply Z.pow_pos_nonneg; lia).
      rewrite Hm. split.
      - rewrite H52. apply Z.mul_le_mono_nonneg_r; lia.
      - rewrite H53. apply Z.mul_lt_mono_pos_r; lia. }
    destruct (binary_round_aux_quotient (Zpos (Pos.iter xO p k)) (Zneg k) loc_Exact)
      as (Hb & _); [lia|lia|].
    rewrite Hb. unfold first_round, finish_round.
    destruct (Z.ltb_spec (Zpos (Pos.iter xO p k)) (2 ^ 53)); [|lia].
    cbn [fst snd round_nearest_even].
    destruct (Z.ltb_spec (Zpos (Pos.iter xO p k)) (2 ^ 53)); [|lia].
    exists (Pos.iter xO p k), (Zneg k). rewrite Z.add_0_r.
    repeat split; try lia.
    rewrite Hm. f_equal. f_equal. lia.
Qed.

Lemma to_s64_of_Z : forall c, 0 < c < 2 ^ 53 -> Dbl.to_s64 (Dbl.of_Z c) = c.
Proof.
  intros c Hc. destruct (of_Z_exact c Hc) as (m & e & -> & Hm & Hr & He).
  unfold Dbl.to_s64, cond_Zopp, Int.min_s64, Int.max_s64.
  assert (Hv : (if 0 <=? e then Zpos m * 2 ^ e else Zpos m / 2 ^ (- e)) = c).
  { destruct (Z.leb_spec 0 e).
    - assert (e = 0) by lia. subst e. rewrite Hm. cbn. lia.
    - rewrite Hm. apply Z.div_mul. apply Z.pow_nonzero; lia. }
  rewrite Hv.
  destruct (Z.leb_spec (- 2 ^ 63) c); [|lia].
  destruct (Z.leb_spec c (2 ^ 63 - 1)); [reflexivity|lia].
Qed.

(** The integer [std::ceil] and the conversion to [int64_t] give for a
    rounded quotient [M * 2 ^ E], [E <= 0]. *)
Lemma ceil_finish_round :
  forall M E, 2 ^ 52 <= M <= 2 ^ 53 -> E <= 0 ->
    Dbl.to_s64 (Dbl.ceil (finish_round M E)) = - ((- M) / 2 ^ (- E)).
Proof.
  intros M E HM HE. unfold finish_round.
  assert (Hpow : 0 < 2 ^ (- E)) by (apply Z.pow_pos_nonneg; lia).
  destruct (Z.ltb_spec M (2 ^ 53)) as [Hlt | Hge].
  - destruct M as [|m|m]; try lia. cbn [Z.to_pos].
    unfold Dbl.ceil. destruct (Z.leb_spec 0 E).
    + assert (E = 0) by lia. subst E. cbn [Z.opp Z.pow]. rewrite Z.div_1_r.
      unfold Dbl.to_s64, cond_Zopp, Int.min_s64, Int.max_s64.
      cbn [Z.leb Z.compare]. rewrite Z.mul_1_r.
      destruct (Z.leb_spec (- 2 ^ 63) (Zpos m)); [|lia].
      destruct (Z.leb_spec (Zpos m) (2 ^ 63 - 1)); [cbn; lia|lia].
    + cbn [cond_Zopp].
      set (c := - (- Zpos m / 2 ^ (- E))).
      assert (Hc : 0 < c < 2 ^ 53).
      { unfold c.
        assert (- Zpos m / 2 ^ (- E) < 0) by (apply Z.div_lt_upper_bound; lia).
        assert (- 2 ^ 53 < - Zpos m / 2 ^ (- E)).
        { apply Z.lt_le_trans with (- Zpos m); [lia|].
          apply Z.div_le_lower_bound; [lia|]. nia. }
        lia. }
      destruct (Z.eqb_spec c 0); [lia|]. apply to_s64_of_Z. exact Hc.
  - assert (M = 2 ^ 53) by lia. subst M. cbn [Z.to_pos].
    change (Z.to_pos (2 ^ 52)) with 4503599627370496%positive.
    unfold Dbl.ceil. destruct (Z.leb_spec 0 (E + 1)).
    + assert (E = 0 \/ E = -1) as [-> | ->] by lia; reflexivity.
    + cbn [cond_Zopp].
      assert (Heq : - Zpos 4503599627370496 / 2 ^ (- (E + 1)) = - 2 ^ 53 / 2 ^ (- E)).
      { replace (- E) with (Z.succ (- (E + 1))) by lia.
        assert (Hp : 2 ^ Z.succ (- (E + 1)) = 2 ^ (- (E + 1)) * 2)
          by (rewrite Z.mul_comm; apply Z.pow_succ_r; lia).
        rewrite Hp.
        change (- 2 ^ 53) with (- Zpos 4503599627370496 * 2).
        rewrite Z.div_mul_cancel_r; [reflexivity| |lia].
        apply Z.pow_nonzero; lia. }
      rewrite Heq.
      set (c := - (- 2 ^ 53 / 2 ^ (- E))).
      assert (Hc : 0 < c < 2 ^ 53).
      { unfold c.
        assert (2 <= 2 ^ (- E)).
        { replace 2 with (2 ^ 1) at 1 by reflexivity. apply Z.pow_le_mono_r; lia. }
        assert (- 2 ^ 53 / 2 ^ (- E) < 0) by (apply Z.div_lt_upper_bound; lia).
        assert (- 2 ^ 53 < - 2 ^ 53 / 2 ^ (- E)).
        { apply Z.lt_le_trans with (- 2 ^ 52); [lia|].
          apply Z.div_le_lower_bound; [lia|].
          change (2 ^ 53) with (2 ^ 52 * 2). nia. }
        lia. }
      destruct (Z.eqb_spec c 0); [lia|]. apply to_s64_of_Z. exact Hc.
Qed.

Lemma SFdiv_core_53 :
  forall mx ex my ey,
    2 ^ 52 <= Zpos mx < 2 ^ 53 -> 2 ^ 52 <= Zpos my < 2 ^ 53 ->
    -52 <= ex <= 0 -> -52 <= ey <= 0 ->
    SFdiv_core_binary 53 1024 (Zpos mx) ex (Zpos my) ey
    = ((Zpos mx * 2 ^ 53) / Zpos my, ex - ey - 53,
       new_location (Zpos my) ((Zpos mx * 2 ^ 53) mod Zpos my)).
Proof.
  intros mx ex my ey Hx Hy Hex Hey. unfold SFdiv_core_binary.
  rewrite !Zdigits2_53 by assumption. unfold fexp, emin.
  replace (Z.min (Z.max (53 + ex - (53 + ey) - 53) (3 - 1024 - 53)) (ex - ey))
    with (ex - ey - 53) by lia.
  replace (ex - ey - (ex - ey - 53)) with 53 by lia.
  rewrite Z.shiftl_mul_pow2 by lia.
  unfold Z.div, Z.modulo.
  destruct (Z.div_eucl (Zpos mx * 2 ^ 53) (Zpos my)). reflexivity.
Qed.

(** [xferPkts] is the ceiling of [totalBytes / mssBytes] when both are
    positive and below 2 ^ 53: the division is rounded to nearest, and the
    nearest [double] of a quotient that is not an integer is not the
    integer below it. *)
Lemma xferPkts_ceiling :
  forall a b, 0 < a < 2 ^ 53 -> 0 < b < 2 ^ 53 ->
    (xferPkts a b - 1) * b < a <= xferPkts a b * b.
Proof.
  intros a b Ha Hb. unfold xferPkts.
  destruct (of_Z_exact a Ha) as (ma & ea & -> & Hma & Hra & Hea).
  destruct (of_Z_exact b Hb) as (mb & eb & -> & Hmb & Hrb & Heb).
  unfold Dbl.div, SFdiv, Dbl.prec, Dbl.emax.
  rewrite SFdiv_core_53 by assumption. cbn [xorb].
  set (N := Zpos ma * 2 ^ 53). set (B := Zpos mb).
  assert (HB : 0 < B) by (unfold B; lia).
  assert (Hq : 2 ^ 52 <= N / B < 2 ^ 54).
  { unfold N, B. split.
    - apply Z.div_le_lower_bound; [lia|].
      change (2 ^ 53) with 9007199254740992 in *.
      change (2 ^ 52) with 4503599627370496 in *. nia.
    - apply Z.div_lt_upper_bound; [lia|].
      change (2 ^ 54) with 18014398509481984.
      change (2 ^ 53) with 9007199254740992 in *.
      change (2 ^ 52) with 4503599627370496 in *. nia. }
  destruct (binary_round_aux_quotient (N / B) (ea - eb - 53)
              (new_location B (N mod B)) Hq ltac:(lia)) as (-> & HM).
  pose proof (first_round_nearest N B HB Hq) as Hnear.
  destruct (first_round (N / B) (new_location B (N mod B))) as (M, sh).
  cbn [fst snd] in *. destruct Hnear as (Hsh & Hnear).
  assert (HE : ea - eb - 53 + sh <= 0) by lia.
  rewrite (ceil_finish_round M _ HM HE).
  set (u := - (ea - eb - 53 + sh)).
  assert (Hu : 0 <= u) by (unfold u; lia).
  (* the nearest-rounding bound, in terms of [a] and [b] *)
  assert (Hab : - b <= 2 * (M * b - a * 2 ^ u) <= b).
  { assert (Hsplit : 2 ^ (- ea) * 2 ^ 53 = 2 ^ u * 2 ^ sh * 2 ^ (- eb)).
    { rewrite <- !Z.pow_add_r by lia. f_equal. unfold u. lia. }
    assert (HN : N = a * 2 ^ u * 2 ^ sh * 2 ^ (- eb)).
    { unfold N. rewrite Hma. rewrite <- !Z.mul_assoc. f_equal.
      rewrite !Z.mul_assoc. exact Hsplit. }
    assert (HBb : B = b * 2 ^ (- eb)) by (unfold B; exact Hmb).
    assert (Hp1 : 0 < 2 ^ sh) by (apply Z.pow_pos_nonneg; lia).
    assert (Hp2 : 0 < 2 ^ (- eb)) by (apply Z.pow_pos_nonneg; lia).
    rewrite HN, HBb in Hnear.
    set (s := 2 ^ sh * 2 ^ (- eb)) in *.
    assert (Hs : 0 < s) by (unfold s; nia).
    replace (2 ^ sh * (b * 2 ^ (- eb))) with (b * s) in Hnear by (unfold s; ring).
    replace (M * 2 ^ sh * (b * 2 ^ (- eb)) - a * 2 ^ u * 2 ^ sh * 2 ^ (- eb))
      with ((M * b - a * 2 ^ u) * s) in Hnear by (unfold s; ring).
    split; nia. }
  (* a step of the grid is below [2 / b] *)
  assert (Hgrid : b < 2 * 2 ^ u).
  { assert (b * 2 ^ (- eb) < 2 ^ 53) by (rewrite <- Hmb; lia).
    assert (2 ^ 53 <= 2 * 2 ^ u * 2 ^ (- eb)).
    { replace (2 * 2 ^ u * 2 ^ (- eb)) with (2 ^ (1 + u + - eb))
        by (rewrite !Z.pow_add_r by lia; reflexivity).
      apply Z.pow_le_mono_r; [lia|]. unfold u. lia. }
    assert (0 < 2 ^ (- eb)) by (apply Z.pow_pos_nonneg; lia).
    nia. }
  assert (Hpu : 0 < 2 ^ u) by (apply Z.pow_pos_nonneg; lia).
  set (C := - (- M / 2 ^ u)).
  assert (HC : (C - 1) * 2 ^ u < M <= C * 2 ^ u).
  { unfold C. pose proof (Z.div_mod (- M) (2 ^ u) ltac:(lia)).
    pose proof (Z.mod_pos_bound (- M) (2 ^ u) Hpu). nia. }
  clearbody C. clear - Ha Hb Hab Hgrid Hpu HC.
  split; nia.
Qed.

(** ** Sums, logarithms and the closed form of the rounds *)

Lemma shr_1_spec :
  forall mrs, 0 <= shr_m mrs ->
    shr_m (shr_1 mrs) = shr_m mrs / 2 /\
    (exact_record mrs -> shr_m mrs mod 2 = 0 -> exact_record (shr_1 mrs)).
Proof.
  intros [m r s] Hm. cbn [shr_m] in *. unfold exact_record.
  destruct m as [|p|p]; try lia.
  - cbn [shr_1 shr_m shr_r shr_s]. split; [reflexivity|].
    intros [-> ->] _. split; reflexivity.
  - destruct p as [p|p|]; cbn [shr_1 shr_m shr_r shr_s].
    + split.
      * rewrite Pos2Z.inj_xI, Z.mul_comm, Z.div_add_l by lia. reflexivity.
      * intros _ H.
        rewrite Pos2Z.inj_xI, Z.add_comm, Z.mul_comm, Z.mod_add in H by lia.
        discriminate.
    + split.
      * rewrite Pos2Z.inj_xO, Z.mul_comm, Z.div_mul by lia. reflexivity.
      * intros [-> ->] _. split; reflexivity.
    + split; [reflexivity|]. intros _ H. discriminate.
Qed.

Lemma iter_shr_1_spec :
  forall p mrs, 0 <= shr_m mrs ->
    shr_m (iter_pos shr_1 p mrs) = shr_m mrs / 2 ^ Zpos p /\
    (exact_record mrs -> shr_m mrs mod 2 ^ Zpos p = 0 ->
     exact_record (iter_pos shr_1 p mrs)).
Proof.
  assert (Hdiv : forall m a b, 0 <= m -> 0 < a -> 0 < b -> m mod (a * b) = 0 ->
                               m mod a = 0 /\ (m / a) mod b = 0).
  { intros m a b Hm Ha Hb H. rewrite Z.rem_mul_r in H by lia.
    pose proof (Z.mod_pos_bound m a Ha). pose proof (Z.mod_pos_bound (m / a) b Hb).
    split; nia. }
  induction p as [p IH | p IH |]; intros mrs Hm; cbn [iter_pos].
  - destruct (shr_1_spec mrs Hm) as (H1 & E1).
    assert (Hm1 : 0 <= shr_m (shr_1 mrs)) by (rewrite H1; apply Z.div_pos; lia).
    destruct (IH (shr_1 mrs) Hm1) as (H2 & E2).
    assert (Hm2 : 0 <= shr_m (iter_pos shr_1 p (shr_1 mrs)))
      by (rewrite H2; apply Z.div_pos; [lia|apply Z.pow_pos_nonneg; lia]).
    destruct (IH _ Hm2) as (H3 & E3).
    assert (Hpow : 2 ^ Zpos p~1 = 2 * (2 ^ Zpos p * 2 ^ Zpos p)).
    { rewrite Pos2Z.inj_xI, Z.pow_add_r, Z.pow_mul_r by lia.
      change (2 ^ 2) with 4. change (2 ^ 1) with 2.
      replace 4 with (2 * 2) by reflexivity. rewrite Z.pow_mul_l. ring. }
    assert (Hp : 0 < 2 ^ Zpos p) by (apply Z.pow_pos_nonneg; lia).
    split.
    + rewrite H3, H2, H1, Hpow.
      rewrite (Z.div_div _ 2 (2 ^ Zpos p)) by lia.
      rewrite (Z.div_div _ (2 * 2 ^ Zpos p) (2 ^ Zpos p)) by lia.
      f_equal. ring.
    + intros Hex Hmod. rewrite Hpow in Hmod.
      assert (Hpp : 0 < 2 ^ Zpos p * 2 ^ Zpos p) by nia.
      destruct (Hdiv (shr_m mrs) 2 (2 ^ Zpos p * 2 ^ Zpos p) Hm eq_refl Hpp Hmod)
        as (Ha & Hb).
      assert (Hh : 0 <= shr_m mrs / 2) by (apply Z.div_pos; lia).
      destruct (Hdiv (shr_m mrs / 2) (2 ^ Zpos p) (2 ^ Zpos p) Hh Hp Hp Hb)
        as (Hc & Hd).
      apply E3.
      * apply E2; [apply E1; assumption|]. rewrite H1. exact Hc.
      * rewrite H2, H1. exact Hd.
  - destruct (IH mrs Hm) as (H2 & E2).
    assert (Hm2 : 0 <= shr_m (iter_pos shr_1 p mrs))
      by (rewrite H2; apply Z.div_pos; [lia|apply Z.pow_pos_nonneg; lia]).
    destruct (IH _ Hm2) as (H3 & E3).
    assert (Hpow : 2 ^ Zpos p~0 = 2 ^ Zpos p * 2 ^ Zpos p).
    { rewrite Pos2Z.inj_xO, <- Z.pow_add_r by lia. f_equal. lia. }
    assert (Hp : 0 < 2 ^ Zpos p) by (apply Z.pow_pos_nonneg; lia).
    split.
    + rewrite H3, H2, Hpow. rewrite Z.div_div by lia. reflexivity.
    + intros Hex Hmod. rewrite Hpow in Hmod.
      destruct (Hdiv (shr_m mrs) (2 ^ Zpos p) (2 ^ Zpos p) Hm Hp Hp Hmod)
        as (Hc & Hd).
      apply E3; [apply E2; assumption|]. rewrite H2. exact Hd.
  - change (2 ^ 1) with 2. apply shr_1_spec. exact Hm.
Qed.

(** Rounding an exact number [m * 2 ^ e] of at least 53 digits: the
    mantissa [M] kept after shifting [n] digits out is monotone with
    respect to the multiples of [2 ^ n]. *)
Lemma binary_round_aux_exact :
  forall m e, 2 ^ 52 <= m -> -1074 <= e ->
    let n := Zdigits2 m - 53 in
    e + n <= 968 ->
    exists M,
      binary_round_aux 53 1024 false m e loc_Exact = finish_round M (e + n) /\
      0 <= n /\ 2 ^ 52 <= M <= 2 ^ 53 /\
      (forall c, m <= c * 2 ^ n -> M <= c) /\
      (forall c, c * 2 ^ n <= m -> c <= M).
Proof.
  intros m e Hm He n Hen.
  destruct m as [|p|p]; try (cbn in Hm; lia).
  pose proof (digits2_pos_bounds p) as Hd. cbn [Zdigits2] in n.
  set (d := Zpos (digits2_pos p)) in *.
  assert (Hd53 : 53 <= d).
  { destruct (Z.le_gt_cases 53 d) as [|Hlt]; [assumption|exfalso].
    assert (2 ^ d <= 2 ^ 52) by (apply Z.pow_le_mono_r; lia). lia. }
  assert (Hn : 0 <= n) by (unfold n; lia).
  assert (Hpn : 0 < 2 ^ n) by (apply Z.pow_pos_nonneg; lia).
  assert (Hq : 2 ^ 52 <= Zpos p / 2 ^ n < 2 ^ 53).
  { assert (H52 : 2 ^ (d - 1) = 2 ^ 52 * 2 ^ n)
      by (rewrite <- Z.pow_add_r by lia; f_equal; unfold n; lia).
    assert (H53 : 2 ^ d = 2 ^ 53 * 2 ^ n)
      by (rewrite <- Z.pow_add_r by lia; f_equal; unfold n; lia).
    split; [apply Z.div_le_lower_bound; lia|apply Z.div_lt_upper_bound; lia]. }
  (* the first shift *)
  assert (Hshr : exists mrs,
             shr_fexp 53 1024 (Zpos p) e loc_Exact = (mrs, e + n) /\
             shr_m mrs = Zpos p / 2 ^ n /\
             (Zpos p mod 2 ^ n = 0 -> exact_record mrs)).
  { unfold shr_fexp, fexp, emin. cbn [Zdigits2]. fold d.
    replace (Z.max (d + e - 53) (3 - 1024 - 53) - e) with n by (unfold n; lia).
    unfold shr. destruct n as [|k|k] eqn:Hk; try lia.
    - eexists. split; [rewrite Z.add_0_r; reflexivity|].
      cbn [shr_record_of_loc shr_m]. split; [rewrite Z.div_1_r; reflexivity|].
      intros _. split; reflexivity.
    - destruct (iter_shr_1_spec k (shr_record_of_loc (Zpos p) loc_Exact))
        as (H1 & H2); [cbn; lia|].
      eexists. split; [reflexivity|]. split; [exact H1|].
      intros Hmod. apply H2; [split; reflexivity|exact Hmod]. }
  destruct Hshr as (mrs & Hs & Hmrs & Hex).
  unfold binary_round_aux. rewrite Hs.
  set (M := round_nearest_even (shr_m mrs) (loc_of_shr_record mrs)).
  pose proof (round_nearest_even_range (shr_m mrs) (loc_of_shr_record mrs)) as HM.
  fold M in HM. rewrite Hmrs in HM.
  exists M. split; [apply second_round; lia|].
  split; [exact Hn|]. split; [lia|].
  pose proof (Z.div_mod (Zpos p) (2 ^ n) ltac:(lia)) as Hdm.
  pose proof (Z.mod_pos_bound (Zpos p) (2 ^ n) Hpn) as Hmb.
  split.
  - intros c Hc.
    destruct (Z.eq_dec (Zpos p mod 2 ^ n) 0) as [H0 | Hne].
    + assert (HMe : M = Zpos p / 2 ^ n).
      { unfold M. destruct (Hex H0) as (Hr & Hss).
        destruct mrs as [mm rr ss]; cbn in Hr, Hss, Hmrs |- *. subst rr ss.
        cbn. exact Hmrs. }
      rewrite HMe. nia.
    + assert (Zpos p / 2 ^ n < c) by nia. lia.
  - intros c Hc. assert (c <= Zpos p / 2 ^ n) by (apply Z.div_le_lower_bound; lia).
    lia.
Qed.

(** Rounding any positive number [m * 2 ^ e]: an exact scaling when it has
    fewer than 53 digits, a monotone rounding otherwise. *)
Lemma binary_normalize_pos :
  forall m e, 0 < m -> -1000 <= e -> e + Zdigits2 m <= 1000 ->
    exists M E,
      binary_normalize 53 1024 m e false = finish_round M E /\
      2 ^ 52 <= M <= 2 ^ 53 /\ E = e + (Zdigits2 m - 53) /\
      ((0 <= E - e /\
        (forall c, m <= c * 2 ^ (E - e) -> M <= c) /\
        (forall c, c * 2 ^ (E - e) <= m -> c <= M)) \/
       (E < e /\ M = m * 2 ^ (e - E))).
Proof.
  intros m e Hm He Hed. destruct m as [|p|p]; try lia.
  cbn [Zdigits2] in Hed |- *.
  pose proof (digits2_pos_bounds p) as Hd.
  set (d := Zpos (digits2_pos p)) in *.
  unfold binary_normalize, binary_round, shl_align. fold d.
  unfold fexp, emin.
  replace (Z.max (d + e - 53) (3 - 1024 - 53)) with (d + e - 53) by lia.
  replace (d + e - 53 - e) with (d - 53) by lia.
  destruct (Z.le_gt_cases 53 d) as [Hge | Hlt].
  - assert (Hp52 : 2 ^ 52 <= Zpos p).
    { assert (2 ^ 52 <= 2 ^ (d - 1)) by (apply Z.pow_le_mono_r; lia). lia. }
    assert (Hsel : (match d - 53 with
                    | Z.neg d0 => (Pos.iter xO p d0, d + e - 53)
                    | _ => (p, e)
                    end) = (p, e)).
    { destruct (d - 53) eqn:Hk; try reflexivity. lia. }
    rewrite Hsel.
    destruct (binary_round_aux_exact (Zpos p) e Hp52 ltac:(lia))
      as (M & -> & Hn & HM & Hup & Hlo); [cbn [Zdigits2]; fold d; lia|].
    cbn [Zdigits2] in *. fold d in Hn, Hup, Hlo |- *.
    exists M, (e + (d - 53)). split; [reflexivity|]. split; [exact HM|].
    split; [reflexivity|]. left.
    replace (e + (d - 53) - e) with (d - 53) by lia.
    split; [lia|]. split; assumption.
  - destruct (d - 53) as [|k|k] eqn:Hk; try lia.
    assert (Hkd : Zpos k = 53 - d) by lia.
    assert (Hmz : Zpos (Pos.iter xO p k) = Zpos p * 2 ^ (53 - d))
      by (rewrite iter_xO_pow, Hkd; reflexivity).
    assert (Hr : 2 ^ 52 <= Zpos (Pos.iter xO p k) < 2 ^ 53).
    { assert (H52 : 2 ^ 52 = 2 ^ (d - 1) * 2 ^ (53 - d))
        by (rewrite <- Z.pow_add_r by lia; f_equal; lia).
      assert (H53 : 2 ^ 53 = 2 ^ d * 2 ^ (53 - d))
        by (rewrite <- Z.pow_add_r by lia; f_equal; lia).
      assert (0 < 2 ^ (53 - d)) by (apply Z.pow_pos_nonneg; lia).
      rewrite Hmz. split.
      - rewrite H52. apply Z.mul_le_mono_nonneg_r; lia.
      - rewrite H53. apply Z.mul_lt_mono_pos_r; lia. }
    destruct (binary_round_aux_quotient (Zpos (Pos.iter xO p k)) (d + e - 53)
                loc_Exact) as (Hb & _); [lia|lia|].
    rewrite Hb. unfold first_round.
    destruct (Z.ltb_spec (Zpos (Pos.iter xO p k)) (2 ^ 53)); [|lia].
    cbn [fst snd round_nearest_even]. rewrite Z.add_0_r.
    exists (Zpos (Pos.iter xO p k)), (d + e - 53).
    split; [reflexivity|]. split; [lia|]. split; [lia|]. right.
    split; [lia|]. rewrite Hmz. f_equal. f_equal. lia.
Qed.

(** The sum of two positive [double]s is the rounding of their exact
    sum. *)
Lemma add_finite_pos :
  forall mx ex my ey,
    let ez := Z.min ex ey in
    Dbl.add (S754_finite false mx ex) (S754_finite false my ey)
    = binary_normalize 53 1024
        (Zpos mx * 2 ^ (ex - ez) + Zpos my * 2 ^ (ey - ez)) ez false.
Proof.
  intros mx ex my ey ez. unfold Dbl.add, SFadd, Dbl.prec, Dbl.emax.
  fold ez. cbn [cond_Zopp].
  assert (Hal : forall m e, ez <= e ->
            Zpos (fst (shl_align m e ez)) = Zpos m * 2 ^ (e - ez)).
  { intros m e Hle. unfold shl_align.
    destruct (ez - e) as [|k|k] eqn:Hk; try lia.
    - replace (e - ez) with 0 by lia. cbn [fst]. lia.
    - cbn [fst]. rewrite iter_xO_pow. f_equal. f_equal. lia. }
  rewrite !Hal by (unfold ez; lia). reflexivity.
Qed.

(** The fraction bits: [n] more bits extend the accumulator [acc]. *)
Lemma log2_frac_range :
  forall n M acc,
    acc * 2 ^ Z.of_nat n <= Dbl.log2_frac n M acc < (acc + 1) * 2 ^ Z.of_nat n.
Proof.
  induction n as [|n IH]; intros M acc.
  - cbn [Dbl.log2_frac]. change (2 ^ Z.of_nat 0) with 1. lia.
  - cbn [Dbl.log2_frac]. rewrite Nat2Z.inj_succ, Z.pow_succ_r by lia.
    assert (0 < 2 ^ Z.of_nat n) by (apply Z.pow_pos_nonneg; lia).
    cbv zeta. destruct (_ <=? _).
    + specialize (IH (M * M / 2 ^ Dbl.work_bits / 2) (2 * acc + 1)). nia.
    + specialize (IH (M * M / 2 ^ Dbl.work_bits) (2 * acc)). nia.
Qed.

(** The significand 1 has no fraction bit. *)
Lemma log2_frac_one :
  forall n acc, Dbl.log2_frac n (2 ^ Dbl.work_bits) acc = acc * 2 ^ Z.of_nat n.
Proof.
  induction n as [|n IH]; intros acc.
  - cbn [Dbl.log2_frac]. change (2 ^ Z.of_nat 0) with 1. lia.
  - cbn [Dbl.log2_frac]. cbv zeta.
    replace (2 ^ Dbl.work_bits * 2 ^ Dbl.work_bits / 2 ^ Dbl.work_bits)
      with (2 ^ Dbl.work_bits)
      by (rewrite Z.div_mul;
          [reflexivity|apply Z.pow_nonzero; unfold Dbl.work_bits; lia]).
    destruct (Z.leb_spec (2 ^ (Dbl.work_bits + 1)) (2 ^ Dbl.work_bits)) as [H|_].
    + exfalso. revert H. vm_compute. intros H. apply H. reflexivity.
    + rewrite IH, Nat2Z.inj_succ, Z.pow_succ_r by lia. ring.
Qed.

(** A significand above [1 + D / 2 ^ work_bits] gets a nonzero bit within
    [n] squarings as soon as [D * 2 ^ n] reaches [2 ^ work_bits]: each
    squaring at least doubles the excess over 1. *)
Lemma log2_frac_positive :
  forall n M acc D,
    0 < D -> 2 ^ Dbl.work_bits + D <= M < 2 ^ (Dbl.work_bits + 1) ->
    2 ^ Dbl.work_bits <= D * 2 ^ Z.of_nat n ->
    acc * 2 ^ Z.of_nat n + 1 <= Dbl.log2_frac n M acc.
Proof.
  assert (HP : 0 < 2 ^ Dbl.work_bits) by (vm_compute; reflexivity).
  assert (HP1 : 2 ^ (Dbl.work_bits + 1) = 2 * 2 ^ Dbl.work_bits)
    by (vm_compute; reflexivity).
  induction n as [|n IH]; intros M acc D HD HM Hn.
  - change (2 ^ Z.of_nat 0) with 1 in Hn. lia.
  - cbn [Dbl.log2_frac]. cbv zeta.
    rewrite Nat2Z.inj_succ, Z.pow_succ_r in * by lia.
    assert (Hpn : 0 < 2 ^ Z.of_nat n) by (apply Z.pow_pos_nonneg; lia).
    assert (Hsq : 2 ^ Dbl.work_bits + 2 * D <= M * M / 2 ^ Dbl.work_bits).
    { apply Z.div_le_lower_bound; [lia|].
      set (P := 2 ^ Dbl.work_bits) in *. nia. }
    destruct (Z.leb_spec (2 ^ (Dbl.work_bits + 1)) (M * M / 2 ^ Dbl.work_bits))
      as [Hbit | Hno].
    + pose proof (log2_frac_range n (M * M / 2 ^ Dbl.work_bits / 2) (2 * acc + 1)).
      nia.
    + specialize (IH (M * M / 2 ^ Dbl.work_bits) (2 * acc) (2 * D)).
      assert (2 * acc * 2 ^ Z.of_nat n + 1
              <= Dbl.log2_frac n (M * M / 2 ^ Dbl.work_bits) (2 * acc)).
      { apply IH; [lia|lia|nia]. }
      nia.
Qed.

(** [std::ceil] of a rounded number below 1/2 ulp of an integer grid. *)
Lemma ceil_finish_round_float :
  forall M E, 2 ^ 52 <= M <= 2 ^ 53 -> E <= -2 ->
    Dbl.ceil (finish_round M E) = Dbl.of_Z (- ((- M) / 2 ^ (- E)))
    /\ 1 <= - ((- M) / 2 ^ (- E)).
Proof.
  intros M E HM HE. unfold finish_round.
  assert (Hpow : 0 < 2 ^ (- E)) by (apply Z.pow_pos_nonneg; lia).
  assert (Hc1 : 1 <= - (- M / 2 ^ (- E))).
  { assert (- M / 2 ^ (- E) < 0) by (apply Z.div_lt_upper_bound; lia). lia. }
  split; [|exact Hc1].
  destruct (Z.ltb_spec M (2 ^ 53)) as [Hlt | Hge].
  - destruct M as [|m|m]; try lia. cbn [Z.to_pos].
    unfold Dbl.ceil. destruct (Z.leb_spec 0 E); [lia|]. cbn [cond_Zopp].
    destruct (Z.eqb_spec (- (- Zpos m / 2 ^ (- E))) 0); [lia|reflexivity].
  - assert (M = 2 ^ 53) by lia. subst M.
    change (Z.to_pos (2 ^ 52)) with 4503599627370496%positive.
    unfold Dbl.ceil. destruct (Z.leb_spec 0 (E + 1)); [lia|]. cbn [cond_Zopp].
    assert (Heq : - Zpos 4503599627370496 / 2 ^ (- (E + 1)) = - 2 ^ 53 / 2 ^ (- E)).
    { replace (- E) with (Z.succ (- (E + 1))) by lia.
      assert (Hp : 2 ^ Z.succ (- (E + 1)) = 2 ^ (- (E + 1)) * 2)
        by (rewrite Z.mul_comm; apply Z.pow_succ_r; lia).
      rewrite Hp.
      change (- 2 ^ 53) with (- Zpos 4503599627370496 * 2).
      rewrite Z.div_mul_cancel_r; [reflexivity| |lia].
      apply Z.pow_nonzero; lia. }
    rewrite Heq.
    destruct (Z.eqb_spec (- (- 2 ^ 53 / 2 ^ (- E))) 0); [lia|reflexivity].
Qed.

(** [ceil (...) - 1] stored into an [int64_t], for the small integers
    a logarithm can be. *)
Lemma minus_one_small :
  forall c, 1 <= c <= 64 ->
    Dbl.to_s64 (Dbl.sub (Dbl.of_Z c) (Dbl.of_Z 1)) = c - 1.
Proof.
  assert (Hall : forallb
            (fun n => Dbl.to_s64 (Dbl.sub (Dbl.of_Z (Z.of_nat n)) (Dbl.of_Z 1))
                      =? Z.of_nat n - 1)
            (seq 1 64) = true) by (vm_compute; reflexivity).
  intros c Hc. rewrite forallb_forall in Hall.
  specialize (Hall (Z.to_nat c)).
  rewrite Z2Nat.id in Hall by lia. apply Z.eqb_eq, Hall.
  apply in_seq. lia.
Qed.

(** The rounding of a positive number of the form [m * 2 ^ -128] between
    two integers stays between them, and so does its ceiling. *)
Lemma rounds_of_normalize :
  forall m k K,
    0 < m -> 0 <= k -> K <= 61 -> k * 2 ^ 128 <= m <= K * 2 ^ 128 ->
    let c := Dbl.to_s64
               (Dbl.sub (Dbl.ceil (binary_normalize 53 1024 m (-128) false))
                  (Dbl.of_Z 1)) in
    0 <= c /\ k - 1 <= c <= K - 1.
Proof.
  intros m k K Hm Hk HK Hmk c.
  assert (Hdig : 1 <= Zdigits2 m <= 134).
  { destruct m as [|p|p]; try lia. cbn [Zdigits2].
    pose proof (digits2_pos_bounds p) as Hd.
    split; [lia|].
    destruct (Z.le_gt_cases (Zpos (digits2_pos p)) 134) as [|Hgt]; [assumption|].
    exfalso.
    assert (2 ^ 134 <= 2 ^ (Zpos (digits2_pos p) - 1))
      by (apply Z.pow_le_mono_r; lia).
    change (2 ^ 134) with (64 * 2 ^ 128) in *. lia. }
  destruct (binary_normalize_pos m (-128) Hm ltac:(lia) ltac:(lia))
    as (M & E & Hy & HM & HE & Hcases).
  subst c. rewrite Hy.
  assert (HE2 : E <= -2) by lia.
  destruct (ceil_finish_round_float M E HM HE2) as (-> & HC1).
  set (w := - E) in *. set (C := - (- M / 2 ^ w)) in *.
  assert (Hw : 0 < 2 ^ w) by (apply Z.pow_pos_nonneg; unfold w; lia).
  assert (HCk : k <= C <= K).
  { destruct Hcases as [(Hn & Hup & Hlo) | (Hn & HMe)].
    - replace (E - -128) with (128 - w) in * by (unfold w; lia).
      assert (Hsplit : 2 ^ 128 = 2 ^ w * 2 ^ (128 - w))
        by (rewrite <- Z.pow_add_r by (unfold w; lia); f_equal; lia).
      assert (HMK : M <= K * 2 ^ w).
      { apply Hup. rewrite <- Z.mul_assoc, <- Hsplit. lia. }
      assert (HMk : k * 2 ^ w <= M).
      { apply Hlo. rewrite <- Z.mul_assoc, <- Hsplit. lia. }
      unfold C. split.
      + assert (- M / 2 ^ w <= - k) by (apply Z.div_le_upper_bound; lia). lia.
      + assert (- K <= - M / 2 ^ w) by (apply Z.div_le_lower_bound; lia). lia.
    - (* fewer than 53 digits: below 2 ^ -75 *)
      assert (Hk0 : k = 0).
      { destruct (Z.eq_dec k 0); [assumption|exfalso].
        assert (2 ^ 128 <= m) by nia.
        destruct m as [|p|p]; try lia.
        all: cbn [Zdigits2] in *.
        all: pose proof (digits2_pos_bounds p) as Hd.
        all: assert (2 ^ Zpos (digits2_pos p) <= 2 ^ 52)
          by (apply Z.pow_le_mono_r; lia).
        all: change (2 ^ 128) with (2 ^ 76 * 2 ^ 52) in *; lia. }
      assert (HC : C = 1).
      { unfold C.
        assert (2 ^ 53 < 2 ^ w) by (apply Z.pow_lt_mono_r; unfold w; lia).
        assert (-1 <= - M / 2 ^ w) by (apply Z.div_le_lower_bound; lia).
        lia. }
      assert (0 < K) by nia. lia. }
  rewrite minus_one_small by lia. lia.
Qed.

(** The rounds computed from a normalised double [mx * 2 ^ ex] in
    [[1, 2 ^ 61)]: exact at a power of two, otherwise the integer part of
    the logarithm or one less, and never negative. *)
Lemma rounds_of_spec :
  forall mx ex,
    2 ^ 52 <= Zpos mx < 2 ^ 53 -> 0 <= ex + 52 <= 60 ->
    let k := ex + 52 in
    let c := rounds_of (S754_finite false mx ex) in
    (Zpos mx = 2 ^ 52 -> c = k - 1) /\
    (2 ^ 52 < Zpos mx -> 0 <= c /\ k - 1 <= c <= k).
Proof.
  intros mx ex Hmx Hex k c.
  assert (Hd : Zpos (digits2_pos mx) = 53).
  { apply (digits2_pos_unique mx 53); lia. }
  unfold c, rounds_of, Dbl.log2. cbv zeta. rewrite Hd.
  change (- Z.of_nat Dbl.frac_bits) with (-128).
  change (Z.of_nat Dbl.frac_bits) with 128.
  change (Dbl.work_bits - (53 - 1)) with 204.
  change Dbl.prec with 53. change Dbl.emax with 1024.
  replace (ex + 53 - 1) with k by (unfold k; lia).
  set (T := Dbl.log2_frac Dbl.frac_bits (Zpos mx * 2 ^ 204) 0).
  assert (HT : 0 <= T < 2 ^ 128).
  { pose proof (log2_frac_range Dbl.frac_bits (Zpos mx * 2 ^ 204) 0) as H.
    change (Z.of_nat Dbl.frac_bits) with 128 in H. fold T in H. lia. }
  split.
  - intros Hp.
    assert (HT0 : T = 0).
    { unfold T. rewrite Hp. change (2 ^ 52 * 2 ^ 204) with (2 ^ Dbl.work_bits).
      rewrite log2_frac_one. reflexivity. }
    rewrite HT0, Z.add_0_r.
    destruct (Z.eq_dec k 0) as [Hk|Hk].
    + rewrite Hk. vm_compute. reflexivity.
    + pose proof (rounds_of_normalize (k * 2 ^ 128) k k) as H.
      cbv zeta in H.
      assert (0 < 2 ^ 128) by (apply Z.pow_pos_nonneg; lia).
      assert (0 < k * 2 ^ 128) by (apply Z.mul_pos_pos; unfold k in *; lia).
      unfold k in *. lia.
  - intros Hp.
    assert (HT1 : 1 <= T).
    { pose proof (log2_frac_positive Dbl.frac_bits (Zpos mx * 2 ^ 204) 0
                    (2 ^ 204)) as H.
      change (Z.of_nat Dbl.frac_bits) with 128 in H. fold T in H.
      change Dbl.work_bits with 256 in H.
      change (2 ^ (256 + 1)) with (2 ^ 53 * 2 ^ 204) in H.
      change (2 ^ 256) with (2 ^ 52 * 2 ^ 204) in H.
      assert (0 < 2 ^ 204) by (apply Z.pow_pos_nonneg; lia).
      assert (2 ^ 52 * 2 ^ 204 <= 2 ^ 204 * 2 ^ 128).
      { rewrite <- !Z.pow_add_r by lia. apply Z.pow_le_mono_r; lia. }
      assert (0 * 2 ^ 128 + 1 <= T) by (apply H; nia). lia. }
    pose proof (rounds_of_normalize (k * 2 ^ 128 + T) k (k + 1)) as H.
    cbv zeta in H.
    assert (0 < 2 ^ 128) by (apply Z.pow_pos_nonneg; lia).
    assert (0 <= k * 2 ^ 128) by (apply Z.mul_nonneg_nonneg; unfold k in *; lia).
    rewrite Z.mul_add_distr_r, Z.mul_1_l in H.
    unfold k in *. lia.
Qed.

Lemma pow2_pos : forall n, 0 <= n -> 0 < 2 ^ n.
Proof. intros n Hn. apply Z.pow_pos_nonneg; lia. Qed.

Lemma pow2_split : forall a b, 0 <= a -> 0 <= b -> 2 ^ (a + b) = 2 ^ a * 2 ^ b.
Proof. intros a b Ha Hb. apply Z.pow_add_r; assumption. Qed.

Lemma finish_round_scaled :
  forall M E, 2 ^ 52 <= M <= 2 ^ 53 -> 0 <= E + scale ->
    exists m e, finish_round M E = S754_finite false m e /\
                2 ^ 52 <= Zpos m < 2 ^ 53 /\ E <= e <= E + 1 /\
                Zpos m * 2 ^ (e + scale) = M * 2 ^ (E + scale).
Proof.
  intros M E HM HE. unfold finish_round.
  destruct (Z.ltb_spec M (2 ^ 53)) as [Hlt | Hge].
  - exists (Z.to_pos M), E. rewrite Z2Pos.id by lia.
    split; [reflexivity|split; [lia|split; [lia|reflexivity]]].
  - exists (Z.to_pos (2 ^ 52)), (E + 1).
    split; [reflexivity|]. rewrite Z2Pos.id by (vm_compute; reflexivity).
    split; [split; [lia|vm_compute; reflexivity]|]. split; [lia|].
    assert (HM53 : M = 2 ^ 53) by lia. rewrite HM53.
    replace (E + 1 + scale) with (1 + (E + scale)) by lia.
    rewrite pow2_split by lia. change (2 ^ 53) with (2 ^ 52 * 2 ^ 1). ring.
Qed.

(** A number with [d] binary digits lies in [[2 ^ (d - 1), 2 ^ d)]. *)
Lemma Zdigits2_bounds :
  forall m, 0 < m -> 2 ^ (Zdigits2 m - 1) <= m < 2 ^ Zdigits2 m.
Proof.
  intros m Hm. destruct m as [|p|p]; try lia.
  cbn [Zdigits2]. exact (digits2_pos_bounds p).
Qed.

(** Rounding to binary64 is monotone across every number [c * 2 ^ t] that
    is itself a binary64 number. *)
Lemma normalize_scaled :
  forall m e, 0 < m -> -1000 <= e -> e + Zdigits2 m <= 1000 ->
    exists mx ex,
      binary_normalize 53 1024 m e false = S754_finite false mx ex /\
      2 ^ 52 <= Zpos mx < 2 ^ 53 /\
      (forall c t, 0 < c < 2 ^ 53 -> 0 <= t + scale ->
         m * 2 ^ (e + scale) <= c * 2 ^ (t + scale) ->
         Zpos mx * 2 ^ (ex + scale) <= c * 2 ^ (t + scale)) /\
      (forall c t, 0 < c <= 2 ^ 53 -> 0 <= t + scale ->
         c * 2 ^ (t + scale) <= m * 2 ^ (e + scale) ->
         c * 2 ^ (t + scale) <= Zpos mx * 2 ^ (ex + scale)).
Proof.
  intros m e Hm He Hd.
  destruct (binary_normalize_pos m e Hm He Hd) as (M & E & Hy & HM & HE & Hcases).
  pose proof (Zdigits2_bounds m Hm) as Hdig.
  assert (Hd1 : 1 <= Zdigits2 m).
  { destruct (Z.le_gt_cases 1 (Zdigits2 m)) as [|Hlt]; [assumption|exfalso].
    assert (2 ^ Zdigits2 m <= 2 ^ 0)
      by (destruct (Z.le_gt_cases 0 (Zdigits2 m));
          [apply Z.pow_le_mono_r; lia|rewrite Z.pow_neg_r by lia; cbn; lia]).
    change (2 ^ 0) with 1 in *. lia. }
  assert (HEs : 0 <= E + scale) by (unfold scale; lia).
  destruct (finish_round_scaled M E HM HEs) as (mx & ex & Hfr & Hmx & Hex & Hval).
  exists mx, ex. rewrite Hy. split; [exact Hfr|]. split; [exact Hmx|].
  rewrite Hval.
  assert (Hes : 0 < 2 ^ (e + scale)) by (apply pow2_pos; unfold scale; lia).
  destruct Hcases as [(Hn & Hup & Hlo) | (Hn & HMe)].
  - assert (HEe : 2 ^ (E + scale) = 2 ^ (E - e) * 2 ^ (e + scale)).
    { rewrite <- pow2_split by (unfold scale; lia). f_equal. lia. }
    assert (HPe : 0 < 2 ^ (E - e)) by (apply pow2_pos; lia).
    assert (HPE : 0 < 2 ^ (E + scale)) by (apply pow2_pos; lia).
    split; intros c t Hc Ht H.
    + destruct (Z.le_gt_cases E t) as [HEt | HEt].
      * assert (HtE : 2 ^ (t + scale) = 2 ^ (t - E) * 2 ^ (E + scale)).
        { rewrite <- pow2_split by lia. f_equal. lia. }
        rewrite HtE in *. rewrite Z.mul_assoc in *.
        apply Z.mul_le_mono_nonneg_r; [lia|].
        apply Hup. rewrite HEe, !Z.mul_assoc in H.
        apply Z.mul_le_mono_pos_r in H; [exact H|exact Hes].
      * exfalso.
        assert (Hbig : 2 ^ 53 * 2 ^ (t + scale) <= m * 2 ^ (e + scale)).
        { assert (H1 : 2 ^ (Zdigits2 m - 1) * 2 ^ (e + scale)
                       <= m * 2 ^ (e + scale))
            by (apply Z.mul_le_mono_nonneg_r; lia).
          rewrite <- pow2_split in H1 by (unfold scale; lia).
          rewrite <- pow2_split by lia.
          eapply Z.le_trans; [|exact H1].
          apply Z.pow_le_mono_r; lia. }
        assert (0 < 2 ^ (t + scale)) by (apply pow2_pos; lia).
        assert (c * 2 ^ (t + scale) < 2 ^ 53 * 2 ^ (t + scale))
          by (apply Z.mul_lt_mono_pos_r; lia).
        lia.
    + destruct (Z.le_gt_cases E t) as [HEt | HEt].
      * assert (HtE : 2 ^ (t + scale) = 2 ^ (t - E) * 2 ^ (E + scale)).
        { rewrite <- pow2_split by lia. f_equal. lia. }
        rewrite HtE in *. rewrite Z.mul_assoc in *.
        apply Z.mul_le_mono_nonneg_r; [lia|].
        apply Hlo. rewrite HEe, !Z.mul_assoc in H.
        apply Z.mul_le_mono_pos_r in H; [exact H|exact Hes].
      * assert (H1 : 2 ^ 53 * 2 ^ (t + scale) <= 2 ^ 52 * 2 ^ (E + scale)).
        { rewrite <- !pow2_split by lia. apply Z.pow_le_mono_r; lia. }
        assert (H2 : c * 2 ^ (t + scale) <= 2 ^ 53 * 2 ^ (t + scale)).
        { apply Z.mul_le_mono_nonneg_r; [|lia].
          apply Z.lt_le_incl, pow2_pos; lia. }
        assert (H3 : 2 ^ 52 * 2 ^ (E + scale) <= M * 2 ^ (E + scale)).
        { apply Z.mul_le_mono_nonneg_r; [|lia].
          apply Z.lt_le_incl, pow2_pos; lia. }
        lia.
  - assert (Hsame : M * 2 ^ (E + scale) = m * 2 ^ (e + scale)).
    { rewrite HMe, <- Z.mul_assoc, <- pow2_split by lia.
      do 2 f_equal. lia. }
    rewrite Hsame. split; intros c t _ _ H; exact H.
Qed.

(** The quotient of two integers below 2 ^ 53, as a double: a mantissa [M]
    at exponent [- u] that is nearest to [a / b]. *)
Lemma div_nearest :
  forall a b, 0 < a < 2 ^ 53 -> 0 < b < 2 ^ 53 ->
    exists M u,
      Dbl.div (Dbl.of_Z a) (Dbl.of_Z b) = finish_round M (- u) /\
      2 ^ 52 <= M <= 2 ^ 53 /\ 0 <= u <= 105 /\
      - b <= 2 * (M * b - a * 2 ^ u) <= b /\
      a * 2 ^ u < 2 ^ 54 * b.
Proof.
  intros a b Ha Hb.
  destruct (of_Z_exact a Ha) as (ma & ea & -> & Hma & Hra & Hea).
  destruct (of_Z_exact b Hb) as (mb & eb & -> & Hmb & Hrb & Heb).
  unfold Dbl.div, SFdiv, Dbl.prec, Dbl.emax.
  rewrite SFdiv_core_53 by assumption. cbn [xorb].
  set (N := Zpos ma * 2 ^ 53). set (B := Zpos mb).
  assert (HB : 0 < B) by (unfold B; lia).
  assert (Hq : 2 ^ 52 <= N / B < 2 ^ 54).
  { unfold N, B. split.
    - apply Z.div_le_lower_bound; [lia|].
      change (2 ^ 53) with 9007199254740992 in *.
      change (2 ^ 52) with 4503599627370496 in *. nia.
    - apply Z.div_lt_upper_bound; [lia|].
      change (2 ^ 54) with 18014398509481984.
      change (2 ^ 53) with 9007199254740992 in *.
      change (2 ^ 52) with 4503599627370496 in *. nia. }
  destruct (binary_round_aux_quotient (N / B) (ea - eb - 53)
              (new_location B (N mod B)) Hq ltac:(lia)) as (-> & HM).
  pose proof (first_round_nearest N B HB Hq) as Hnear.
  destruct (first_round (N / B) (new_location B (N mod B))) as (M, sh).
  cbn [fst snd] in *. destruct Hnear as (Hsh & Hnear).
  set (u := - (ea - eb - 53 + sh)).
  assert (Hu : 0 <= u <= 105) by (unfold u; lia).
  exists M, u.
  replace (ea - eb - 53 + sh) with (- u) by (unfold u; lia).
  split; [reflexivity|]. split; [exact HM|]. split; [exact Hu|].
  assert (Hp2 : 0 < 2 ^ (- eb)) by (apply Z.pow_pos_nonneg; lia).
  assert (Hpu : 0 < 2 ^ u) by (apply Z.pow_pos_nonneg; lia).
  split.
  - assert (Hsplit : 2 ^ (- ea) * 2 ^ 53 = 2 ^ u * 2 ^ sh * 2 ^ (- eb)).
    { rewrite <- !Z.pow_add_r by lia. f_equal. unfold u. lia. }
    assert (HN : N = a * 2 ^ u * 2 ^ sh * 2 ^ (- eb)).
    { unfold N. rewrite Hma. rewrite <- !Z.mul_assoc. f_equal.
      rewrite !Z.mul_assoc. exact Hsplit. }
    assert (HBb : B = b * 2 ^ (- eb)) by (unfold B; exact Hmb).
    assert (Hp1 : 0 < 2 ^ sh) by (apply Z.pow_pos_nonneg; lia).
    rewrite HN, HBb in Hnear.
    set (s := 2 ^ sh * 2 ^ (- eb)) in *.
    assert (Hs : 0 < s) by (unfold s; nia).
    replace (2 ^ sh * (b * 2 ^ (- eb))) with (b * s) in Hnear by (unfold s; ring).
    replace (M * 2 ^ sh * (b * 2 ^ (- eb)) - a * 2 ^ u * 2 ^ sh * 2 ^ (- eb))
      with ((M * b - a * 2 ^ u) * s) in Hnear by (unfold s; ring).
    clear - Hnear Hs. split; nia.
  - assert (H1 : a * 2 ^ u * 2 ^ (- eb) <= Zpos ma * 2 ^ 53).
    { rewrite Hma, <- !Z.mul_assoc. apply Z.mul_le_mono_nonneg_l; [lia|].
      rewrite <- !Z.pow_add_r by lia. apply Z.pow_le_mono_r; unfold u; lia. }
    assert (H2 : Zpos ma * 2 ^ 53 < 2 ^ 54 * (b * 2 ^ (- eb))).
    { rewrite <- Hmb. change (2 ^ 54) with (4 * 2 ^ 52).
      change (2 ^ 53) with 9007199254740992 in *.
      change (2 ^ 52) with 4503599627370496 in *. nia. }
    apply (Z.mul_lt_mono_pos_r (2 ^ (- eb))); [exact Hp2|]. lia.
Qed.

(** [double(a) / b + 1] for integers below 2 ^ 53 with [b <= 2 ^ 50 * a]:
    above one, and not above a power of two that [a / b + 1] does not
    exceed. *)
Lemma ratio_plus_one :
  forall a b, 0 < a < 2 ^ 53 -> 0 < b < 2 ^ 53 -> b <= 2 ^ 50 * a ->
    exists mx ex,
      Dbl.add (Dbl.div (Dbl.of_Z a) (Dbl.of_Z b)) (Dbl.of_Z 1)
      = S754_finite false mx ex /\
      2 ^ 52 <= Zpos mx < 2 ^ 53 /\
      (forall j, 0 <= j <= 60 -> a <= (2 ^ j - 1) * b ->
         Zpos mx * 2 ^ (ex + scale) <= 2 ^ 52 * 2 ^ (j - 52 + scale)) /\
      (2 ^ 52 + 1) * 2 ^ (-52 + scale) <= Zpos mx * 2 ^ (ex + scale).
Proof.
  intros a b Ha Hb Hab.
  destruct (div_nearest a b Ha Hb) as (M & u & -> & HM & Hu & Hnear & Hlow).
  assert (Hus : 0 <= - u + scale) by (unfold scale; lia).
  destruct (finish_round_scaled M (- u) HM Hus)
    as (mq & eq & -> & Hmq & Heq & Hval).
  change (Dbl.of_Z 1) with (S754_finite false 4503599627370496 (-52)).
  rewrite add_finite_pos. cbv zeta.
  set (ez := Z.min eq (-52)).
  set (m := Zpos mq * 2 ^ (eq - ez) + 4503599627370496 * 2 ^ (-52 - ez)).
  assert (Hez : -105 <= ez <= -52) by (unfold ez; lia).
  assert (Hp1 : 0 < 2 ^ (eq - ez)) by (apply pow2_pos; unfold ez; lia).
  assert (Hp2 : 0 < 2 ^ (-52 - ez)) by (apply pow2_pos; unfold ez; lia).
  assert (Hm : 0 < m) by (unfold m; nia).
  assert (Hsum : m * 2 ^ (ez + scale) = M * 2 ^ (- u + scale) + 2 ^ 52 * 2 ^ (-52 + scale)).
  { unfold m. rewrite Z.mul_add_distr_r, <- !Z.mul_assoc.
    rewrite <- !pow2_split by (unfold scale, ez; lia).
    replace (eq - ez + (ez + scale)) with (eq + scale) by lia.
    replace (-52 - ez + (ez + scale)) with (-52 + scale) by lia.
    rewrite Hval. reflexivity. }
  assert (Hdig : ez + Zdigits2 m <= 1000).
  { pose proof (Zdigits2_bounds m Hm) as Hd.
    assert (Hmb : m < 2 ^ 200).
    { unfold m.
      assert (2 ^ (eq - ez) <= 2 ^ 106) by (apply Z.pow_le_mono_r; unfold ez; lia).
      assert (2 ^ (-52 - ez) <= 2 ^ 53) by (apply Z.pow_le_mono_r; unfold ez; lia).
      assert (Zpos mq * 2 ^ (eq - ez) <= 2 ^ 53 * 2 ^ 106)
        by (apply Z.mul_le_mono_nonneg; lia).
      assert (4503599627370496 * 2 ^ (-52 - ez) <= 2 ^ 52 * 2 ^ 53)
        by (apply Z.mul_le_mono_nonneg; [lia|vm_compute; discriminate|lia|lia]).
      assert (2 ^ 53 * 2 ^ 106 + 2 ^ 52 * 2 ^ 53 < 2 ^ 200)
        by (vm_compute; reflexivity).
      lia. }
    destruct (Z.le_gt_cases (Zdigits2 m) 200) as [|Hgt]; [lia|].
    assert (2 ^ 200 <= 2 ^ (Zdigits2 m - 1)) by (apply Z.pow_le_mono_r; lia).
    lia. }
  destruct (normalize_scaled m ez Hm ltac:(lia) Hdig)
    as (mx & ex & -> & Hmx & Hle & Hge).
  exists mx, ex. split; [reflexivity|]. split; [exact Hmx|].
  assert (Hpu : 0 < 2 ^ u) by (apply pow2_pos; lia).
  assert (Hsu : 2 ^ scale = 2 ^ u * 2 ^ (- u + scale)).
  { rewrite <- pow2_split by lia. f_equal; lia. }
  assert (Hps : 0 < 2 ^ (- u + scale)) by (apply pow2_pos; lia).
  assert (Hone : 2 ^ 52 * 2 ^ (-52 + scale) = 2 ^ scale).
  { rewrite <- pow2_split by (unfold scale; lia). f_equal; lia. }
  split.
  - intros j Hj Haj.
    apply Hle; [split; [vm_compute; reflexivity|vm_compute; reflexivity]
               |unfold scale; lia|].
    rewrite Hsum, Hone.
    replace (2 ^ 52 * 2 ^ (j - 52 + scale)) with (2 ^ j * 2 ^ scale)
      by (rewrite <- !pow2_split by (unfold scale; lia); f_equal; lia).
    assert (HMj : M <= (2 ^ j - 1) * 2 ^ u).
    { assert (0 < 2 ^ j) by (apply pow2_pos; lia).
      clear - Hnear Haj Hb Hpu H. nia. }
    assert (M * 2 ^ (- u + scale) <= (2 ^ j - 1) * 2 ^ u * 2 ^ (- u + scale))
      by (apply Z.mul_le_mono_nonneg_r; lia).
    rewrite <- Z.mul_assoc, <- Hsu in H. lia.
  - apply Hge; [split; vm_compute; [reflexivity|discriminate]
               |unfold scale; lia|].
    rewrite Hsum, Z.mul_add_distr_r, Z.mul_1_l.
    assert (Hu103 : u <= 103).
    { destruct (Z.le_gt_cases u 103) as [|Hgt]; [assumption|exfalso].
      assert (2 ^ 104 <= 2 ^ u) by (apply Z.pow_le_mono_r; lia).
      change (2 ^ 104) with (2 ^ 54 * 2 ^ 50) in *.
      clear - Hlow Hab H Ha Hb. nia. }
    assert (2 ^ (-52 + scale) <= 2 ^ 52 * 2 ^ (- u + scale)).
    { rewrite <- pow2_split by lia. apply Z.pow_le_mono_r; lia. }
    assert (2 ^ 52 * 2 ^ (- u + scale) <= M * 2 ^ (- u + scale))
      by (apply Z.mul_le_mono_nonneg_r; lia).
    lia.
Qed.

(** The closed form of the rounds, for integers below 2 ^ 53 with
    [initCwndPkts <= 2 ^ 50 * xferPkts]: never negative, the packets of
    the windows before the last stay below the transfer, and a transfer
    within the first window takes no round. *)
Lemma rttsToLast_spec :
  forall a b, 0 < a < 2 ^ 53 -> 0 < b < 2 ^ 53 -> b <= 2 ^ 50 * a ->
    0 <= rttsToLast a b <= 53 /\
    (2 ^ rttsToLast a b - 1) * b < a /\
    (a <= b -> rttsToLast a b = 0).
Proof.
  intros a b Ha Hb Hab.
  destruct (ratio_plus_one a b Ha Hb Hab) as (mx & ex & HX & Hmx & Hup & Hlo).
  change (rttsToLast a b)
    with (rounds_of (Dbl.add (Dbl.div (Dbl.of_Z a) (Dbl.of_Z b)) (Dbl.of_Z 1))).
  rewrite HX.
  (* the exponent: 1 < X <= 2 ^ 53 *)
  assert (Hexs : 0 <= ex + scale).
  { destruct (Z.le_gt_cases 0 (ex + scale)) as [|Hlt]; [assumption|exfalso].
    rewrite (Z.pow_neg_r 2 (ex + scale)), Z.mul_0_r in Hlo by lia.
    assert (0 < 2 ^ (-52 + scale)) by (apply pow2_pos; unfold scale in *; lia).
    lia. }
  assert (Hk0 : -52 <= ex).
  { destruct (Z.le_gt_cases (-52) ex) as [|Hlt]; [assumption|exfalso].
    assert (Zpos mx * 2 ^ (ex + scale) < 2 ^ 53 * 2 ^ (ex + scale))
      by (apply Z.mul_lt_mono_pos_r; [apply pow2_pos; lia|lia]).
    assert (2 ^ 53 * 2 ^ (ex + scale) <= 2 ^ 52 * 2 ^ (-52 + scale)).
    { rewrite <- !pow2_split by (unfold scale in *; lia).
      apply Z.pow_le_mono_r; lia. }
    assert (0 < 2 ^ (-52 + scale)) by (apply pow2_pos; unfold scale in *; lia).
    lia. }
  assert (Hk0' : ex = -52 -> 2 ^ 52 < Zpos mx).
  { intros ->.
    assert (0 < 2 ^ (-52 + scale)) by (apply pow2_pos; unfold scale in *; lia).
    nia. }
  assert (Hk53 : ex <= 1).
  { destruct (Z.le_gt_cases ex 1) as [|Hgt]; [assumption|exfalso].
    assert (H := Hup 53 ltac:(lia)
                   ltac:(change (2 ^ 53) with 9007199254740992 in *; nia)).
    assert (2 ^ 52 * 2 ^ (ex + scale) <= Zpos mx * 2 ^ (ex + scale))
      by (apply Z.mul_le_mono_nonneg_r;
          [apply Z.lt_le_incl, pow2_pos; unfold scale in *; lia|lia]).
    assert (2 ^ 52 * 2 ^ (53 - 52 + scale) < 2 ^ 52 * 2 ^ (ex + scale)).
    { apply Z.mul_lt_mono_pos_l; [vm_compute; reflexivity|].
      apply Z.pow_lt_mono_r; unfold scale in *; lia. }
    lia. }
  destruct (rounds_of_spec mx ex Hmx ltac:(lia)) as (Hpow & Hmid).
  cbv zeta in Hpow, Hmid.
  set (r := rounds_of (S754_finite false mx ex)) in *.
  (* X is above 2 ^ r *)
  assert (Hr : 0 <= r <= 53 /\
               2 ^ 52 * 2 ^ (r - 52 + scale) < Zpos mx * 2 ^ (ex + scale)).
  { destruct (Z.eq_dec (Zpos mx) (2 ^ 52)) as [He | Hne].
    - rewrite (Hpow He). split; [lia|]. rewrite He.
      apply Z.mul_lt_mono_pos_l; [vm_compute; reflexivity|].
      apply Z.pow_lt_mono_r; unfold scale in *; lia.
    - destruct (Hmid ltac:(lia)) as (H0 & H1). split; [lia|].
      assert (2 ^ 52 * 2 ^ (ex + scale) < Zpos mx * 2 ^ (ex + scale))
        by (apply Z.mul_lt_mono_pos_r; [apply pow2_pos; lia|lia]).
      assert (2 ^ 52 * 2 ^ (r - 52 + scale) <= 2 ^ 52 * 2 ^ (ex + scale)).
      { apply Z.mul_le_mono_nonneg_l; [vm_compute; discriminate|].
        apply Z.pow_le_mono_r; unfold scale in *; lia. }
      lia. }
  destruct Hr as (Hr & HXr).
  split; [exact Hr|]. split.
  - destruct (Z.lt_ge_cases ((2 ^ r - 1) * b) a) as [|Hge]; [assumption|exfalso].
    pose proof (Hup r ltac:(lia) Hge). lia.
  - intros Hfit.
    assert (H := Hup 1 ltac:(lia) ltac:(change (2 ^ 1) with 2; lia)).
    destruct (Z.eq_dec r 0) as [|Hne]; [assumption|exfalso].
    assert (2 ^ 52 * 2 ^ (1 - 52 + scale) <= 2 ^ 52 * 2 ^ (r - 52 + scale)).
    { apply Z.mul_le_mono_nonneg_l; [vm_compute; discriminate|].
      apply Z.pow_le_mono_r; unfold scale in *; lia. }
    lia.
Qed.

(** One turn of the loop. *)
Lemma search_step :
  forall totalBytes mssBytes minRtt totalTime fuel st,
    search totalBytes mssBytes minRtt totalTime (S fuel) st =
    if cumulativePkts st <? xferPkts totalBytes mssBytes then
      if tputBps mssBytes minRtt st =? 0 then RateIsZero
      else if modelTimeAt totalBytes mssBytes minRtt st <=? totalTime
           then Left (mkState (rtts st) (cumulativePkts st) (cwnd st)
                        (Some (modelTimeAt totalBytes mssBytes minRtt st)))
           else search totalBytes mssBytes minRtt totalTime fuel
                  (advance totalBytes mssBytes minRtt st)
    else Left st.
Proof. reflexivity. Qed.

(** ** Wrap-around *)

Lemma s64_small : forall x, - 2 ^ 63 <= x < 2 ^ 63 -> Int.s64 x = x.
Proof.
  intros x H. unfold Int.s64, Int.wrap_s.
  change (2 ^ (64 - 1)) with (2 ^ 63) in *.
  change (2 ^ 64) with (2 * 2 ^ 63) in *.
  rewrite Z.mod_small; lia.
Qed.

Lemma u64_small : forall x, 0 <= x < 2 ^ 64 -> Int.u64 x = x.
Proof. intros x H. unfold Int.u64, Int.wrap_u. now apply Z.mod_small. Qed.

Lemma s64_range : forall x, - 2 ^ 63 <= Int.s64 x < 2 ^ 63.
Proof.
  intros x. unfold Int.s64, Int.wrap_s.
  change (2 ^ (64 - 1)) with (2 ^ 63).
  pose proof (Z.mod_pos_bound (x + 2 ^ 63) (2 ^ 64) eq_refl).
  change (2 ^ 64) with (2 * 2 ^ 63) in *. lia.
Qed.

Lemma u64_range : forall x, 0 <= Int.u64 x < 2 ^ 64.
Proof. intros x. apply Z.mod_pos_bound. reflexivity. Qed.

(** The signed value depends on the residue modulo 2 ^ 64 only. *)
Lemma s64_congr :
  forall x y, x mod 2 ^ 64 = y mod 2 ^ 64 -> Int.s64 x = Int.s64 y.
Proof.
  intros x y H. unfold Int.s64, Int.wrap_s.
  rewrite <- (Zplus_mod_idemp_l x), <- (Zplus_mod_idemp_l y), H. reflexivity.
Qed.

Lemma s64_mod : forall x, Int.s64 x mod 2 ^ 64 = x mod 2 ^ 64.
Proof.
  intros x. unfold Int.s64, Int.wrap_s.
  rewrite <- Zminus_mod_idemp_l, Z.mod_mod by discriminate.
  rewrite Zminus_mod_idemp_l. f_equal. lia.
Qed.

Lemma s64_double : forall x, Int.s64 (2 * Int.s64 x) = Int.s64 (2 * x).
Proof.
  intros x. apply s64_congr.
  rewrite <- Zmult_mod_idemp_r, s64_mod, Zmult_mod_idemp_r. reflexivity.
Qed.

(** A zero window has a zero rate. *)
Lemma rate_of_zero_window :
  forall x mssBytes minRtt, x mod 2 ^ 64 = 0 -> rate_of x mssBytes minRtt = 0.
Proof.
  intros x mss rtt H. unfold rate_of.
  unfold Int.u64 at 3. unfold Int.wrap_u. rewrite H.
  reflexivity.
Qed.

(** ** The fixture and the zero round-trip time *)

(** C1.  On the fixture (1460-byte segments, an initial window of 10
    packets, a 20000 microsecond round-trip time, 10000000 bytes) [Gpeak]
    counts 6850 packets and returns 9 rounds in slow start, a last full
    window of 2560 packets, 186880000 bytes per second and [OK]. *)
Theorem Gpeak_fixture :
  xferPkts 10000000 1460 = 6850 /\
  Gpeak 10000000 10 1460 20000 = Ret (mkModelRate 186880000 9 6860 2560 OK).
Proof. split; vm_compute; reflexivity. Qed.

(** C2.  With a zero [minRtt] both functions return
    [ERROR_MINRTT_IS_ZERO] and zero in the four numeric fields, whatever
    the other arguments are. *)
Theorem minRtt_zero :
  forall totalBytes initCwndPkts mssBytes totalTime : Z,
    Gpeak totalBytes initCwndPkts mssBytes 0
      = Ret (mkModelRate 0 0 0 0 ERROR_MINRTT_IS_ZERO) /\
    GoodputBps totalBytes initCwndPkts mssBytes 0 totalTime
      = Ret (mkModelRate 0 0 0 0 ERROR_MINRTT_IS_ZERO).
Proof. intros; split; reflexivity. Qed.

(** ** The narrowing casts at the two [return]s *)

(** Whatever [Gpeak] returns with [OK], its last field went through
    [uint16_t]: it is the low 16 bits of [lastFullCwndPktsMax]. *)
Lemma Gpeak_lastFull_is_u16 :
  forall totalBytes initCwndPkts mssBytes minRtt r,
    Gpeak totalBytes initCwndPkts mssBytes minRtt = Ret r ->
    status r = OK ->
    lastFullCwndPkts r
      = Int.u16 (lastFullCwndPktsMax
                   (rttsToLast (xferPkts totalBytes mssBytes) initCwndPkts)
                   initCwndPkts)
    /\ 0 <= lastFullCwndPkts r < 65536.
Proof.
  intros tb ic mss rtt r. unfold Gpeak, assert.
  destruct (rtt =? 0); [intros [= <-]; discriminate|].
  destruct (0 <=? _); [|discriminate].
  destruct (_ <=? _); [|discriminate].
  intros [= <-] _; cbn [lastFullCwndPkts]. split; [reflexivity|].
  unfold Int.u16, Int.wrap_u. apply Z.mod_pos_bound. reflexivity.
Qed.

(** C3.  The last field of [Gpeak]'s record is meant to be
    [max (initCwndPkts, initCwndPkts * 2 ^ (rttsToLast - 1))] in full
    width.  For a transfer of 10 ^ 9 bytes on the fixture's link the code
    computes 16 rounds and the maximum 327680, and returns 0 in the field:
    the [uint16_t] cast at the [return] keeps the low 16 bits only. *)
Theorem Gpeak_lastFull_truncated :
  rttsToLast (xferPkts 1000000000 1460) 10 = 16 /\
  lastFullCwndPktsMax 16 10 = Z.max 10 (10 * 2 ^ (16 - 1)) /\
  Z.max 10 (10 * 2 ^ (16 - 1)) = 327680 /\
  Gpeak 1000000000 10 1460 20000
    = Ret (mkModelRate 23920640000 16 684942 0 OK).
Proof. split; [|split; [|split]]; vm_compute; reflexivity. Qed.

(** ** The first window *)

(** C8.  A transfer that fits in the first window is meant to give
    [rttsToLast = 0].  One byte against an initial window of 2 ^ 54
    packets fits, yet [double(xferPkts) / initCwndPkts + 1] rounds to 1,
    its logarithm is 0 and [rttsToLast] is -1: the function stops at its
    own [assert(rttsToLast >= 0)]. *)
Theorem Gpeak_first_window_negative_rounds :
  1 <= 2 ^ 54 * 1 /\
  xferPkts 1 1 = 1 /\
  rttsToLast (xferPkts 1 1) (2 ^ 54) = -1 /\
  Gpeak 1 (2 ^ 54) 1 1 = Abort.
Proof.
  split; [vm_compute; discriminate|].
  split; [|split]; vm_compute; reflexivity.
Qed.

(** ** The zero rate *)

(** A round-trip time above one second makes the rate of a one-byte
    window zero. *)
Lemma rate_of_one_byte_slow :
  forall minRtt, MICROS_IN_SEC < minRtt < 2 ^ 63 -> rate_of (Int.s64 1) 1 minRtt = 0.
Proof.
  intros rtt [Hlo Hhi]. unfold MICROS_IN_SEC in Hlo.
  unfold rate_of.
  replace (Int.u64 (Int.u64 (Int.u64 (Int.s64 1) * 1) * MICROS_IN_SEC))
    with 1000000 by (vm_compute; reflexivity).
  unfold Int.u64, Int.wrap_u.
  rewrite (Z.mod_small rtt) by (change (2 ^ 64) with 18446744073709551616;
                                change (2 ^ 63) with 9223372036854775808 in Hhi; lia).
  rewrite Z.div_small by lia. reflexivity.
Qed.

(** C5.  When the loop is entered and the rate of the initial window
    computes to zero, [GoodputBps] returns
    [ERROR_INIT_CWND_SLOWER_THAN_1BPMS] with zero in all numeric fields;
    a one-packet window of one-byte segments with a round-trip time above
    one second is such a case. *)
Theorem GoodputBps_rate_zero :
  forall totalBytes initCwndPkts mssBytes minRtt totalTime : Z,
    minRtt <> 0 ->
    0 < xferPkts totalBytes mssBytes ->
    (rate_of (Int.s64 initCwndPkts) mssBytes minRtt = 0 \/
     (initCwndPkts = 1 /\ mssBytes = 1 /\ MICROS_IN_SEC < minRtt < 2 ^ 63)) ->
    GoodputBps totalBytes initCwndPkts mssBytes minRtt totalTime
      = Ret (mkModelRate 0 0 0 0 ERROR_INIT_CWND_SLOWER_THAN_1BPMS).
Proof.
  intros tb ic mss rtt tt Hrtt Hx Hrate.
  assert (Hz : rate_of (Int.s64 ic) mss rtt = 0).
  { destruct Hrate as [H | (-> & -> & H)]; [exact H|].
    now apply rate_of_one_byte_slow. }
  unfold GoodputBps, GoodputBps_fuel.
  apply Z.eqb_neq in Hrtt. rewrite Hrtt.
  change 65%nat with (S 64). rewrite search_step.
  change (cumulativePkts (initial ic)) with 0.
  apply Z.ltb_lt in Hx. rewrite Hx.
  unfold tputBps. change (cwnd (initial ic)) with (Int.s64 ic).
  rewrite Hz. reflexivity.
Qed.

Lemma GoodputBps_rate_zero_witness :
  GoodputBps 1 1 1 1000001 5
    = Ret (mkModelRate 0 0 0 0 ERROR_INIT_CWND_SLOWER_THAN_1BPMS).
Proof.
  apply (GoodputBps_rate_zero 1 1 1 1000001 5).
  - discriminate.
  - vm_compute; reflexivity.
  - right. repeat split; vm_compute; reflexivity.
Defined.

(** ** The 32-bit casts of GoodputBps *)

(** C10.  At its [OK] return [GoodputBps] passes [achievedBps] and [rtts]
    through [uint32_t]: the record holds them modulo 2 ^ 32 (the other two
    fields are full 64-bit values), and there are inputs, such as 10 ^ 10
    bytes in one second, whose [achievedBps] is at least 2 ^ 32 and is not
    the [bytesPerSec] returned. *)
Theorem GoodputBps_narrows :
  (forall totalBytes initCwndPkts mssBytes minRtt totalTime r,
      GoodputBps totalBytes initCwndPkts mssBytes minRtt totalTime = Ret r ->
      status r = OK ->
      exists st,
        search totalBytes mssBytes minRtt totalTime 65 (initial initCwndPkts)
          = Left st /\
        let st' := settled totalBytes mssBytes st in
        bytesPerSec r
          = achievedBps totalBytes mssBytes minRtt totalTime st' mod 2 ^ 32 /\
        rttsInSlowStart r = rtts st' mod 2 ^ 32 /\
        projectedCwndPkts r
          = projected totalBytes mssBytes minRtt totalTime st' mod 2 ^ 64 /\
        lastFullCwndPkts r = cwnd st' mod 2 ^ 64) /\
  (exists totalBytes initCwndPkts mssBytes minRtt totalTime r st,
      GoodputBps totalBytes initCwndPkts mssBytes minRtt totalTime = Ret r /\
      status r = OK /\
      search totalBytes mssBytes minRtt totalTime 65 (initial initCwndPkts)
        = Left st /\
      2 ^ 32 <= achievedBps totalBytes mssBytes minRtt totalTime
                  (settled totalBytes mssBytes st) /\
      bytesPerSec r <> achievedBps totalBytes mssBytes minRtt totalTime
                         (settled totalBytes mssBytes st)).
Proof.
  split.
  - intros tb ic mss rtt tt r. unfold GoodputBps, GoodputBps_fuel.
    destruct (rtt =? 0); [intros [= <-]; discriminate|].
    destruct (search tb mss rtt tt 65 (initial ic)) as [st| |] eqn:Hs;
      [|intros [= <-]; discriminate|discriminate].
    intros Hf Hok. exists st. split; [reflexivity|].
    unfold finish, settled, assert in *.
    destruct (xferPkts tb mss <=? cumulativePkts st).
    + destruct (modelTime_above tt st); [|discriminate].
      destruct (remainingTime rtt tt (backtrack st) <=? 0);
        [injection Hf as <-; discriminate|].
      destruct (0 <? remainingPkts tb mss (backtrack st)); [|discriminate].
      injection Hf as <-. repeat split.
    + destruct (remainingTime rtt tt st <=? 0);
        [injection Hf as <-; discriminate|].
      destruct (0 <? remainingPkts tb mss st); [|discriminate].
      injection Hf as <-. repeat split.
  - exists 10000000000, 10, 1460, 100, 1000000.
    eexists. eexists. split; [vm_compute; reflexivity|].
    split; [reflexivity|].
    split; [vm_compute; reflexivity|].
    split; vm_compute; discriminate.
Qed.

Lemma GoodputBps_narrows_witness :
  exists st,
    search 10000000000 1460 100 1000000 65 (initial 10) = Left st /\
    1416227717 = achievedBps 10000000000 1460 100 1000000
                   (settled 10000000000 1460 st) mod 2 ^ 32 /\
    7 = rtts (settled 10000000000 1460 st) mod 2 ^ 32.
Proof.
  destruct (proj1 GoodputBps_narrows 10000000000 10 1460 100 1000000
              (mkModelRate 1416227717 7 685 1280 OK))
    as (st & Hs & Ha & Hr & _).
  - vm_compute; reflexivity.
  - reflexivity.
  - exists st. repeat split; assumption.
Defined.

(** ** The search loop ends *)

Section Termination.

Variables totalBytes mssBytes minRtt totalTime : Z.

Let xfer : Z := xferPkts totalBytes mssBytes.
Let run := search totalBytes mssBytes minRtt totalTime.
Let step := advance totalBytes mssBytes minRtt.

(** After 64 doublings a 64-bit window is zero, so is its rate, and the
    loop returns: 65 turns are enough from the start, whatever the
    inputs. *)
Lemma search_ends :
  forall (fuel n : nat) (c : Z) (st : search_state),
    (n <= 64)%nat -> (65 <= n + fuel)%nat ->
    cwnd st mod 2 ^ 64 = (2 ^ Z.of_nat n * c) mod 2 ^ 64 ->
    run fuel st <> Unfinished.
Proof.
  subst run. induction fuel as [|fuel IH]; intros n c st Hn Hf Hc; [lia|].
  rewrite search_step.
  destruct (cumulativePkts st <? _); [|discriminate].
  destruct (tputBps mssBytes minRtt st =? 0) eqn:Ht; [discriminate|].
  destruct (modelTimeAt _ _ _ st <=? totalTime); [discriminate|].
  destruct (Nat.eq_dec n 64) as [->|Hne].
  - exfalso. apply Z.eqb_neq in Ht. apply Ht.
    unfold tputBps. apply rate_of_zero_window. rewrite Hc.
    change (2 ^ Z.of_nat 64) with (2 ^ 64).
    rewrite Z.mul_comm. apply Z_mod_mult.
  - apply (IH (S n) c); [lia|lia|].
    unfold advance; cbn [cwnd]. rewrite s64_mod.
    rewrite <- Zmult_mod_idemp_r, Hc, Zmult_mod_idemp_r.
    f_equal. rewrite Nat2Z.inj_succ, Z.pow_succ_r by lia. ring.
Qed.





End Termination.

(** ** The doubling schedule, while nothing overflows *)

Section Doubling.

Variables totalBytes initCwndPkts mssBytes minRtt totalTime : Z.

Let xfer : Z := xferPkts totalBytes mssBytes.

Hypothesis window_positive : 0 < initCwndPkts < 2 ^ 63.
Hypothesis no_overflow : initCwndPkts + xfer <= 2 ^ 62.

Lemma doubling_initial : doubling initCwndPkts 0 (initial initCwndPkts).
Proof.
  unfold doubling, initial; cbn [rtts cwnd cumulativePkts].
  change (2 ^ Z.of_nat 0) with 1. rewrite s64_small; lia.
Qed.

(** A round below the packet count has a window below 2 ^ 62. *)
Lemma doubling_window_bound :
  forall n st,
    doubling initCwndPkts n st -> cumulativePkts st < xfer ->
    1 <= cwnd st < 2 ^ 62 /\ Z.of_nat n < 62.
Proof.
  intros n st (Hr & Hw & Hc) Hlt.
  assert (Hp : 1 <= 2 ^ Z.of_nat n) by (apply Z.lt_pred_le, Z.pow_pos_nonneg; lia).
  assert (Hww : initCwndPkts <= cwnd st) by (rewrite Hw; nia).
  change (2 ^ 62) with 4611686018427387904 in *.
  assert (Hwc : cumulativePkts st = cwnd st - initCwndPkts) by (rewrite Hw, Hc; ring).
  assert (Hb : cwnd st < 2 ^ 62) by lia.
  split; [lia|].
  destruct (Z.lt_ge_cases (Z.of_nat n) 62) as [|Hge]; [assumption|exfalso].
  apply (Z.pow_le_mono_r 2) in Hge; [|lia]. nia.
Qed.

Lemma doubling_advance :
  forall n st,
    doubling initCwndPkts n st -> cumulativePkts st < xfer ->
    doubling initCwndPkts (S n) (advance totalBytes mssBytes minRtt st).
Proof.
  intros n st Hd Hlt.
  destruct (doubling_window_bound n st Hd Hlt) as (Hw1 & Hn).
  destruct Hd as (Hr & Hw & Hc).
  assert (Hwc : cumulativePkts st = cwnd st - initCwndPkts) by (rewrite Hw, Hc; ring).
  unfold doubling, advance; cbn [rtts cwnd cumulativePkts].
  rewrite Nat2Z.inj_succ, Z.pow_succ_r by lia.
  change (2 ^ 62) with 4611686018427387904 in *.
  rewrite !s64_small
    by (change (2 ^ 63) with 9223372036854775808; lia).
  repeat split; [lia| rewrite Hw; ring | rewrite Hc, Hw; ring].
Qed.

Lemma doubling_state_after :
  forall k n st,
    doubling initCwndPkts n st ->
    (forall j, (j < k)%nat ->
               cumulativePkts (state_after totalBytes mssBytes minRtt j st) < xfer) ->
    doubling initCwndPkts (n + k) (state_after totalBytes mssBytes minRtt k st).
Proof.
  induction k as [|k IH]; intros n st Hd Hlt.
  - rewrite Nat.add_0_r. exact Hd.
  - cbn [state_after]. replace (n + S k)%nat with (S n + k)%nat by lia.
    apply IH.
    + apply doubling_advance; [exact Hd|]. apply (Hlt 0%nat). lia.
    + intros j Hj. apply (Hlt (S j)). lia.
Qed.


End Doubling.




(** ** Transfers faster than the model *)

Section Faster.

Variables totalBytes initCwndPkts mssBytes minRtt totalTime : Z.

Let xfer : Z := xferPkts totalBytes mssBytes.

(** What is known of the locals after [n] completed rounds. *)
Let reached (n : nat) (st : search_state) : Prop :=
  rtts st = Z.of_nat n /\
  cwnd st mod 2 ^ 64 = (2 ^ Z.of_nat n * Int.s64 initCwndPkts) mod 2 ^ 64 /\
  ((0 < n)%nat -> modelTime_above totalTime st = true).

(** The loop is left either by [break], in one of the rounds 0 to 63, or
    at its condition after at most 64 rounds, the last of which stored a
    model time above [totalTime]. *)
Lemma search_left :
  forall fuel n st st',
    (n <= 64)%nat -> reached n st ->
    search totalBytes mssBytes minRtt totalTime fuel st = Left st' ->
    exists m, (n <= m <= 64)%nat /\ rtts st' = Z.of_nat m /\
      ((cumulativePkts st' < xfer /\ (m <= 63)%nat) \/
       (xfer <= cumulativePkts st' /\
        ((0 < m)%nat -> modelTime_above totalTime st' = true))).
Proof.
  subst xfer. induction fuel as [|fuel IH]; intros n st st' Hn (Hr & Hc & Hm).
  - cbn [search]. destruct (Z.ltb_spec (cumulativePkts st) (xferPkts totalBytes mssBytes));
      [discriminate|].
    intros [= <-]. exists n. split; [lia|]. split; [exact Hr|].
    right. split; assumption.
  - rewrite search_step.
    destruct (Z.ltb_spec (cumulativePkts st) (xferPkts totalBytes mssBytes)) as [Hlt|Hge].
    + destruct (tputBps mssBytes minRtt st =? 0) eqn:Ht; [discriminate|].
      assert (Hn63 : (n <= 63)%nat).
      { destruct (Nat.eq_dec n 64) as [->|]; [exfalso|lia].
        apply Z.eqb_neq in Ht. apply Ht. unfold tputBps.
        apply rate_of_zero_window. rewrite Hc.
        change (2 ^ Z.of_nat 64) with (2 ^ 64).
        rewrite Z.mul_comm. apply Z_mod_mult. }
      destruct (Z.leb_spec (modelTimeAt totalBytes mssBytes minRtt st) totalTime)
        as [Hbrk|Hgo].
      * intros [= <-]. exists n. cbn [rtts cumulativePkts].
        split; [lia|]. split; [exact Hr|]. left. split; [assumption|lia].
      * intros Hs. destruct (IH (S n) (advance totalBytes mssBytes minRtt st) st' ltac:(lia))
          as (m & Hm1 & Hm2 & Hm3);
          [|exact Hs|exists m; split; [lia|]; split; assumption].
        unfold reached, advance, modelTime_above; cbn [rtts cwnd modelTime].
        repeat split.
        -- rewrite Hr, s64_small; [lia|].
           change (2 ^ 63) with 9223372036854775808. lia.
        -- rewrite s64_mod, <- Zmult_mod_idemp_r, Hc, Zmult_mod_idemp_r.
           f_equal. rewrite Nat2Z.inj_succ, Z.pow_succ_r by lia. ring.
        -- intros _. apply Z.ltb_lt. exact Hgo.
    + intros [= <-]. exists n. split; [lia|]. split; [exact Hr|].
      right. split; assumption.
Qed.

Hypothesis rtt_range : 0 < minRtt <= 2 ^ 56.
Hypothesis time_range : - 2 ^ 62 <= totalTime < minRtt.

(** After at most 63 rounds the time spent ramping exceeds [totalTime]. *)
Lemma remainingTime_negative :
  forall st, 0 <= rtts st <= 63 -> remainingTime minRtt totalTime st < 0.
Proof.
  intros st Hr. unfold remainingTime, rampTime.
  change (2 ^ 56) with 72057594037927936 in *.
  change (2 ^ 62) with 4611686018427387904 in *.
  rewrite (s64_small (rtts st + 1))
    by (change (2 ^ 63) with 9223372036854775808; lia).
  assert (minRtt <= minRtt * (rtts st + 1) <= 64 * minRtt) by nia.
  rewrite (s64_small (minRtt * _))
    by (change (2 ^ 63) with 9223372036854775808; lia).
  rewrite s64_small by (change (2 ^ 63) with 9223372036854775808; lia).
  lia.
Qed.

Hypothesis some_packets : 0 < xfer.

Lemma finish_faster :
  forall st,
    search totalBytes mssBytes minRtt totalTime 65 (initial initCwndPkts)
      = Left st ->
    finish totalBytes mssBytes minRtt totalTime st
      = Ret (error_rate ERROR_TRANSFER_FASTER_THAN_MODEL).
Proof.
  intros st. change 65%nat with (S 64). rewrite search_step.
  change (cumulativePkts (initial initCwndPkts)) with 0. fold xfer.
  destruct (Z.ltb_spec 0 xfer); [|lia].
  destruct (_ =? 0); [discriminate|].
  destruct (Z.leb_spec (modelTimeAt totalBytes mssBytes minRtt
                          (initial initCwndPkts)) totalTime) as [Hbrk|Hgo].
  - intros [= <-]. set (s0 := mkState _ _ _ _).
    unfold finish. change (cumulativePkts s0) with 0. fold xfer.
    destruct (Z.leb_spec xfer 0); [lia|].
    assert (Hneg : remainingTime minRtt totalTime s0 < 0)
      by (apply remainingTime_negative; unfold s0; cbn [rtts initial]; lia).
    destruct (Z.leb_spec (remainingTime minRtt totalTime s0) 0);
      [reflexivity|lia].
  - intros Hs.
    destruct (search_left 64 1 (advance totalBytes mssBytes minRtt
                                  (initial initCwndPkts)) st ltac:(lia))
      as (m & Hm & Hr & Hc); [|exact Hs|].
    { unfold reached, advance, initial, modelTime_above;
        cbn [rtts cwnd modelTime]. repeat split.
      - rewrite s64_mod. f_equal.
      - intros _. apply Z.ltb_lt. exact Hgo. }
    unfold finish. fold xfer. destruct Hc as [(Hlt & Hm63) | (Hge & Hab)].
    + destruct (Z.leb_spec xfer (cumulativePkts st)); [lia|].
      destruct (Z.leb_spec (remainingTime minRtt totalTime st) 0); [reflexivity|].
      pose proof (remainingTime_negative st). lia.
    + destruct (Z.leb_spec xfer (cumulativePkts st)); [|lia].
      rewrite Hab by lia. unfold assert.
      assert (Hb : 0 <= rtts (backtrack st) <= 63).
      { unfold backtrack; cbn [rtts]. rewrite Hr, s64_small; [lia|].
        change (2 ^ 63) with 9223372036854775808. lia. }
      destruct (Z.leb_spec (remainingTime minRtt totalTime (backtrack st)) 0);
        [reflexivity|].
      pose proof (remainingTime_negative _ Hb). lia.
Qed.

End Faster.

(** A nonzero transfer has at least one packet. *)
Lemma xferPkts_positive :
  forall totalBytes mssBytes,
    0 < totalBytes < 2 ^ 53 -> 0 < mssBytes < 2 ^ 53 ->
    0 < xferPkts totalBytes mssBytes.
Proof.
  intros tb mss Htb Hmss.
  pose proof (xferPkts_ceiling tb mss Htb Hmss). nia.
Qed.

(** C4.  For a nonzero transfer (byte count and segment size below
    2 ^ 53), a round-trip time of at most 2 ^ 56 microseconds and an
    observed time below it (and not below -2 ^ 62), [GoodputBps] never
    returns [OK]: when the loop is left without the zero-rate [return]
    the result is [ERROR_TRANSFER_FASTER_THAN_MODEL] with zero in all
    numeric fields. *)
Theorem GoodputBps_faster_than_model :
  forall totalBytes initCwndPkts mssBytes minRtt totalTime : Z,
    0 < totalBytes < 2 ^ 53 ->
    0 < mssBytes < 2 ^ 53 ->
    0 < minRtt <= 2 ^ 56 ->
    - 2 ^ 62 <= totalTime < minRtt ->
    (forall st,
        search totalBytes mssBytes minRtt totalTime 65 (initial initCwndPkts)
          = Left st ->
        GoodputBps totalBytes initCwndPkts mssBytes minRtt totalTime
          = Ret (mkModelRate 0 0 0 0 ERROR_TRANSFER_FASTER_THAN_MODEL)) /\
    (forall r,
        GoodputBps totalBytes initCwndPkts mssBytes minRtt totalTime = Ret r ->
        status r <> OK).
Proof.
  intros tb ic mss rtt tt Htb Hmss Hrtt Htt.
  pose proof (xferPkts_positive tb mss Htb Hmss) as Hx.
  pose proof (finish_faster tb ic mss rtt tt Hrtt Htt Hx) as Hfin.
  unfold GoodputBps, GoodputBps_fuel.
  destruct (Z.eqb_spec rtt 0) as [|_]; [lia|].
  destruct (search tb mss rtt tt 65 (initial ic)) as [st| |].
  - rewrite (Hfin st eq_refl). split; [reflexivity|].
    intros r [= <-]. discriminate.
  - split; [discriminate|]. intros r [= <-]. discriminate.
  - split; discriminate.
Qed.

Lemma GoodputBps_faster_than_model_witness :
  GoodputBps 10000000 10 1460 20000 10000
    = Ret (mkModelRate 0 0 0 0 ERROR_TRANSFER_FASTER_THAN_MODEL).
Proof.
  eapply (proj1 (GoodputBps_faster_than_model 10000000 10 1460 20000 10000
                   _ _ _ _)).
  vm_compute; reflexivity.
  Unshelve.
  - vm_compute; split; reflexivity.
  - vm_compute; split; reflexivity.
  - vm_compute; split; [reflexivity|discriminate].
  - vm_compute; split; [discriminate|reflexivity].
Defined.

(** C4, as stated for every valid input, fails where the subtraction
    [totalTime - minRtt * (rtts + 1)] leaves the range of the 64-bit
    duration: it wraps to a positive remaining time and the function
    returns an [OK] record. *)
Lemma faster_than_model_fails : ~ faster_than_model_as_stated.
Proof.
  intros H.
  specialize (H 1 1 1 2 (- 2 ^ 63 + 1) (mkState 1 1 2 (Some 4))).
  assert (Hv : valid_input 1 1 1 2) by (vm_compute; intuition discriminate).
  assert (Ht : - 2 ^ 63 <= - 2 ^ 63 + 1 < 2)
    by (vm_compute; split; [discriminate|reflexivity]).
  specialize (H Hv Ht ltac:(vm_compute; reflexivity)).
  vm_compute in H. discriminate.
Qed.

(** ** Packets before the last round *)

(** Within 30 rounds, and when the product fits [int64_t], the 32-bit
    shift and the 64-bit product of [ssPkts] give the plain value. *)
Lemma ssPkts_exact :
  forall r initCwndPkts,
    0 <= r <= 30 -> 0 <= initCwndPkts ->
    (2 ^ r - 1) * initCwndPkts < 2 ^ 63 ->
    ssPkts r initCwndPkts = (2 ^ r - 1) * initCwndPkts.
Proof.
  intros r ic Hr Hic Hfit.
  assert (Hp : 1 <= 2 ^ r <= 2 ^ 30).
  { split; [apply Z.lt_pred_le, Z.pow_pos_nonneg; lia|].
    apply Z.pow_le_mono_r; lia. }
  change (2 ^ 30) with 1073741824 in Hp.
  unfold ssPkts, int_times_u64, Int.shl1_int.
  rewrite Z.mod_small by lia. rewrite Z.shiftl_1_l.
  assert (Hs32 : forall x, - 2147483648 <= x < 2147483648 -> Int.s32 x = x).
  { intros x Hx. unfold Int.s32, Int.wrap_s.
    change (2 ^ (32 - 1)) with 2147483648. change (2 ^ 32) with 4294967296.
    rewrite Z.mod_small; lia. }
  rewrite (Hs32 (2 ^ r)) by lia. rewrite Hs32 by lia.
  change (2 ^ 63) with 9223372036854775808 in Hfit.
  assert (0 <= (2 ^ r - 1) * ic) by nia.
  rewrite (u64_small (2 ^ r - 1))
    by (change (2 ^ 64) with 18446744073709551616; lia).
  rewrite u64_small by (change (2 ^ 64) with 18446744073709551616; lia).
  apply s64_small. change (2 ^ 63) with 9223372036854775808. lia.
Qed.

(** [((1 << r) - 1)] in [int], for every round count the closed form can
    give: between 0 and the plain value, also where the shift wraps. *)
Lemma shift_minus_one_bound :
  forall r, 0 <= r <= 53 ->
    0 <= Int.s32 (Int.shl1_int r - 1) <= 2 ^ r - 1.
Proof.
  assert (H : forallb
                (fun n => let r := Z.of_nat n in
                          let i := Int.s32 (Int.shl1_int r - 1) in
                          (0 <=? i) && (i <=? 2 ^ r - 1))
                (seq 0 54) = true) by (vm_compute; reflexivity).
  rewrite forallb_forall in H.
  intros r Hr. specialize (H (Z.to_nat r)).
  rewrite Z2Nat.id in H by lia. cbv zeta in H.
  assert (Hin : In (Z.to_nat r) (seq 0 54)) by (apply in_seq; lia).
  apply H in Hin. apply andb_true_iff in Hin. destruct Hin as (H1 & H2).
  apply Z.leb_le in H1. apply Z.leb_le in H2. lia.
Qed.

Lemma ssPkts_bound :
  forall r initCwndPkts,
    0 <= r <= 53 -> 0 <= initCwndPkts ->
    (2 ^ r - 1) * initCwndPkts < 2 ^ 63 ->
    0 <= ssPkts r initCwndPkts <= (2 ^ r - 1) * initCwndPkts.
Proof.
  intros r ic Hr Hic Hfit. unfold ssPkts, int_times_u64.
  pose proof (shift_minus_one_bound r Hr) as Hi.
  set (i := Int.s32 (Int.shl1_int r - 1)) in *.
  assert (Hprod : 0 <= i * ic <= (2 ^ r - 1) * ic).
  { split; [apply Z.mul_nonneg_nonneg; lia|].
    apply Z.mul_le_mono_nonneg_r; lia. }
  assert (Hi64 : 0 <= i < 2 ^ 64).
  { assert (2 ^ r <= 2 ^ 53) by (apply Z.pow_le_mono_r; lia).
    change (2 ^ 53) with 9007199254740992 in *.
    change (2 ^ 64) with 18446744073709551616. lia. }
  rewrite (u64_small i) by exact Hi64.
  change (2 ^ 63) with 9223372036854775808 in *.
  rewrite u64_small by (change (2 ^ 64) with 18446744073709551616; lia).
  rewrite s64_small by (change (2 ^ 63) with 9223372036854775808; lia).
  exact Hprod.
Qed.

(** [xferPkts] of positive sizes below 2 ^ 53 is positive and at most
    [totalBytes]. *)
Lemma xferPkts_range :
  forall totalBytes mssBytes,
    0 < totalBytes < 2 ^ 53 -> 0 < mssBytes < 2 ^ 53 ->
    0 < xferPkts totalBytes mssBytes <= totalBytes.
Proof.
  intros tb mss Htb Hmss.
  pose proof (xferPkts_ceiling tb mss Htb Hmss) as H.
  set (x := xferPkts tb mss) in *. clearbody x. split; nia.
Qed.

(** For sizes below 2 ^ 53 and an initial window of at most 2 ^ 50
    packets, neither assertion of [Gpeak] fires: it returns an [OK]
    record, and the windows before the last carry fewer packets than the
    transfer. *)
Lemma Gpeak_returns :
  forall totalBytes initCwndPkts mssBytes minRtt,
    0 < totalBytes < 2 ^ 53 -> 0 < mssBytes < 2 ^ 53 ->
    0 < initCwndPkts <= 2 ^ 50 -> minRtt <> 0 ->
    let xfer := xferPkts totalBytes mssBytes in
    let rounds := rttsToLast xfer initCwndPkts in
    0 <= rounds <= 53 /\
    (2 ^ rounds - 1) * initCwndPkts < xfer /\
    exists g, Gpeak totalBytes initCwndPkts mssBytes minRtt = Ret g /\
              status g = OK /\ rttsInSlowStart g = rounds.
Proof.
  intros tb ic mss rtt Htb Hmss Hic Hrtt xfer rounds.
  pose proof (xferPkts_range tb mss Htb Hmss) as Hx. fold xfer in Hx.
  assert (Hic53 : 0 < ic < 2 ^ 53)
    by (change (2 ^ 50) with 1125899906842624 in *;
        change (2 ^ 53) with 9007199254740992; lia).
  assert (Hratio : ic <= 2 ^ 50 * xfer)
    by (change (2 ^ 50) with 1125899906842624 in *; lia).
  destruct (rttsToLast_spec xfer ic ltac:(lia) Hic53 Hratio)
    as (Hr & Hss & _).
  fold rounds in Hr, Hss.
  split; [exact Hr|]. split; [exact Hss|].
  assert (Hfit : (2 ^ rounds - 1) * ic < 2 ^ 63)
    by (change (2 ^ 63) with 9223372036854775808;
        change (2 ^ 53) with 9007199254740992 in *; lia).
  pose proof (ssPkts_bound rounds ic Hr ltac:(lia) Hfit) as Hb.
  unfold Gpeak, assert. fold xfer. fold rounds.
  destruct (Z.eqb_spec rtt 0) as [|_]; [contradiction|].
  destruct (Z.leb_spec 0 rounds) as [_|]; [|lia].
  destruct (Z.leb_spec (ssPkts rounds ic) xfer) as [_|]; [|lia].
  eexists. split; [reflexivity|]. split; [reflexivity|].
  cbn [rttsInSlowStart]. apply u64_small.
  change (2 ^ 64) with 18446744073709551616. lia.
Qed.

(** A transfer that fits the first window takes no round, and no window
    before the last is full: within the same ranges. *)
Lemma first_window_no_round :
  forall totalBytes initCwndPkts mssBytes,
    0 < totalBytes < 2 ^ 53 -> 0 < mssBytes < 2 ^ 53 ->
    0 < initCwndPkts <= 2 ^ 50 ->
    totalBytes <= initCwndPkts * mssBytes ->
    let rounds := rttsToLast (xferPkts totalBytes mssBytes) initCwndPkts in
    rounds = 0 /\ lastFullCwnd rounds initCwndPkts = 0.
Proof.
  intros tb ic mss Htb Hmss Hic Hfit rounds.
  pose proof (xferPkts_range tb mss Htb Hmss) as Hx.
  pose proof (xferPkts_ceiling tb mss Htb Hmss) as Hc.
  set (xfer := xferPkts tb mss) in *.
  assert (Hle : xfer <= ic) by (clearbody xfer; nia).
  assert (Hic53 : 0 < ic < 2 ^ 53)
    by (change (2 ^ 50) with 1125899906842624 in *;
        change (2 ^ 53) with 9007199254740992; lia).
  assert (Hratio : ic <= 2 ^ 50 * xfer)
    by (change (2 ^ 50) with 1125899906842624 in *; lia).
  destruct (rttsToLast_spec xfer ic ltac:(lia) Hic53 Hratio) as (_ & _ & H0).
  assert (Hr : rounds = 0) by (apply H0; exact Hle).
  split; [exact Hr|]. rewrite Hr. reflexivity.
Qed.

Section BeforeLast.

Variables totalBytes initCwndPkts mssBytes minRtt totalTime : Z.

Let xfer : Z := xferPkts totalBytes mssBytes.

Hypothesis window_fits : 0 < initCwndPkts < 2 ^ 63.
Hypothesis no_overflow : initCwndPkts + xfer <= 2 ^ 62.





End BeforeLast.




(** ** Observed time equal to the model's *)

(** C6, as stated, fails for short transfers: 100 bytes with a 100
    microsecond round-trip time have a transmission time that truncates
    to zero, the model time of round 0 is [minRtt] itself, and
    [GoodputBps] reports [ERROR_TRANSFER_FASTER_THAN_MODEL]. *)
Lemma round_trip_fails : ~ round_trip_as_stated.
Proof.
  intros H.
  destruct (H 100 10 1460 100 0%nat (mkModelRate 14600000 0 11 10 OK))
    as (r & Hr & Hok & _).
  - vm_compute; intuition discriminate.
  - vm_compute; reflexivity.
  - reflexivity.
  - vm_compute; reflexivity.
  - vm_compute; discriminate.
  - vm_compute in Hr. injection Hr as <-. discriminate.
Qed.

Lemma state_after_succ :
  forall totalBytes mssBytes minRtt n st,
    state_after totalBytes mssBytes minRtt (S n) st
    = advance totalBytes mssBytes minRtt
        (state_after totalBytes mssBytes minRtt n st).
Proof.
  intros tb mss rtt n. induction n as [|n IH]; intros st; [reflexivity|].
  change (state_after tb mss rtt (S (S n)) st)
    with (state_after tb mss rtt (S n) (advance tb mss rtt st)).
  rewrite IH. reflexivity.
Qed.

(** If the rounds before [k] run and do not reach the observed time, and
    round [k] runs and does, the loop breaks in round [k]. *)
Lemma search_breaks_at :
  forall totalBytes mssBytes minRtt totalTime k fuel st,
    (k < fuel)%nat ->
    (forall j, (j <= k)%nat ->
        let sj := state_after totalBytes mssBytes minRtt j st in
        cumulativePkts sj < xferPkts totalBytes mssBytes /\
        tputBps mssBytes minRtt sj <> 0) ->
    (forall j, (j < k)%nat ->
        totalTime < modelTimeAt totalBytes mssBytes minRtt
                      (state_after totalBytes mssBytes minRtt j st)) ->
    modelTimeAt totalBytes mssBytes minRtt
      (state_after totalBytes mssBytes minRtt k st) <= totalTime ->
    search totalBytes mssBytes minRtt totalTime fuel st
    = Left (broken totalBytes mssBytes minRtt
              (state_after totalBytes mssBytes minRtt k st)).
Proof.
  intros tb mss rtt tt. induction k as [|k IH]; intros fuel st Hf Hrun Hgo Hbrk;
    (destruct fuel as [|fuel]; [lia|]); rewrite search_step.
  - destruct (Hrun 0%nat (Nat.le_refl 0)) as (Hc & Ht). cbn [state_after] in *.
    apply Z.ltb_lt in Hc. apply Z.eqb_neq in Ht. apply Z.leb_le in Hbrk.
    rewrite Hc, Ht, Hbrk. reflexivity.
  - destruct (Hrun 0%nat (Nat.le_0_l _)) as (Hc & Ht).
    pose proof (Hgo 0%nat (Nat.lt_0_succ k)) as Hg. cbn [state_after] in Hc, Ht, Hg.
    apply Z.ltb_lt in Hc. apply Z.eqb_neq in Ht. apply Z.leb_gt in Hg.
    rewrite Hc, Ht, Hg. cbn [state_after]. apply IH.
    + lia.
    + intros j Hj. apply (Hrun (S j)). lia.
    + intros j Hj. apply (Hgo (S j)). lia.
    + exact Hbrk.
Qed.

Section RoundTrip.

Variables totalBytes initCwndPkts mssBytes minRtt : Z.

Let xfer : Z := xferPkts totalBytes mssBytes.

Hypothesis transfer_positive : 0 < totalBytes.
Hypothesis window_positive : 0 < initCwndPkts.
Hypothesis segment_positive : 0 < mssBytes.
Hypothesis rtt_range : 0 < minRtt <= 2 ^ 55.
(** [xferPkts] is the number of segments [totalBytes] needs. *)
Hypothesis xfer_is_ceiling : (xfer - 1) * mssBytes < totalBytes <= xfer * mssBytes.
(** The byte counts of the model, in microsecond units, stay in range. *)
Hypothesis bytes_fit : (xfer + initCwndPkts) * mssBytes * MICROS_IN_SEC < 2 ^ 61.
(** The initial window has a nonzero rate. *)
Hypothesis rate_positive : minRtt <= initCwndPkts * mssBytes * MICROS_IN_SEC.

Lemma packets_fit :
  forall q, 0 <= q < xfer + initCwndPkts ->
            0 <= q * mssBytes * MICROS_IN_SEC < 2 ^ 61 /\
            0 <= q * mssBytes < 2 ^ 61 /\ q < 2 ^ 61.
Proof.
  intros q Hq. unfold MICROS_IN_SEC in *.
  change (2 ^ 61) with 2305843009213693952 in *.
  assert (q * mssBytes <= (xfer + initCwndPkts) * mssBytes) by nia.
  assert (0 <= q * mssBytes) by nia.
  nia.
Qed.

Lemma schedule_fits : 0 < initCwndPkts < 2 ^ 63 /\ initCwndPkts + xfer <= 2 ^ 62.
Proof.
  unfold MICROS_IN_SEC in *.
  change (2 ^ 61) with 2305843009213693952 in *.
  change (2 ^ 62) with 4611686018427387904.
  change (2 ^ 63) with 9223372036854775808.
  assert (0 < xfer) by nia.
  assert (xfer + initCwndPkts <= (xfer + initCwndPkts) * mssBytes) by nia.
  nia.
Qed.

(** The rate of a window of the schedule, without wrap-around. *)
Lemma rate_of_exact :
  forall w, initCwndPkts <= w < xfer + initCwndPkts ->
    rate_of w mssBytes minRtt = w * mssBytes * MICROS_IN_SEC / minRtt /\
    1 <= rate_of w mssBytes minRtt < 2 ^ 61.
Proof.
  intros w Hw.
  destruct (packets_fit w ltac:(lia)) as (H1 & H2 & H3).
  assert (Heq : rate_of w mssBytes minRtt = w * mssBytes * MICROS_IN_SEC / minRtt).
  { unfold rate_of.
    change (2 ^ 61) with 2305843009213693952 in *.
    change (2 ^ 55) with 36028797018963968 in *.
    rewrite (u64_small w) by (change (2 ^ 64) with 18446744073709551616; lia).
    rewrite (u64_small (w * mssBytes))
      by (change (2 ^ 64) with 18446744073709551616; lia).
    rewrite (u64_small (w * mssBytes * MICROS_IN_SEC))
      by (change (2 ^ 64) with 18446744073709551616; lia).
    rewrite (u64_small minRtt)
      by (change (2 ^ 64) with 18446744073709551616; lia).
    apply s64_small.
    assert (0 <= w * mssBytes * MICROS_IN_SEC / minRtt
            <= w * mssBytes * MICROS_IN_SEC).
    { split; [apply Z.div_pos; lia|apply Z.div_le_upper_bound; nia]. }
    change (2 ^ 63) with 9223372036854775808. lia. }
  split; [exact Heq|]. rewrite Heq.
  change (2 ^ 61) with 2305843009213693952 in *.
  split.
  - apply Z.div_le_lower_bound; [lia|].
    unfold MICROS_IN_SEC in *. nia.
  - apply Z.div_lt_upper_bound; [lia|]. nia.
Qed.

(** A round of the schedule below the packet count: its window, the
    packets before it and its number are in range. *)
Lemma round_in_range :
  forall j st,
    doubling initCwndPkts j st -> cumulativePkts st < xfer ->
    initCwndPkts <= cwnd st < xfer + initCwndPkts /\
    cumulativePkts st = cwnd st - initCwndPkts /\
    rtts st = Z.of_nat j /\ 0 <= rtts st < cwnd st /\ Z.of_nat j < 62.
Proof.
  intros j st Hd Hlt.
  destruct schedule_fits as (Hic & Hov).
  destruct (doubling_window_bound totalBytes initCwndPkts mssBytes Hic Hov j st Hd Hlt)
    as (_ & Hj).
  destruct Hd as (Hr & Hw & Hc).
  assert (Hp : Z.of_nat j < 2 ^ Z.of_nat j) by (apply Z.pow_gt_lin_r; lia).
  assert (Hwc : cumulativePkts st = cwnd st - initCwndPkts) by (rewrite Hw, Hc; ring).
  repeat split; try lia; rewrite Hw; nia.
Qed.

(** The quantities the loop computes in such a round, free of
    wrap-around. *)
Lemma round_values :
  forall j st,
    doubling initCwndPkts j st -> cumulativePkts st < xfer ->
    let T := cwnd st * mssBytes * MICROS_IN_SEC / minRtt in
    let xm := (totalBytes - cumulativePkts st * mssBytes) * MICROS_IN_SEC / T in
    let ssx := rtts st * mssBytes * MICROS_IN_SEC / T in
    tputBps mssBytes minRtt st = T /\ 1 <= T < 2 ^ 61 /\
    xmissionTime totalBytes mssBytes minRtt st = xm /\ 0 <= xm < 2 ^ 61 /\
    ssXmissionTime mssBytes minRtt st = ssx /\ 0 <= ssx < 2 ^ 61 /\
    modelTimeAt totalBytes mssBytes minRtt st = minRtt * (rtts st + 1) + xm + ssx /\
    0 < totalBytes - cumulativePkts st * mssBytes.
Proof.
  intros j st Hd Hlt T xm ssx.
  destruct (round_in_range j st Hd Hlt) as (Hw & Hc & Hr & Hrw & Hj).
  destruct (rate_of_exact (cwnd st) Hw) as (HT & HTr). fold T in HT.
  rewrite HT in HTr.
  destruct (packets_fit (cumulativePkts st) ltac:(lia)) as (Hc1 & Hc2 & Hc3).
  destruct (packets_fit (rtts st) ltac:(lia)) as (Hr1 & Hr2 & Hr3).
  destruct (packets_fit xfer ltac:(lia)) as (Hx1 & Hx2 & Hx3).
  assert (Hb : 0 < totalBytes - cumulativePkts st * mssBytes <= xfer * mssBytes) by nia.
  assert (Hb6 : 0 <= (totalBytes - cumulativePkts st * mssBytes) * MICROS_IN_SEC
                < 2 ^ 61) by (unfold MICROS_IN_SEC in *; nia).
  assert (Hxm : 0 <= xm < 2 ^ 61).
  { subst xm. split; [apply Z.div_pos; lia|].
    apply Z.div_lt_upper_bound; [lia|]. nia. }
  assert (Hssx : 0 <= ssx < 2 ^ 61).
  { subst ssx. split; [apply Z.div_pos; lia|].
    apply Z.div_lt_upper_bound; [lia|]. nia. }
  change (2 ^ 61) with 2305843009213693952 in *.
  change (2 ^ 55) with 36028797018963968 in *.
  assert (HtT : tputBps mssBytes minRtt st = T) by exact HT.
  assert (Hxme : xmissionTime totalBytes mssBytes minRtt st = xm).
  { unfold xmissionTime. rewrite HtT.
    rewrite (u64_small (cumulativePkts st))
      by (change (2 ^ 64) with 18446744073709551616; lia).
    rewrite (u64_small (cumulativePkts st * mssBytes))
      by (change (2 ^ 64) with 18446744073709551616; lia).
    rewrite (u64_small (totalBytes - _))
      by (change (2 ^ 64) with 18446744073709551616; lia).
    rewrite (u64_small (_ * MICROS_IN_SEC))
      by (change (2 ^ 64) with 18446744073709551616; lia).
    rewrite (u64_small T) by (change (2 ^ 64) with 18446744073709551616; lia).
    apply s64_small. fold xm. change (2 ^ 63) with 9223372036854775808. lia. }
  assert (Hssxe : ssXmissionTime mssBytes minRtt st = ssx).
  { unfold ssXmissionTime. rewrite HtT.
    rewrite (u64_small (rtts st))
      by (change (2 ^ 64) with 18446744073709551616; lia).
    rewrite (u64_small (rtts st * mssBytes))
      by (change (2 ^ 64) with 18446744073709551616; lia).
    rewrite (u64_small (_ * MICROS_IN_SEC))
      by (change (2 ^ 64) with 18446744073709551616; lia).
    rewrite (u64_small T) by (change (2 ^ 64) with 18446744073709551616; lia).
    apply s64_small. fold ssx. change (2 ^ 63) with 9223372036854775808. lia. }
  split; [exact HtT|]. split; [exact HTr|].
  split; [exact Hxme|]. split; [exact Hxm|].
  split; [exact Hssxe|]. split; [exact Hssx|].
  split; [|lia].
  unfold modelTimeAt, rampTime. rewrite Hxme, Hssxe.
  assert (Hramp : 0 < minRtt * (rtts st + 1) <= 62 * minRtt).
  { split; [apply Z.mul_pos_pos; lia|].
    rewrite (Z.mul_comm 62). apply Z.mul_le_mono_nonneg_l; lia. }
  rewrite (s64_small (rtts st + 1))
    by (change (2 ^ 63) with 9223372036854775808; lia).
  rewrite (s64_small (minRtt * _))
    by (change (2 ^ 63) with 9223372036854775808; lia).
  rewrite (s64_small (_ + xm))
    by (change (2 ^ 63) with 9223372036854775808; lia).
  apply s64_small. change (2 ^ 63) with 9223372036854775808. lia.
Qed.

Variable k : nat.

Let st_k : search_state :=
  state_after totalBytes mssBytes minRtt k (initial initCwndPkts).

(** Round [k] belongs to the schedule. *)
Hypothesis round_in_schedule : initCwndPkts * (2 ^ Z.of_nat k - 1) < xfer.

Lemma schedule_state :
  forall j, (j <= k)%nat ->
    let sj := state_after totalBytes mssBytes minRtt j (initial initCwndPkts) in
    doubling initCwndPkts j sj /\ cumulativePkts sj < xfer.
Proof.
  destruct schedule_fits as (Hic & Hov).
  assert (Hmono : forall j, (j <= k)%nat ->
            initCwndPkts * (2 ^ Z.of_nat j - 1) < xfer).
  { intros j Hj.
    assert (2 ^ Z.of_nat j <= 2 ^ Z.of_nat k) by (apply Z.pow_le_mono_r; lia).
    nia. }
  induction j as [|j IH]; intros Hj sj.
  - split; [apply doubling_initial; assumption|].
    unfold sj; cbn [state_after initial cumulativePkts].
    specialize (Hmono 0%nat Hj). change (2 ^ Z.of_nat 0) with 1 in Hmono. lia.
  - destruct (IH ltac:(lia)) as (Hd & Hlt).
    assert (Hd' : doubling initCwndPkts (S j) sj).
    { unfold sj. rewrite state_after_succ.
      apply doubling_advance; assumption. }
    split; [exact Hd'|].
    destruct Hd' as (_ & _ & Hc). rewrite Hc. apply Hmono. exact Hj.
Qed.

(** Round [k] is the first whose model time is within the observed
    time, here the model time of round [k] itself. *)
Hypothesis first_reached :
  forall j, (j < k)%nat ->
    modelTimeAt totalBytes mssBytes minRtt st_k
    < modelTimeAt totalBytes mssBytes minRtt
        (state_after totalBytes mssBytes minRtt j (initial initCwndPkts)).

Let tt : Z := modelTimeAt totalBytes mssBytes minRtt st_k.

Lemma search_round_trip :
  search totalBytes mssBytes minRtt tt 65 (initial initCwndPkts)
  = Left (broken totalBytes mssBytes minRtt st_k).
Proof.
  apply search_breaks_at.
  - destruct (schedule_state k (Nat.le_refl k)) as (Hd & Hlt).
    destruct (round_in_range k _ Hd Hlt) as (_ & _ & _ & _ & Hk). lia.
  - intros j Hj sj. destruct (schedule_state j Hj) as (Hd & Hlt). fold sj in Hd, Hlt.
    split; [exact Hlt|].
    destruct (round_values j sj Hd Hlt) as (HT & HTr & _). rewrite HT. lia.
  - exact first_reached.
  - apply Z.le_refl.
Qed.

(** What the code after the loop computes from the state of the break. *)
Lemma after_round_trip :
  let b := broken totalBytes mssBytes minRtt st_k in
  let T := xmissionTime totalBytes mssBytes minRtt st_k
           + ssXmissionTime mssBytes minRtt st_k in
  let R := (xfer - cumulativePkts st_k + Z.of_nat k) * mssBytes * MICROS_IN_SEC in
  remainingTime minRtt tt b = T /\
  T = tt - minRtt * (Z.of_nat k + 1) /\
  0 < remainingPkts totalBytes mssBytes b /\
  (0 < T -> achievedBps totalBytes mssBytes minRtt tt b = R / T) /\
  (0 < T ->
   tputBps mssBytes minRtt st_k <= R / T /\
   (R / T - tputBps mssBytes minRtt st_k) * T
     < 2 * tputBps mssBytes minRtt st_k + mssBytes * MICROS_IN_SEC).
Proof.
  intros b T R.
  destruct (schedule_state k (Nat.le_refl k)) as (Hd & Hlt). fold st_k in Hd, Hlt.
  destruct (round_in_range k st_k Hd Hlt) as (Hw & Hc & Hr & Hrw & Hk).
  destruct (round_values k st_k Hd Hlt)
    as (HT & HTr & Hxm & Hxmr & Hssx & Hssxr & Hmt & Hb).
  set (tput := cwnd st_k * mssBytes * MICROS_IN_SEC / minRtt) in *.
  set (B6 := (totalBytes - cumulativePkts st_k * mssBytes) * MICROS_IN_SEC) in *.
  set (K6 := rtts st_k * mssBytes * MICROS_IN_SEC) in *.
  assert (HTe : T = B6 / tput + K6 / tput) by (unfold T; rewrite Hxm, Hssx; reflexivity).
  change (2 ^ 61) with 2305843009213693952 in *.
  change (2 ^ 55) with 36028797018963968 in *.
  assert (Hramp : 0 < minRtt * (rtts st_k + 1) <= 62 * minRtt).
  { split; [apply Z.mul_pos_pos; lia|].
    rewrite (Z.mul_comm 62). apply Z.mul_le_mono_nonneg_l; lia. }
  assert (Htt : tt = minRtt * (rtts st_k + 1) + T).
  { unfold tt. rewrite Hmt. unfold T. rewrite Hxm, Hssx. ring. }
  assert (HremT : remainingTime minRtt tt b = T).
  { unfold remainingTime, rampTime, b, broken; cbn [rtts].
    rewrite (s64_small (rtts st_k + 1))
      by (change (2 ^ 63) with 9223372036854775808; lia).
    rewrite (s64_small (minRtt * _))
      by (change (2 ^ 63) with 9223372036854775808; lia).
    rewrite Htt.
    replace (minRtt * (rtts st_k + 1) + T - minRtt * (rtts st_k + 1)) with T
      by ring.
    apply s64_small. rewrite HTe.
    change (2 ^ 63) with 9223372036854775808. lia. }
  set (rp := xfer - cumulativePkts st_k + Z.of_nat k).
  assert (Hrp : 0 < rp < xfer + initCwndPkts) by (unfold rp; lia).
  assert (Hrpe : remainingPkts totalBytes mssBytes b = rp).
  { unfold remainingPkts, b, broken; cbn [rtts cumulativePkts]. fold xfer.
    rewrite Hr. rewrite (s64_small (xfer - _))
      by (change (2 ^ 63) with 9223372036854775808;
          change (2 ^ 62) with 4611686018427387904 in *;
          pose proof schedule_fits; lia).
    apply s64_small. fold rp. change (2 ^ 63) with 9223372036854775808.
    pose proof schedule_fits as (_ & Hs).
    change (2 ^ 62) with 4611686018427387904 in Hs. lia. }
  destruct (packets_fit rp ltac:(lia)) as (Hp1 & Hp2 & Hp3).
  change (2 ^ 61) with 2305843009213693952 in *.
  assert (HR : R = rp * mssBytes * MICROS_IN_SEC) by reflexivity.
  split; [exact HremT|]. split; [rewrite Htt, Hr; ring|].
  split; [rewrite Hrpe; lia|].
  split.
  - intros HTpos. unfold achievedBps, remainingBytes. rewrite Hrpe, HremT.
    rewrite (u64_small rp) by (change (2 ^ 64) with 18446744073709551616; lia).
    rewrite (u64_small (rp * mssBytes))
      by (change (2 ^ 64) with 18446744073709551616; lia).
    rewrite (s64_small (rp * mssBytes))
      by (change (2 ^ 63) with 9223372036854775808; lia).
    rewrite (s64_small (rp * mssBytes * MICROS_IN_SEC))
      by (change (2 ^ 63) with 9223372036854775808; lia).
    rewrite Z.quot_div_nonneg by lia. rewrite <- HR.
    apply s64_small.
    assert (0 <= R / T <= R).
    { split; [apply Z.div_pos; lia|].
      apply Z.div_le_upper_bound; [lia|].
      rewrite <- (Z.mul_1_l R) at 1. apply Z.mul_le_mono_nonneg_r; lia. }
    change (2 ^ 63) with 9223372036854775808. lia.
  - intros HTpos. rewrite HT.
    assert (HBK : B6 + K6 <= R < B6 + K6 + mssBytes * MICROS_IN_SEC).
    { unfold B6, K6. rewrite HR, Hr. unfold rp, MICROS_IN_SEC.
      clear - xfer_is_ceiling. lia. }
    pose proof (Z.mul_div_le B6 tput ltac:(lia)) as HB1.
    pose proof (Z.mul_div_le K6 tput ltac:(lia)) as HK1.
    pose proof (Z.mul_succ_div_gt B6 tput ltac:(lia)) as HB2.
    pose proof (Z.mul_succ_div_gt K6 tput ltac:(lia)) as HK2.
    pose proof (Z.mul_div_le R T HTpos) as HA1.
    split.
    + apply Z.div_le_lower_bound; [lia|]. rewrite HTe.
      clear - HB1 HK1 HBK. lia.
    + clear - HTe HBK HB2 HK2 HA1.
      revert HB2 HK2 HA1. rewrite HTe.
      generalize (B6 / tput) (K6 / tput) (R / (B6 / tput + K6 / tput)).
      intros xm ssx A. unfold Z.succ. lia.
Qed.

End RoundTrip.

(** Discharge the premises of [H] that are at hand. *)
Ltac feed H :=
  repeat match type of H with
         | ?A -> _ =>
             let h := fresh in
             assert (h : A) by assumption; specialize (H h); clear h
         end.

(** C6.  Let the observed time be the model time of round [k] of the
    schedule, let [k] be the first round whose model time is that low,
    and let it leave a positive time after the [k + 1] round trips.  As
    long as the byte counts stay in range (the transfer and the segment
    below 2 ^ 53 bytes), [GoodputBps] returns [OK] and
    [k] rounds, and the achieved rate is the rate of round [k] up to the
    truncation of the divisions: it is not below it, and exceeds it by
    less than [(2 * rate + mssBytes * 10 ^ 6) / remaining time]. *)
Theorem GoodputBps_round_trip :
  forall (totalBytes initCwndPkts mssBytes minRtt : Z) (k : nat),
    let xfer := xferPkts totalBytes mssBytes in
    let st := state_after totalBytes mssBytes minRtt k (initial initCwndPkts) in
    let totalTime := modelTimeAt totalBytes mssBytes minRtt st in
    let T := totalTime - minRtt * (Z.of_nat k + 1) in
    0 < totalBytes < 2 ^ 53 -> 0 < initCwndPkts -> 0 < mssBytes < 2 ^ 53 ->
    0 < minRtt <= 2 ^ 55 ->
    (xfer + initCwndPkts) * mssBytes * MICROS_IN_SEC < 2 ^ 61 ->
    minRtt <= initCwndPkts * mssBytes * MICROS_IN_SEC ->
    initCwndPkts * (2 ^ Z.of_nat k - 1) < xfer ->
    (forall j, (j < k)%nat ->
        totalTime < modelTimeAt totalBytes mssBytes minRtt
                      (state_after totalBytes mssBytes minRtt j
                         (initial initCwndPkts))) ->
    0 < T ->
    exists r,
      GoodputBps totalBytes initCwndPkts mssBytes minRtt totalTime = Ret r /\
      status r = OK /\
      rttsInSlowStart r = Z.of_nat k /\
      lastFullCwndPkts r = initCwndPkts * 2 ^ Z.of_nat k /\
      let A := achievedBps totalBytes mssBytes minRtt totalTime
                 (broken totalBytes mssBytes minRtt st) in
      bytesPerSec r = A mod 2 ^ 32 /\
      tputBps mssBytes minRtt st <= A /\
      (A - tputBps mssBytes minRtt st) * T
        < 2 * tputBps mssBytes minRtt st + mssBytes * MICROS_IN_SEC.
Proof.
  intros tb ic mss rtt k xfer st tt T Htb' Hic Hmss' Hrtt Hfit Hrate Hk
         Hfirst HT.
  pose proof (xferPkts_ceiling tb mss Htb' Hmss') as Hceil. fold xfer in Hceil.
  assert (Htb : 0 < tb) by lia. assert (Hmss : 0 < mss) by lia.
  fold xfer in Hfirst. fold st in Hfirst. fold tt in Hfirst.
  pose proof (search_round_trip tb ic mss rtt) as Hs. feed Hs.
  specialize (Hs k). feed Hs.
  pose proof (after_round_trip tb ic mss rtt) as Ha. feed Ha.
  specialize (Ha k). feed Ha.
  cbv zeta in Ha. destruct Ha as (Hrem & HTe & Hrp & HA & Hbounds).
  fold st in Hs, Hrem, HTe, Hrp, HA, Hbounds. fold tt in Hs, Hrem, HTe, Hrp, HA.
  fold xfer in HA, Hbounds.
  assert (HT' : 0 < xmissionTime tb mss rtt st + ssXmissionTime mss rtt st)
    by (rewrite HTe; exact HT).
  pose proof (schedule_state tb ic mss rtt) as Hsch. feed Hsch.
  specialize (Hsch k). feed Hsch.
  destruct (Hsch k (Nat.le_refl k)) as (Hd & Hlt). clear Hsch.
  fold st in Hd, Hlt. fold xfer in Hlt.
  pose proof (round_in_range tb ic mss rtt) as Hrir. feed Hrir.
  destruct (Hrir k st Hd Hlt) as (Hw & _ & Hr & _ & Hk62). clear Hrir.
  pose proof (schedule_fits tb ic mss rtt) as Hsf. feed Hsf.
  destruct Hsf as (_ & Hov). fold xfer in Hov.
  eexists. split.
  - unfold GoodputBps, GoodputBps_fuel.
    destruct (Z.eqb_spec rtt 0) as [|_]; [lia|].
    fold tt. rewrite Hs. unfold finish. fold xfer.
    change (cumulativePkts (broken tb mss rtt st)) with (cumulativePkts st).
    destruct (Z.leb_spec xfer (cumulativePkts st)); [lia|].
    rewrite Hrem.
    destruct (Z.leb_spec (xmissionTime tb mss rtt st + ssXmissionTime mss rtt st) 0);
      [lia|].
    apply Z.ltb_lt in Hrp. rewrite Hrp. reflexivity.
  - cbn [status rttsInSlowStart lastFullCwndPkts bytesPerSec].
    split; [reflexivity|].
    change (rtts (broken tb mss rtt st)) with (rtts st).
    change (cwnd (broken tb mss rtt st)) with (cwnd st).
    split.
    { rewrite Hr. unfold Int.u32, Int.wrap_u. apply Z.mod_small.
      change (2 ^ 32) with 4294967296. lia. }
    split.
    { destruct Hd as (_ & Hcw & _). rewrite <- Hcw. apply u64_small.
      change (2 ^ 62) with 4611686018427387904 in Hov.
      change (2 ^ 64) with 18446744073709551616. lia. }
    split; [reflexivity|].
    rewrite (HA HT'). destruct (Hbounds HT') as (Hlo & Hhi).
    unfold T. rewrite <- HTe. split; assumption.
Qed.

Lemma GoodputBps_round_trip_witness :
  exists r,
    GoodputBps 10000000 10 1460 20000
      (modelTimeAt 10000000 1460 20000
         (state_after 10000000 1460 20000 7 (initial 10))) = Ret r /\
    status r = OK /\ rttsInSlowStart r = 7.
Proof.
  destruct (GoodputBps_round_trip 10000000 10 1460 20000 7)
    as (r & H1 & H2 & H3 & _).
  - vm_compute; split; reflexivity.
  - reflexivity.
  - vm_compute; split; reflexivity.
  - vm_compute; split; [reflexivity|discriminate].
  - vm_compute; reflexivity.
  - vm_compute; discriminate.
  - vm_compute; reflexivity.
  - intros j Hj.
    do 7 (destruct j as [|j]; [vm_compute; reflexivity|]). lia.
  - vm_compute; reflexivity.
  - exists r. split; [exact H1|]. split; [exact H2|exact H3].
Defined.

(** * Further properties of the two functions *)

(** ** The rounds of Gpeak against the doubling schedule *)

(** A significand above [1 + D / 2 ^ work_bits] has a nonzero bit among
    its first [n] fraction bits when [D * 2 ^ n] reaches [2 ^ work_bits]. *)
Lemma log2_frac_high :
  forall n n2 M acc D,
    0 < D -> 2 ^ Dbl.work_bits + D <= M < 2 ^ (Dbl.work_bits + 1) ->
    2 ^ Dbl.work_bits <= D * 2 ^ Z.of_nat n ->
    (acc * 2 ^ Z.of_nat n + 1) * 2 ^ Z.of_nat n2
    <= Dbl.log2_frac (n + n2) M acc.
Proof.
  assert (HP : 0 < 2 ^ Dbl.work_bits) by (vm_compute; reflexivity).
  assert (HP1 : 2 ^ (Dbl.work_bits + 1) = 2 * 2 ^ Dbl.work_bits)
    by (vm_compute; reflexivity).
  induction n as [|n IH]; intros n2 M acc D HD HM Hn.
  - change (2 ^ Z.of_nat 0) with 1 in Hn. lia.
  - change (S n + n2)%nat with (S (n + n2)).
    cbn [Dbl.log2_frac]. cbv zeta.
    rewrite Nat2Z.inj_succ, Z.pow_succ_r in * by lia.
    assert (Hpn : 0 < 2 ^ Z.of_nat n) by (apply Z.pow_pos_nonneg; lia).
    assert (Hpn2 : 0 < 2 ^ Z.of_nat n2) by (apply Z.pow_pos_nonneg; lia).
    assert (Hsq : 2 ^ Dbl.work_bits + 2 * D <= M * M / 2 ^ Dbl.work_bits).
    { apply Z.div_le_lower_bound; [lia|].
      set (P := 2 ^ Dbl.work_bits) in *. nia. }
    destruct (Z.leb_spec (2 ^ (Dbl.work_bits + 1)) (M * M / 2 ^ Dbl.work_bits))
      as [Hbit | Hno].
    + pose proof (log2_frac_range (n + n2)
                    (M * M / 2 ^ Dbl.work_bits / 2) (2 * acc + 1)) as Hr.
      rewrite Nat2Z.inj_add, Z.pow_add_r in Hr by lia.
      eapply Z.le_trans; [|apply Hr].
      set (P := 2 ^ Z.of_nat n) in *. set (Q := 2 ^ Z.of_nat n2) in *.
      clear - Hpn Hpn2. nia.
    + specialize (IH n2 (M * M / 2 ^ Dbl.work_bits) (2 * acc) (2 * D)).
      eapply Z.le_trans; [|apply IH; [lia|lia|nia]].
      set (P := 2 ^ Z.of_nat n) in *. set (Q := 2 ^ Z.of_nat n2) in *.
      clear - Hpn Hpn2. nia.
Qed.

(** A logarithm at least [2 ^ - B] above the integer [k], and below
    [k + 1], keeps its ceiling [k + 1] when rounded to binary64. *)
Lemma rounds_of_normalize_exact :
  forall m k B,
    0 <= k <= 60 -> 0 <= B <= 47 ->
    k * 2 ^ 128 + 2 ^ (128 - B) <= m < (k + 1) * 2 ^ 128 ->
    Dbl.to_s64
      (Dbl.sub (Dbl.ceil (binary_normalize 53 1024 m (-128) false))
         (Dbl.of_Z 1)) = k.
Proof.
  intros m k B Hk HB Hmk.
  assert (HpB : 0 < 2 ^ (128 - B)) by (apply pow2_pos; lia).
  assert (Hp128 : 0 < 2 ^ 128) by (apply pow2_pos; lia).
  assert (Hm : 0 < m) by nia.
  pose proof (Zdigits2_bounds m Hm) as Hdb.
  assert (Hdig : 1 <= Zdigits2 m <= 134).
  { split.
    - destruct (Z.le_gt_cases 1 (Zdigits2 m)) as [|Hlt]; [assumption|exfalso].
      assert (2 ^ Zdigits2 m <= 2 ^ 0)
        by (destruct (Z.le_gt_cases 0 (Zdigits2 m));
            [apply Z.pow_le_mono_r; lia|rewrite Z.pow_neg_r by lia; cbn; lia]).
      change (2 ^ 0) with 1 in *. lia.
    - destruct (Z.le_gt_cases (Zdigits2 m) 134) as [|Hgt]; [assumption|exfalso].
      assert (2 ^ 134 <= 2 ^ (Zdigits2 m - 1)) by (apply Z.pow_le_mono_r; lia).
      change (2 ^ 134) with (64 * 2 ^ 128) in *. nia. }
  destruct (binary_normalize_pos m (-128) Hm ltac:(lia) ltac:(lia))
    as (M & E & Hy & HM & HE & Hcases).
  rewrite Hy.
  assert (HE2 : E <= -2) by lia.
  destruct (ceil_finish_round_float M E HM HE2) as (-> & HC1).
  set (w := - E) in *. set (C := - (- M / 2 ^ w)) in *.
  assert (Hw : 0 < 2 ^ w) by (apply pow2_pos; unfold w; lia).
  assert (HC : C = k + 1).
  { destruct Hcases as [(Hn & Hup & Hlo) | (Hn & HMe)].
    - replace (E - -128) with (128 - w) in * by (unfold w; lia).
      assert (Hsplit : 2 ^ 128 = 2 ^ w * 2 ^ (128 - w))
        by (rewrite <- pow2_split by (unfold w; lia); f_equal; lia).
      assert (HsplitB : 2 ^ (128 - B) = 2 ^ (w - B) * 2 ^ (128 - w))
        by (rewrite <- pow2_split by (unfold w; lia); f_equal; lia).
      assert (HwB : 0 < 2 ^ (w - B)) by (apply pow2_pos; unfold w; lia).
      assert (HMK : M <= (k + 1) * 2 ^ w).
      { apply Hup. rewrite <- Z.mul_assoc, <- Hsplit. lia. }
      assert (HMk : k * 2 ^ w + 2 ^ (w - B) <= M).
      { apply Hlo. rewrite Z.mul_add_distr_r, <- Z.mul_assoc, <- Hsplit, <- HsplitB.
        lia. }
      unfold C.
      assert (- M / 2 ^ w < - k) by (apply Z.div_lt_upper_bound; lia).
      assert (- (k + 1) <= - M / 2 ^ w) by (apply Z.div_le_lower_bound; lia).
      lia.
    - assert (Hk0 : k = 0).
      { destruct (Z.eq_dec k 0); [assumption|exfalso].
        assert (2 ^ 128 <= m) by nia.
        assert (2 ^ Zdigits2 m <= 2 ^ 52) by (apply Z.pow_le_mono_r; lia).
        change (2 ^ 128) with (2 ^ 76 * 2 ^ 52) in *. lia. }
      unfold C.
      assert (2 ^ 53 < 2 ^ w) by (apply Z.pow_lt_mono_r; unfold w; lia).
      assert (-1 <= - M / 2 ^ w) by (apply Z.div_le_lower_bound; lia).
      lia. }
  rewrite minus_one_small by lia. lia.
Qed.

(** The rounds computed from a double that is at least [2 ^ - B] above a
    power of two in relative terms: the integer part of the logarithm. *)
Lemma rounds_of_exact :
  forall mx ex B,
    0 <= B <= 47 ->
    2 ^ 52 + 2 ^ (52 - B) <= Zpos mx < 2 ^ 53 -> 0 <= ex + 52 <= 60 ->
    rounds_of (S754_finite false mx ex) = ex + 52.
Proof.
  intros mx ex B HB Hmx Hex.
  assert (HpB : 0 < 2 ^ (52 - B)) by (apply pow2_pos; lia).
  assert (Hd : Zpos (digits2_pos mx) = 53).
  { apply (digits2_pos_unique mx 53); lia. }
  unfold rounds_of, Dbl.log2. cbv zeta. rewrite Hd.
  change (- Z.of_nat Dbl.frac_bits) with (-128).
  change (Z.of_nat Dbl.frac_bits) with 128.
  change (Dbl.work_bits - (53 - 1)) with 204.
  change Dbl.prec with 53. change Dbl.emax with 1024.
  replace (ex + 53 - 1) with (ex + 52) by lia.
  set (T := Dbl.log2_frac Dbl.frac_bits (Zpos mx * 2 ^ 204) 0).
  assert (HT : 0 <= T < 2 ^ 128).
  { pose proof (log2_frac_range Dbl.frac_bits (Zpos mx * 2 ^ 204) 0) as H.
    change (Z.of_nat Dbl.frac_bits) with 128 in H. fold T in H. lia. }
  assert (HT1 : 2 ^ (128 - B) <= T).
  { pose proof (log2_frac_high (Z.to_nat B) (Z.to_nat (128 - B))
                  (Zpos mx * 2 ^ 204) 0 (2 ^ (256 - B))) as H.
    replace (Z.to_nat B + Z.to_nat (128 - B))%nat with Dbl.frac_bits in H
      by (unfold Dbl.frac_bits; lia).
    fold T in H. rewrite !Z2Nat.id in H by lia.
    change Dbl.work_bits with 256 in H.
    assert (H204 : 0 < 2 ^ 204) by (apply pow2_pos; lia).
    assert (Hs1 : 2 ^ (256 - B) = 2 ^ (52 - B) * 2 ^ 204)
      by (rewrite <- pow2_split by lia; f_equal; lia).
    assert (Hs2 : 2 ^ (256 - B) * 2 ^ B = 2 ^ 256)
      by (rewrite <- pow2_split by lia; f_equal; lia).
    change (2 ^ (256 + 1)) with (2 ^ 53 * 2 ^ 204) in H.
    assert (H256 : 2 ^ 256 = 2 ^ 52 * 2 ^ 204) by reflexivity.
    assert ((0 * 2 ^ B + 1) * 2 ^ (128 - B) <= T).
    { apply H.
      - apply pow2_pos; lia.
      - rewrite Hs1, H256. split; [|apply Z.mul_lt_mono_pos_r; lia].
        rewrite <- Z.mul_add_distr_r. apply Z.mul_le_mono_nonneg_r; lia.
      - rewrite Hs2. lia. }
    lia. }
  apply (rounds_of_normalize_exact _ (ex + 52) B); [lia|exact HB|].
  assert (0 < 2 ^ 128) by (apply pow2_pos; lia).
  lia.
Qed.

(** [double(a) / b + 1] is at least [2 ^ j * (1 + 2 ^ -40)] when
    [a / b + 1] exceeds [2 ^ j] and [2 ^ j * b] is at most [2 ^ 40]. *)
Lemma ratio_plus_one_above :
  forall a b j mx ex,
    0 < a < 2 ^ 53 -> 0 < b < 2 ^ 53 ->
    0 <= j -> 2 ^ j * b <= 2 ^ 40 -> (2 ^ j - 1) * b < a ->
    Dbl.add (Dbl.div (Dbl.of_Z a) (Dbl.of_Z b)) (Dbl.of_Z 1)
    = S754_finite false mx ex ->
    (2 ^ 40 + 1) * 2 ^ (j - 40 + scale) <= Zpos mx * 2 ^ (ex + scale).
Proof.
  intros a b j mx ex Ha Hb Hj Hjb Hab HX.
  assert (Hpj : 0 < 2 ^ j) by (apply pow2_pos; lia).
  assert (Hj40 : j <= 40).
  { destruct (Z.le_gt_cases j 40) as [|Hgt]; [assumption|exfalso].
    assert (2 ^ 41 <= 2 ^ j) by (apply Z.pow_le_mono_r; lia).
    change (2 ^ 41) with (2 * 2 ^ 40) in *. nia. }
  set (p := 40 - j).
  assert (Hpp : 0 < 2 ^ p) by (apply pow2_pos; unfold p; lia).
  assert (H40 : 2 ^ 40 = 2 ^ j * 2 ^ p)
    by (rewrite <- pow2_split by (unfold p; lia); f_equal; unfold p; lia).
  assert (Hbp : b <= 2 ^ p) by (rewrite H40 in Hjb; nia).
  set (c := (2 ^ j - 1) * 2 ^ p + 1).
  assert (Hc : 0 < c <= 2 ^ 40) by (unfold c; rewrite H40; nia).
  assert (Hcb : c * b <= a * 2 ^ p) by (unfold c; nia).
  revert HX.
  destruct (div_nearest a b Ha Hb) as (M & u & -> & HM & Hu & Hnear & Hlow).
  assert (Hus : 0 <= - u + scale) by (unfold scale; lia).
  destruct (finish_round_scaled M (- u) HM Hus)
    as (mq & eq & -> & Hmq & Heq & Hval).
  change (Dbl.of_Z 1) with (S754_finite false 4503599627370496 (-52)).
  rewrite add_finite_pos. cbv zeta.
  set (ez := Z.min eq (-52)).
  set (m := Zpos mq * 2 ^ (eq - ez) + 4503599627370496 * 2 ^ (-52 - ez)).
  assert (Hez : -105 <= ez <= -52) by (unfold ez; lia).
  assert (Hp1 : 0 < 2 ^ (eq - ez)) by (apply pow2_pos; unfold ez; lia).
  assert (Hp2 : 0 < 2 ^ (-52 - ez)) by (apply pow2_pos; unfold ez; lia).
  assert (Hm : 0 < m) by (unfold m; nia).
  assert (Hsum : m * 2 ^ (ez + scale)
                 = M * 2 ^ (- u + scale) + 2 ^ 52 * 2 ^ (-52 + scale)).
  { unfold m. rewrite Z.mul_add_distr_r, <- !Z.mul_assoc.
    rewrite <- !pow2_split by (unfold scale, ez; lia).
    replace (eq - ez + (ez + scale)) with (eq + scale) by lia.
    replace (-52 - ez + (ez + scale)) with (-52 + scale) by lia.
    rewrite Hval. reflexivity. }
  assert (Hdig : ez + Zdigits2 m <= 1000).
  { pose proof (Zdigits2_bounds m Hm) as Hd.
    assert (Hmb : m < 2 ^ 200).
    { unfold m.
      assert (2 ^ (eq - ez) <= 2 ^ 106) by (apply Z.pow_le_mono_r; unfold ez; lia).
      assert (2 ^ (-52 - ez) <= 2 ^ 53) by (apply Z.pow_le_mono_r; unfold ez; lia).
      assert (Zpos mq * 2 ^ (eq - ez) <= 2 ^ 53 * 2 ^ 106)
        by (apply Z.mul_le_mono_nonneg; lia).
      assert (4503599627370496 * 2 ^ (-52 - ez) <= 2 ^ 52 * 2 ^ 53)
        by (apply Z.mul_le_mono_nonneg; [lia|vm_compute; discriminate|lia|lia]).
      assert (2 ^ 53 * 2 ^ 106 + 2 ^ 52 * 2 ^ 53 < 2 ^ 200)
        by (vm_compute; reflexivity).
      lia. }
    destruct (Z.le_gt_cases (Zdigits2 m) 200) as [|Hgt]; [lia|].
    assert (2 ^ 200 <= 2 ^ (Zdigits2 m - 1)) by (apply Z.pow_le_mono_r; lia).
    lia. }
  destruct (normalize_scaled m ez Hm ltac:(lia) Hdig)
    as (mx' & ex' & -> & Hmx & _ & Hge).
  intros [= <- <-].
  apply Hge; [split; vm_compute; [reflexivity|discriminate]
             |unfold scale; lia|].
  rewrite Hsum.
  (* the quotient is at least [c * 2 ^ - p] *)
  assert (Hq : c * 2 ^ (- p + scale) <= M * 2 ^ (- u + scale)).
  { destruct (Z.le_gt_cases p u) as [Hpu | Hpu].
    - assert (Hup : 0 < 2 ^ (u - p)) by (apply pow2_pos; lia).
      assert (Hsu : 2 ^ u = 2 ^ p * 2 ^ (u - p))
        by (rewrite <- pow2_split by (unfold p in *; lia); f_equal; lia).
      assert (HMc : c * 2 ^ (u - p) <= M).
      { rewrite Hsu in Hnear.
        assert (H : c * b * 2 ^ (u - p) <= a * 2 ^ p * 2 ^ (u - p))
          by (apply Z.mul_le_mono_nonneg_r; lia).
        set (Q := 2 ^ (u - p)) in *. set (P := 2 ^ p) in *.
        clearbody Q P c. clear - Hnear H Hb.
        assert (2 * (c * Q) * b <= (2 * M + 1) * b) by lia.
        assert (2 * (c * Q) <= 2 * M + 1)
          by (apply (Z.mul_le_mono_pos_r _ _ b); lia).
        lia. }
      replace (- p + scale) with ((u - p) + (- u + scale)) by lia.
      rewrite pow2_split, Z.mul_assoc by lia.
      apply Z.mul_le_mono_nonneg_r; [apply Z.lt_le_incl, pow2_pos; lia|lia].
    - assert (H1 : c * 2 ^ (- p + scale) <= 2 ^ 52 * 2 ^ (- p + scale)).
      { apply Z.mul_le_mono_nonneg_r;
          [apply Z.lt_le_incl, pow2_pos; unfold scale, p; lia|].
        change (2 ^ 52) with (4096 * 2 ^ 40). lia. }
      assert (H2 : 2 ^ 52 * 2 ^ (- p + scale) <= 2 ^ 52 * 2 ^ (- u + scale)).
      { apply Z.mul_le_mono_nonneg_l; [vm_compute; discriminate|].
        apply Z.pow_le_mono_r; lia. }
      assert (H3 : 2 ^ 52 * 2 ^ (- u + scale) <= M * 2 ^ (- u + scale)).
      { apply Z.mul_le_mono_nonneg_r; [apply Z.lt_le_incl, pow2_pos; lia|lia]. }
      lia. }
  assert (Hone : 2 ^ 52 * 2 ^ (-52 + scale) = 2 ^ p * 2 ^ (- p + scale)).
  { rewrite <- !pow2_split by (unfold scale, p; lia). f_equal; lia. }
  assert (Hthr : (2 ^ 40 + 1) * 2 ^ (j - 40 + scale)
                 = (c + 2 ^ p) * 2 ^ (- p + scale)).
  { replace (j - 40 + scale) with (- p + scale) by (unfold p; lia).
    f_equal. unfold c. rewrite H40. ring. }
  rewrite Hthr, Hone, Z.mul_add_distr_r. lia.
Qed.

(** The closed form agrees with the doubling schedule when the packets
    of the transfer and of the initial window are at most 2 ^ 40
    together: [rttsToLast] is the number [r] of full windows before the
    last one, [(2 ^ r - 1) * b < a <= (2 ^ (r + 1) - 1) * b]. *)
Lemma rttsToLast_exact :
  forall a b, 0 < a -> 0 < b -> a + b <= 2 ^ 40 ->
    let r := rttsToLast a b in
    0 <= r <= 40 /\ (2 ^ r - 1) * b < a <= (2 ^ (r + 1) - 1) * b.
Proof.
  intros a b Ha Hb Hab r.
  assert (Ha53 : 0 < a < 2 ^ 53)
    by (change (2 ^ 40) with 1099511627776 in *;
        change (2 ^ 53) with 9007199254740992; lia).
  assert (Hb53 : 0 < b < 2 ^ 53)
    by (change (2 ^ 40) with 1099511627776 in *;
        change (2 ^ 53) with 9007199254740992; lia).
  assert (Hratio : b <= 2 ^ 50 * a)
    by (change (2 ^ 40) with 1099511627776 in *;
        change (2 ^ 50) with 1125899906842624; lia).
  destruct (rttsToLast_spec a b Ha53 Hb53 Hratio) as (Hr & Hlow & _).
  fold r in Hr, Hlow.
  assert (Hpr : 0 < 2 ^ r) by (apply pow2_pos; lia).
  assert (Hr40 : r <= 40).
  { destruct (Z.le_gt_cases r 40) as [|Hgt]; [assumption|exfalso].
    assert (2 ^ 41 <= 2 ^ r) by (apply Z.pow_le_mono_r; lia).
    change (2 ^ 41) with (2 * 2 ^ 40) in *. nia. }
  split; [lia|]. split; [exact Hlow|].
  destruct (Z.le_gt_cases a ((2 ^ (r + 1) - 1) * b)) as [|Habove];
    [assumption|exfalso].
  set (j := r + 1) in *.
  assert (Hpj : 0 < 2 ^ j) by (apply pow2_pos; unfold j; lia).
  destruct (ratio_plus_one a b Ha53 Hb53 Hratio)
    as (mx & ex & HX & Hmx & Hup & Hlo).
  assert (Hthr := ratio_plus_one_above a b j mx ex Ha53 Hb53
                    ltac:(unfold j; lia) ltac:(nia) Habove HX).
  assert (Hrx : r = rounds_of (S754_finite false mx ex)).
  { unfold r. rewrite <- HX. reflexivity. }
  (* the exponent of X *)
  assert (Hexs : 0 <= ex + scale).
  { destruct (Z.le_gt_cases 0 (ex + scale)) as [|Hlt]; [assumption|exfalso].
    rewrite (Z.pow_neg_r 2 (ex + scale)), Z.mul_0_r in Hlo by lia.
    assert (0 < 2 ^ (-52 + scale)) by (apply pow2_pos; unfold scale in *; lia).
    lia. }
  assert (Hk53 : ex <= 1).
  { destruct (Z.le_gt_cases ex 1) as [|Hgt]; [assumption|exfalso].
    assert (H := Hup 53 ltac:(lia)
                   ltac:(change (2 ^ 53) with 9007199254740992 in *; nia)).
    assert (2 ^ 52 * 2 ^ (ex + scale) <= Zpos mx * 2 ^ (ex + scale))
      by (apply Z.mul_le_mono_nonneg_r;
          [apply Z.lt_le_incl, pow2_pos; lia|lia]).
    assert (2 ^ 52 * 2 ^ (53 - 52 + scale) < 2 ^ 52 * 2 ^ (ex + scale)).
    { apply Z.mul_lt_mono_pos_l; [vm_compute; reflexivity|].
      apply Z.pow_lt_mono_r; unfold scale in *; lia. }
    lia. }
  assert (Hjs : 0 < 2 ^ (j - 40 + scale))
    by (apply pow2_pos; unfold scale, j; lia).
  assert (Hkj : j <= ex + 52).
  { destruct (Z.le_gt_cases j (ex + 52)) as [|Hlt]; [assumption|exfalso].
    assert (Zpos mx * 2 ^ (ex + scale) < 2 ^ 53 * 2 ^ (ex + scale))
      by (apply Z.mul_lt_mono_pos_r; [apply pow2_pos; lia|lia]).
    assert (2 ^ 53 * 2 ^ (ex + scale) <= 2 ^ 40 * 2 ^ (j - 40 + scale)).
    { rewrite <- !pow2_split by (unfold scale, j in *; lia).
      apply Z.pow_le_mono_r; lia. }
    lia. }
  destruct (rounds_of_spec mx ex Hmx ltac:(unfold j in *; lia)) as (Hpow & Hmid).
  cbv zeta in Hpow, Hmid. rewrite <- Hrx in Hpow, Hmid.
  destruct (Z.eq_dec (ex + 52) j) as [Heq | Hne].
  - (* same binade: the significand is well above 1 *)
    assert (Hm12 : 2 ^ 52 + 2 ^ (52 - 40) <= Zpos mx).
    { replace (j - 40 + scale) with (12 + (ex + scale)) in Hthr by lia.
      rewrite pow2_split, Z.mul_assoc in Hthr by lia.
      apply Z.mul_le_mono_pos_r in Hthr; [|apply pow2_pos; lia].
      change (2 ^ 52 + 2 ^ (52 - 40)) with ((2 ^ 40 + 1) * 2 ^ 12).
      exact Hthr. }
    pose proof (rounds_of_exact mx ex 40 ltac:(lia) ltac:(lia)
                  ltac:(unfold j in *; lia)) as He.
    rewrite <- Hrx in He. unfold j in *. lia.
  - destruct (Z.eq_dec (Zpos mx) (2 ^ 52)) as [He | Hne2].
    + specialize (Hpow He). unfold j in *. lia.
    + destruct (Hmid ltac:(lia)) as (_ & H1). unfold j in *. lia.
Qed.

(** [std::fmax] on two [int64_t] values that are not negative and below
    2 ^ 53: both convert exactly, and the result is the integer maximum. *)
Lemma fmax_s64_max :
  forall a b, 0 <= a < 2 ^ 53 -> 0 <= b < 2 ^ 53 -> fmax_s64 a b = Z.max a b.
Proof.
  intros a b Ha Hb. unfold fmax_s64.
  destruct (Z.eq_dec a 0) as [-> | Ha0]; destruct (Z.eq_dec b 0) as [-> | Hb0].
  - reflexivity.
  - destruct (of_Z_exact b ltac:(lia)) as (mb & eb & Eb & _).
    pose proof (to_s64_of_Z b ltac:(lia)) as Hb'.
    change (Dbl.of_Z 0) with (S754_zero false). rewrite Eb in *.
    cbn [Dbl.fmax SFltb SFcompare]. rewrite Hb'. lia.
  - destruct (of_Z_exact a ltac:(lia)) as (ma & ea & Ea & _).
    pose proof (to_s64_of_Z a ltac:(lia)) as Ha'.
    change (Dbl.of_Z 0) with (S754_zero false). rewrite Ea in *.
    cbn [Dbl.fmax SFltb SFcompare]. rewrite Ha'. lia.
  - pose proof (to_s64_of_Z a ltac:(lia)) as Ha'.
    pose proof (to_s64_of_Z b ltac:(lia)) as Hb'.
    destruct (of_Z_exact a ltac:(lia)) as (ma & ea & Ea & Hma & Hra & Hea).
    destruct (of_Z_exact b ltac:(lia)) as (mb & eb & Eb & Hmb & Hrb & Heb).
    rewrite Ea, Eb in *.
    assert (Hpa : 0 < 2 ^ (- ea)) by (apply pow2_pos; lia).
    assert (Hpb : 0 < 2 ^ (- eb)) by (apply pow2_pos; lia).
    unfold Dbl.fmax, SFltb, SFcompare.
    destruct (Z.compare_spec ea eb) as [He | He | He].
    + subst eb. rewrite Pos.compare_cont_spec. cbn [Pos.switch_Eq].
      destruct (Pos.compare_spec ma mb) as [Hm | Hm | Hm];
        cbn [Pos.switch_Eq].
      * rewrite Ha'. assert (Zpos ma = Zpos mb) by (f_equal; exact Hm). nia.
      * rewrite Hb'. assert (Zpos ma < Zpos mb) by lia. nia.
      * rewrite Ha'. assert (Zpos mb < Zpos ma) by lia. nia.
    + rewrite Hb'.
      assert (2 * 2 ^ (- eb) <= 2 ^ (- ea)).
      { replace (- ea) with (- eb + (eb - ea)) by lia.
        rewrite pow2_split by lia.
        assert (2 ^ 1 <= 2 ^ (eb - ea)) by (apply Z.pow_le_mono_r; lia).
        change (2 ^ 1) with 2 in *. nia. }
      change (2 ^ 53) with (2 * 2 ^ 52) in *. nia.
    + rewrite Ha'.
      assert (2 * 2 ^ (- ea) <= 2 ^ (- eb)).
      { replace (- eb) with (- ea + (ea - eb)) by lia.
        rewrite pow2_split by lia.
        assert (2 ^ 1 <= 2 ^ (ea - eb)) by (apply Z.pow_le_mono_r; lia).
        change (2 ^ 1) with 2 in *. nia. }
      change (2 ^ 53) with (2 * 2 ^ 52) in *. nia.
Qed.

(** The rate of [x] packets per round trip when the product fits
    [int64_t]: the plain quotient. *)
Lemma rate_of_plain :
  forall x mssBytes minRtt,
    0 <= x -> 0 < mssBytes -> x * mssBytes * MICROS_IN_SEC < 2 ^ 63 ->
    0 < minRtt < 2 ^ 63 ->
    rate_of x mssBytes minRtt = x * mssBytes * MICROS_IN_SEC / minRtt.
Proof.
  intros x mss rtt Hx Hmss Hfit Hrtt. unfold rate_of.
  assert (H0 : 0 <= x * mss) by (apply Z.mul_nonneg_nonneg; lia).
  assert (H1 : x * mss <= x * mss * MICROS_IN_SEC) by (unfold MICROS_IN_SEC; lia).
  assert (H2 : x <= x * mss) by nia.
  change (2 ^ 63) with 9223372036854775808 in *.
  rewrite (u64_small x) by (change (2 ^ 64) with 18446744073709551616; lia).
  rewrite (u64_small (x * mss))
    by (change (2 ^ 64) with 18446744073709551616; lia).
  rewrite (u64_small (x * mss * MICROS_IN_SEC))
    by (change (2 ^ 64) with 18446744073709551616; lia).
  rewrite (u64_small rtt) by (change (2 ^ 64) with 18446744073709551616; lia).
  apply s64_small.
  assert (0 <= x * mss * MICROS_IN_SEC / rtt <= x * mss * MICROS_IN_SEC).
  { split; [apply Z.div_pos; lia|apply Z.div_le_upper_bound; nia]. }
  change (2 ^ 63) with 9223372036854775808. lia.
Qed.

(** [1 << n] in [int] within 30 bits. *)
Lemma shl1_int_small : forall n, 0 <= n <= 30 -> Int.shl1_int n = 2 ^ n.
Proof.
  intros n Hn. unfold Int.shl1_int.
  rewrite Z.mod_small by lia. rewrite Z.shiftl_1_l.
  assert (Hp : 1 <= 2 ^ n <= 2 ^ 30).
  { split; [apply Z.lt_pred_le, pow2_pos; lia|apply Z.pow_le_mono_r; lia]. }
  change (2 ^ 30) with 1073741824 in Hp.
  unfold Int.s32, Int.wrap_s.
  change (2 ^ (32 - 1)) with 2147483648. change (2 ^ 32) with 4294967296.
  rewrite Z.mod_small; lia.
Qed.

(** X2.  With fewer than 2 ^ 31 packets in the transfer and the initial
    window together, and a rate product that fits [int64_t], [Gpeak] is
    its closed form: the rounds [r] are the number of full windows of the
    doubling schedule before the last one, the rate is that of the larger
    of the last full window and the rest of the transfer, the projected
    window is [initCwndPkts + xferPkts], and the last field holds the low
    16 bits of the larger of the initial and the last full window. *)
Theorem Gpeak_closed_form :
  forall totalBytes initCwndPkts mssBytes minRtt,
    let xfer := xferPkts totalBytes mssBytes in
    0 < totalBytes < 2 ^ 53 -> 0 < mssBytes < 2 ^ 53 ->
    0 < initCwndPkts -> 0 < minRtt < 2 ^ 63 ->
    xfer + initCwndPkts <= 2 ^ 31 ->
    xfer * mssBytes * MICROS_IN_SEC < 2 ^ 63 ->
    exists r,
      0 <= r <= 30 /\
      (2 ^ r - 1) * initCwndPkts < xfer <= (2 ^ (r + 1) - 1) * initCwndPkts /\
      let full := if r =? 0 then 0 else initCwndPkts * 2 ^ (r - 1) in
      Gpeak totalBytes initCwndPkts mssBytes minRtt
      = Ret (mkModelRate
               (Z.max full (xfer - (2 ^ r - 1) * initCwndPkts)
                * mssBytes * MICROS_IN_SEC / minRtt)
               r (initCwndPkts + xfer)
               (Z.max initCwndPkts full mod 2 ^ 16) OK).
Proof.
  intros tb ic mss rtt xfer Htb Hmss Hic Hrtt Hpk Hfit.
  pose proof (xferPkts_range tb mss Htb Hmss) as Hx. fold xfer in Hx.
  change (2 ^ 31) with 2147483648 in Hpk.
  destruct (rttsToLast_exact xfer ic ltac:(lia) Hic
              ltac:(change (2 ^ 40) with 1099511627776; lia))
    as (Hr & Hlo & Hhi).
  set (r := rttsToLast xfer ic) in *.
  assert (Hpr : 1 <= 2 ^ r) by (apply Z.lt_pred_le, pow2_pos; lia).
  assert (Hr30 : r <= 30).
  { destruct (Z.le_gt_cases r 30) as [|Hgt]; [assumption|exfalso].
    assert (2 ^ 31 <= 2 ^ r) by (apply Z.pow_le_mono_r; lia).
    change (2 ^ 31) with 2147483648 in *. nia. }
  exists r. split; [lia|]. split; [lia|]. cbv zeta.
  set (full := if r =? 0 then 0 else ic * 2 ^ (r - 1)).
  assert (Hfull : lastFullCwnd r ic = full /\ 0 <= full < xfer).
  { unfold lastFullCwnd, full.
    destruct (Z.ltb_spec 0 r) as [Hpos | Hzero];
      destruct (Z.eqb_spec r 0) as [Hr0 | Hr0];
      [lia| |split; [reflexivity|lia]|lia].
    rewrite shl1_int_small by lia.
    assert (Hh : 2 ^ r = 2 * 2 ^ (r - 1)).
    { replace r with (1 + (r - 1)) at 1 by lia. rewrite pow2_split by lia.
      reflexivity. }
    assert (Hph : 1 <= 2 ^ (r - 1)) by (apply Z.lt_pred_le, pow2_pos; lia).
    assert (Hb : 0 <= ic * 2 ^ (r - 1) < xfer) by nia.
    split; [|exact Hb]. unfold int_times_u64.
    rewrite (u64_small (2 ^ (r - 1)))
      by (change (2 ^ 64) with 18446744073709551616; nia).
    rewrite u64_small by (change (2 ^ 64) with 18446744073709551616; nia).
    rewrite s64_small by (change (2 ^ 63) with 9223372036854775808; nia).
    ring. }
  destruct Hfull as (Hfull & Hfr).
  assert (Hss : ssPkts r ic = (2 ^ r - 1) * ic).
  { apply ssPkts_exact; [lia|lia|].
    change (2 ^ 63) with 9223372036854775808. lia. }
  unfold Gpeak, assert. fold xfer. fold r.
  destruct (Z.eqb_spec rtt 0) as [|_]; [lia|].
  destruct (Z.leb_spec 0 r) as [_|]; [|lia].
  rewrite Hss, Hfull.
  destruct (Z.leb_spec ((2 ^ r - 1) * ic) xfer) as [_|]; [|lia].
  unfold lastFullCwndPktsMax. rewrite Hfull.
  set (rest := xfer - (2 ^ r - 1) * ic).
  assert (Hrest : 0 < rest <= xfer) by (unfold rest; nia).
  rewrite (s64_small rest) by (change (2 ^ 63) with 9223372036854775808; lia).
  rewrite (fmax_s64_max full rest)
    by (change (2 ^ 53) with 9007199254740992; lia).
  rewrite (fmax_s64_max ic full)
    by (change (2 ^ 53) with 9007199254740992; lia).
  set (most := Z.max full rest).
  assert (Hmost : 0 < most <= xfer) by (unfold most; lia).
  assert (Hprod : most * mss * MICROS_IN_SEC <= xfer * mss * MICROS_IN_SEC).
  { unfold MICROS_IN_SEC. apply Z.mul_le_mono_nonneg_r; [lia|].
    apply Z.mul_le_mono_nonneg_r; lia. }
  rewrite (rate_of_plain most mss rtt) by lia.
  assert (Hrate : 0 <= most * mss * MICROS_IN_SEC / rtt
                  <= most * mss * MICROS_IN_SEC).
  { assert (0 <= most * mss * MICROS_IN_SEC)
      by (unfold MICROS_IN_SEC; nia).
    split; [apply Z.div_pos; lia|apply Z.div_le_upper_bound; nia]. }
  change (2 ^ 63) with 9223372036854775808 in *.
  rewrite (u64_small (most * mss * MICROS_IN_SEC / rtt))
    by (change (2 ^ 64) with 18446744073709551616; lia).
  rewrite (u64_small r) by (change (2 ^ 64) with 18446744073709551616; lia).
  rewrite (u64_small xfer) by (change (2 ^ 64) with 18446744073709551616; lia).
  rewrite (u64_small (ic + xfer))
    by (change (2 ^ 64) with 18446744073709551616; lia).
  rewrite (s64_small (ic + xfer))
    by (change (2 ^ 63) with 9223372036854775808; lia).
  rewrite (u64_small (ic + xfer))
    by (change (2 ^ 64) with 18446744073709551616; lia).
  reflexivity.
Qed.

Lemma Gpeak_closed_form_witness :
  exists r,
    0 <= r <= 30 /\
    (2 ^ r - 1) * 10 < xferPkts 10000000 1460 <= (2 ^ (r + 1) - 1) * 10 /\
    Gpeak 10000000 10 1460 20000
    = Ret (mkModelRate
             (Z.max (if r =? 0 then 0 else 10 * 2 ^ (r - 1))
                (xferPkts 10000000 1460 - (2 ^ r - 1) * 10)
              * 1460 * MICROS_IN_SEC / 20000)
             r (10 + xferPkts 10000000 1460)
             (Z.max 10 (if r =? 0 then 0 else 10 * 2 ^ (r - 1)) mod 2 ^ 16) OK).
Proof.
  apply (Gpeak_closed_form 10000000 10 1460 20000).
  - vm_compute; split; reflexivity.
  - vm_compute; split; reflexivity.
  - reflexivity.
  - vm_compute; split; reflexivity.
  - vm_compute; discriminate.
  - vm_compute; reflexivity.
Defined.

(** [xferPkts] does not decrease with the bytes to send. *)
Lemma xferPkts_monotone :
  forall totalBytes totalBytes' mssBytes,
    0 < totalBytes <= totalBytes' -> totalBytes' < 2 ^ 53 ->
    0 < mssBytes < 2 ^ 53 ->
    xferPkts totalBytes mssBytes <= xferPkts totalBytes' mssBytes.
Proof.
  intros tb tb' mss Htb Htb' Hmss.
  pose proof (xferPkts_ceiling tb mss ltac:(lia) Hmss) as H1.
  pose proof (xferPkts_ceiling tb' mss ltac:(lia) Hmss) as H2.
  set (x := xferPkts tb mss) in *. set (x' := xferPkts tb' mss) in *.
  clearbody x x'. nia.
Qed.

(** X3.  The rounds of [Gpeak] follow the size of the transfer: with at
    most 2 ^ 40 packets in the larger transfer and the window together, a
    transfer of at least as many bytes over an initial window that is not
    larger has at least as many rounds in slow start. *)
Theorem Gpeak_rounds_monotone :
  forall totalBytes totalBytes' initCwndPkts initCwndPkts' mssBytes minRtt,
    0 < totalBytes <= totalBytes' -> totalBytes' < 2 ^ 53 ->
    0 < initCwndPkts' <= initCwndPkts ->
    0 < mssBytes < 2 ^ 53 -> minRtt <> 0 ->
    xferPkts totalBytes' mssBytes + initCwndPkts <= 2 ^ 40 ->
    exists g g',
      Gpeak totalBytes initCwndPkts mssBytes minRtt = Ret g /\
      Gpeak totalBytes' initCwndPkts' mssBytes minRtt = Ret g' /\
      status g = OK /\ status g' = OK /\
      rttsInSlowStart g <= rttsInSlowStart g'.
Proof.
  intros tb tb' ic ic' mss rtt Htb Htb' Hic Hmss Hrtt Hpk.
  pose proof (xferPkts_monotone tb tb' mss Htb Htb' Hmss) as Hmono.
  pose proof (xferPkts_range tb mss ltac:(lia) Hmss) as Hx.
  pose proof (xferPkts_range tb' mss ltac:(lia) Hmss) as Hx'.
  assert (H50 : 2 ^ 40 <= 2 ^ 50) by (vm_compute; discriminate).
  destruct (Gpeak_returns tb ic mss rtt ltac:(lia) Hmss ltac:(lia) Hrtt)
    as (_ & _ & g & Hg & Hs & Hr).
  destruct (Gpeak_returns tb' ic' mss rtt ltac:(lia) Hmss ltac:(lia) Hrtt)
    as (_ & _ & g' & Hg' & Hs' & Hr').
  exists g, g'. repeat (split; [assumption|]). rewrite Hr, Hr'.
  destruct (rttsToLast_exact (xferPkts tb mss) ic ltac:(lia) ltac:(lia)
              ltac:(lia)) as (H0 & Hlo & _).
  destruct (rttsToLast_exact (xferPkts tb' mss) ic' ltac:(lia) ltac:(lia)
              ltac:(lia)) as (H0' & _ & Hhi).
  set (r := rttsToLast (xferPkts tb mss) ic) in *.
  set (r' := rttsToLast (xferPkts tb' mss) ic') in *.
  destruct (Z.le_gt_cases r r') as [|Hgt]; [assumption|exfalso].
  assert (Hp : 2 ^ (r' + 1) <= 2 ^ r) by (apply Z.pow_le_mono_r; lia).
  assert (0 < 2 ^ (r' + 1)) by (apply pow2_pos; lia).
  set (x := xferPkts tb mss) in *. set (x' := xferPkts tb' mss) in *.
  clearbody x x' r r'. clear - Hp H Hlo Hhi Hmono Hic.
  assert ((2 ^ (r' + 1) - 1) * ic' <= (2 ^ r - 1) * ic).
  { apply Z.mul_le_mono_nonneg; lia. }
  lia.
Qed.

Lemma Gpeak_rounds_monotone_witness :
  exists g g',
    Gpeak 1000000 10 1460 20000 = Ret g /\
    Gpeak 10000000 10 1460 20000 = Ret g' /\
    status g = OK /\ status g' = OK /\
    rttsInSlowStart g <= rttsInSlowStart g'.
Proof.
  apply (Gpeak_rounds_monotone 1000000 10000000 10 10 1460 20000).
  - lia.
  - vm_compute; reflexivity.
  - lia.
  - vm_compute; split; reflexivity.
  - discriminate.
  - vm_compute; discriminate.
Defined.

(** ** Error records *)

(** X1.  A record that either function returns with a status other than
    [OK] has zero in all four numeric fields.  [Gpeak] returns
    [ERROR_MINRTT_IS_ZERO] exactly when [minRtt] is zero and [OK]
    otherwise; [GoodputBps] returns [ERROR_MINRTT_IS_ZERO] exactly when
    [minRtt] is zero. *)
Theorem error_records_are_zero :
  forall totalBytes initCwndPkts mssBytes minRtt totalTime r,
    (Gpeak totalBytes initCwndPkts mssBytes minRtt = Ret r ->
     (status r <> OK -> r = error_rate (status r)) /\
     (minRtt = 0 -> status r = ERROR_MINRTT_IS_ZERO) /\
     (minRtt <> 0 -> status r = OK)) /\
    (GoodputBps totalBytes initCwndPkts mssBytes minRtt totalTime = Ret r ->
     (status r <> OK -> r = error_rate (status r)) /\
     (minRtt = 0 <-> status r = ERROR_MINRTT_IS_ZERO)).
Proof.
  intros tb ic mss rtt tt r. split.
  - unfold Gpeak, assert.
    destruct (Z.eqb_spec rtt 0) as [H0 | H0].
    + intros [= <-]. cbn. intuition congruence.
    + destruct (0 <=? _); [|discriminate].
      destruct (_ <=? _); [|discriminate].
      intros [= <-]. cbn. intuition congruence.
  - unfold GoodputBps, GoodputBps_fuel.
    destruct (Z.eqb_spec rtt 0) as [H0 | H0].
    + intros [= <-]. cbn. intuition congruence.
    + destruct (search tb mss rtt tt 65 (initial ic)) as [st | |];
        [|intros [= <-]; cbn; intuition congruence|discriminate].
      unfold finish, assert.
      destruct (_ <=? cumulativePkts st).
      * destruct (modelTime_above tt st); [|discriminate].
        destruct (remainingTime rtt tt (backtrack st) <=? 0).
        { intros [= <-]. cbn. intuition congruence. }
        destruct (0 <? _); [|discriminate].
        intros [= <-]. cbn. intuition congruence.
      * destruct (remainingTime rtt tt st <=? 0).
        { intros [= <-]. cbn. intuition congruence. }
        destruct (0 <? _); [|discriminate].
        intros [= <-]. cbn. intuition congruence.
Qed.

Lemma error_records_are_zero_witness :
  mkModelRate 0 0 0 0 ERROR_INIT_CWND_SLOWER_THAN_1BPMS
  = error_rate ERROR_INIT_CWND_SLOWER_THAN_1BPMS.
Proof.
  apply (proj1 (proj2 (error_records_are_zero 1 1 1 1000001 5
                         (mkModelRate 0 0 0 0 ERROR_INIT_CWND_SLOWER_THAN_1BPMS))
                  ltac:(vm_compute; reflexivity))).
  discriminate.
Defined.

(** ** How the loop of GoodputBps is left *)

(** The loop runs through the rounds of [state_after] as long as packets
    are left, the rate is not zero and the model time is above
    [totalTime]; it is left at the first round [k] where one of these
    fails: by [break], with the model time of round [k] stored, or at its
    condition. *)
Lemma search_trace :
  forall totalBytes mssBytes minRtt totalTime fuel st st',
    search totalBytes mssBytes minRtt totalTime fuel st = Left st' ->
    exists k, (k <= fuel)%nat /\
      (forall j, (j < k)%nat ->
         let sj := state_after totalBytes mssBytes minRtt j st in
         cumulativePkts sj < xferPkts totalBytes mssBytes /\
         tputBps mssBytes minRtt sj <> 0 /\
         totalTime < modelTimeAt totalBytes mssBytes minRtt sj) /\
      let sk := state_after totalBytes mssBytes minRtt k st in
      ((cumulativePkts sk < xferPkts totalBytes mssBytes /\
        tputBps mssBytes minRtt sk <> 0 /\
        modelTimeAt totalBytes mssBytes minRtt sk <= totalTime /\
        st' = broken totalBytes mssBytes minRtt sk) \/
       (xferPkts totalBytes mssBytes <= cumulativePkts sk /\ st' = sk)).
Proof.
  intros tb mss rtt tt. induction fuel as [|fuel IH]; intros st st'.
  - cbn [search].
    destruct (Z.ltb_spec (cumulativePkts st) (xferPkts tb mss)); [discriminate|].
    intros [= <-]. exists 0%nat. split; [lia|]. split; [intros j Hj; lia|].
    right. split; [assumption|reflexivity].
  - rewrite search_step.
    destruct (Z.ltb_spec (cumulativePkts st) (xferPkts tb mss)) as [Hlt | Hge].
    + destruct (Z.eqb_spec (tputBps mss rtt st) 0) as [|Hrate]; [discriminate|].
      destruct (Z.leb_spec (modelTimeAt tb mss rtt st) tt) as [Hbrk | Hgo].
      * intros [= <-]. exists 0%nat. split; [lia|]. split; [intros j Hj; lia|].
        left. repeat split; assumption.
      * intros Hs. destruct (IH _ _ Hs) as (k & Hk & Hbefore & Hat).
        exists (S k). split; [lia|]. split.
        -- intros [|j] Hj; cbn [state_after].
           ++ repeat split; assumption.
           ++ apply Hbefore. lia.
        -- exact Hat.
    + intros [= <-]. exists 0%nat. split; [lia|]. split; [intros j Hj; lia|].
      right. split; [assumption|reflexivity].
Qed.

(** The round counter after [j] rounds. *)
Lemma rtts_state_after :
  forall totalBytes mssBytes minRtt j st,
    0 <= rtts st -> rtts st + Z.of_nat j < 2 ^ 63 ->
    rtts (state_after totalBytes mssBytes minRtt j st) = rtts st + Z.of_nat j.
Proof.
  intros tb mss rtt. induction j as [|j IH]; intros st H0 Hj.
  - cbn [state_after]. lia.
  - cbn [state_after]. rewrite IH.
    + unfold advance; cbn [rtts]. rewrite s64_small; lia.
    + unfold advance; cbn [rtts]. rewrite s64_small; lia.
    + unfold advance; cbn [rtts]. rewrite s64_small; lia.
Qed.

(** An [OK] record carries the round counter of the locals after the
    backtrack, and a backtrack is preceded by the assertion on the model
    time. *)
Lemma finish_rounds :
  forall totalBytes mssBytes minRtt totalTime st r,
    finish totalBytes mssBytes minRtt totalTime st = Ret r ->
    status r = OK ->
    rttsInSlowStart r = Int.u32 (rtts (settled totalBytes mssBytes st)) /\
    lastFullCwndPkts r = Int.u64 (cwnd (settled totalBytes mssBytes st)) /\
    (xferPkts totalBytes mssBytes <= cumulativePkts st ->
     modelTime_above totalTime st = true).
Proof.
  intros tb mss rtt tt st r. unfold finish, settled, assert.
  destruct (Z.leb_spec (xferPkts tb mss) (cumulativePkts st)) as [Hge | Hlt].
  - destruct (modelTime_above tt st); [|discriminate].
    destruct (remainingTime rtt tt (backtrack st) <=? 0);
      [intros [= <-]; discriminate|].
    destruct (0 <? _); [|discriminate].
    intros [= <-] _. cbn. repeat split; reflexivity.
  - destruct (remainingTime rtt tt st <=? 0); [intros [= <-]; discriminate|].
    destruct (0 <? _); [|discriminate].
    intros [= <-] _. cbn. repeat split; try reflexivity. lia.
Qed.

(** The round counter that an [OK] record of a run leaving the loop in
    round [k] carries: [k] after a [break], [k - 1] after the backtrack. *)
Lemma rounds_after_trace :
  forall totalBytes initCwndPkts mssBytes minRtt totalTime st r k,
    (k <= 65)%nat ->
    finish totalBytes mssBytes minRtt totalTime st = Ret r ->
    status r = OK ->
    let sk := state_after totalBytes mssBytes minRtt k (initial initCwndPkts) in
    ((cumulativePkts sk < xferPkts totalBytes mssBytes /\
      st = broken totalBytes mssBytes minRtt sk) ->
     rttsInSlowStart r = Z.of_nat k) /\
    ((xferPkts totalBytes mssBytes <= cumulativePkts sk /\ st = sk) ->
     (0 < k)%nat /\ rttsInSlowStart r = Z.of_nat k - 1).
Proof.
  intros tb ic mss rtt tt st r k Hk Hf Hok sk.
  destruct (finish_rounds tb mss rtt tt st r Hf Hok) as (Hr & _ & Habove).
  assert (Hrk : rtts sk = Z.of_nat k).
  { unfold sk. rewrite rtts_state_after; cbn [initial rtts]; lia. }
  assert (Hu32 : forall x, 0 <= x <= 65 -> Int.u32 x = x).
  { intros x Hx. unfold Int.u32, Int.wrap_u. apply Z.mod_small.
    change (2 ^ 32) with 4294967296. lia. }
  split.
  - intros (Hlt & ->). rewrite Hr. unfold settled, broken; cbn [cumulativePkts].
    destruct (Z.leb_spec (xferPkts tb mss) (cumulativePkts sk)); [lia|].
    cbn [rtts]. rewrite Hrk. apply Hu32. lia.
  - intros (Hge & ->). specialize (Habove Hge).
    assert (Hpos : (0 < k)%nat).
    { destruct k as [|k]; [exfalso|lia].
      unfold sk in Habove. cbn in Habove. discriminate. }
    split; [exact Hpos|]. rewrite Hr. unfold settled.
    destruct (Z.leb_spec (xferPkts tb mss) (cumulativePkts sk)); [|lia].
    unfold backtrack; cbn [rtts]. rewrite Hrk.
    rewrite s64_small by (change (2 ^ 63) with 9223372036854775808; lia).
    apply Hu32. lia.
Qed.

(** X4.  More observed time never gives more rounds: when [GoodputBps]
    returns [OK] for two observed times on the same transfer, the longer
    time has at most as many rounds in slow start as the shorter. *)
Theorem GoodputBps_rounds_antitone :
  forall totalBytes initCwndPkts mssBytes minRtt totalTime totalTime' r r',
    totalTime <= totalTime' ->
    GoodputBps totalBytes initCwndPkts mssBytes minRtt totalTime = Ret r ->
    GoodputBps totalBytes initCwndPkts mssBytes minRtt totalTime' = Ret r' ->
    status r = OK -> status r' = OK ->
    rttsInSlowStart r' <= rttsInSlowStart r.
Proof.
  intros tb ic mss rtt tt tt' r r' Hle. unfold GoodputBps, GoodputBps_fuel.
  destruct (rtt =? 0); [intros [= <-]; discriminate|].
  destruct (search tb mss rtt tt 65 (initial ic)) as [s | |] eqn:Hs;
    [|intros [= <-]; discriminate|discriminate].
  destruct (search tb mss rtt tt' 65 (initial ic)) as [s' | |] eqn:Hs';
    [|intros _ [= <-]; discriminate|discriminate].
  intros Hf Hf' Hok Hok'.
  destruct (search_trace _ _ _ _ _ _ _ Hs) as (k & Hk & Hbefore & Hat).
  destruct (search_trace _ _ _ _ _ _ _ Hs') as (k' & Hk' & Hbefore' & Hat').
  cbv zeta in *.
  destruct (rounds_after_trace tb ic mss rtt tt s r k Hk Hf Hok) as (Hb & He).
  destruct (rounds_after_trace tb ic mss rtt tt' s' r' k' Hk' Hf' Hok')
    as (Hb' & He').
  assert (Hkk : (k' <= k)%nat).
  { destruct (Nat.le_gt_cases k' k) as [|Hgt]; [assumption|exfalso].
    destruct (Hbefore' k Hgt) as (Hc & _ & Ht).
    destruct Hat as [(_ & _ & Hm & _) | (Hge & _)]; lia. }
  destruct Hat as [(Hc & _ & _ & Hst) | (Hge & Hst)];
    destruct Hat' as [(Hc' & _ & _ & Hst') | (Hge' & Hst')].
  - rewrite (Hb (conj Hc Hst)), (Hb' (conj Hc' Hst')). lia.
  - destruct (He' (conj Hge' Hst')) as (_ & ->).
    rewrite (Hb (conj Hc Hst)). lia.
  - destruct (He (conj Hge Hst)) as (_ & ->).
    rewrite (Hb' (conj Hc' Hst')).
    assert (k' <> k) by (intros ->; lia). lia.
  - destruct (He (conj Hge Hst)) as (_ & ->).
    destruct (He' (conj Hge' Hst')) as (_ & ->). lia.
Qed.

Lemma GoodputBps_rounds_antitone_witness :
  rttsInSlowStart (mkModelRate 25249888 6 345 640 OK)
  <= rttsInSlowStart (mkModelRate 58264428 7 798 1280 OK).
Proof.
  apply (GoodputBps_rounds_antitone 10000000 10 1460 20000 300000 500000).
  - lia.
  - vm_compute; reflexivity.
  - vm_compute; reflexivity.
  - reflexivity.
  - reflexivity.
Defined.

(** ** GoodputBps on the doubling schedule *)

Section OnSchedule.

Variables totalBytes initCwndPkts mssBytes minRtt totalTime : Z.

Let xfer : Z := xferPkts totalBytes mssBytes.

Hypothesis window_fits : 0 < initCwndPkts < 2 ^ 63.
Hypothesis no_overflow : initCwndPkts + xfer <= 2 ^ 62.

(** The rounds the loop runs through are those of the schedule. *)
Lemma trace_doubling :
  forall k,
    (forall j, (j < k)%nat ->
       cumulativePkts (state_after totalBytes mssBytes minRtt j
                         (initial initCwndPkts)) < xfer) ->
    doubling initCwndPkts k
      (state_after totalBytes mssBytes minRtt k (initial initCwndPkts)).
Proof.
  intros k Hk.
  apply (doubling_state_after totalBytes initCwndPkts mssBytes minRtt
           window_fits no_overflow k 0 (initial initCwndPkts)).
  - apply (doubling_initial totalBytes initCwndPkts mssBytes window_fits).
  - exact Hk.
Qed.

(** The code after the loop and its backtrack, on locals that are those
    of round [n] of the schedule: no assertion fires, and an [OK] record
    carries [n] and the window of round [n]. *)
Lemma finish_tail :
  forall (n : nat) st,
    rtts st = Z.of_nat n -> Z.of_nat n < 62 ->
    cwnd st = initCwndPkts * 2 ^ Z.of_nat n ->
    cumulativePkts st = initCwndPkts * (2 ^ Z.of_nat n - 1) ->
    cumulativePkts st < xfer ->
    exists r,
      (if remainingTime minRtt totalTime st <=? 0
       then Ret (error_rate ERROR_TRANSFER_FASTER_THAN_MODEL)
       else
         assert (0 <? remainingPkts totalBytes mssBytes st)
           (Ret (mkModelRate
                   (Int.u32 (achievedBps totalBytes mssBytes minRtt totalTime st))
                   (Int.u32 (rtts st))
                   (Int.u64 (projected totalBytes mssBytes minRtt totalTime st))
                   (Int.u64 (cwnd st)) OK))) = Ret r /\
      (status r = OK ->
       0 < remainingTime minRtt totalTime st /\
       0 < remainingPkts totalBytes mssBytes st /\
       r = mkModelRate
             (Int.u32 (achievedBps totalBytes mssBytes minRtt totalTime st))
             (Z.of_nat n)
             (Int.u64 (projected totalBytes mssBytes minRtt totalTime st))
             (initCwndPkts * 2 ^ Z.of_nat n) OK) /\
      (0 < remainingTime minRtt totalTime st -> status r = OK).
Proof.
  intros n st Hr Hn Hw Hc Hlt.
  destruct (Z.leb_spec (remainingTime minRtt totalTime st) 0) as [|Hrem].
  - eexists. split; [reflexivity|]. cbn. split; [discriminate|lia].
  - assert (Hp : 1 <= 2 ^ Z.of_nat n) by (apply Z.lt_pred_le, pow2_pos; lia).
    change (2 ^ 62) with 4611686018427387904 in *.
    change (2 ^ 63) with 9223372036854775808 in *.
    assert (Hcw : cumulativePkts st = cwnd st - initCwndPkts)
      by (rewrite Hw, Hc; ring).
    assert (H0 : 0 <= cumulativePkts st) by (rewrite Hc; nia).
    assert (Hpk : 0 < remainingPkts totalBytes mssBytes st).
    { unfold remainingPkts. fold xfer.
      rewrite (s64_small (xfer - cumulativePkts st))
        by (change (2 ^ 63) with 9223372036854775808; lia).
      rewrite s64_small by (change (2 ^ 63) with 9223372036854775808; lia).
      lia. }
    pose proof Hpk as Hpk'.
    apply Z.ltb_lt in Hpk. rewrite Hpk. unfold assert.
    eexists. split; [reflexivity|]. split; [|reflexivity]. intros _.
    split; [exact Hrem|]. split; [exact Hpk'|]. f_equal.
    + rewrite Hr. unfold Int.u32, Int.wrap_u. apply Z.mod_small.
      change (2 ^ 32) with 4294967296. lia.
    + rewrite <- Hw. apply u64_small.
      change (2 ^ 64) with 18446744073709551616. lia.
Qed.

Hypothesis some_packets : 0 < xfer.
Hypothesis rtt_nonzero : minRtt <> 0.

(** On the schedule [GoodputBps] returns a record, and an [OK] record
    is computed from locals that are those of a round [n] of the
    schedule. *)
Lemma GoodputBps_schedule :
  exists r,
    GoodputBps totalBytes initCwndPkts mssBytes minRtt totalTime = Ret r /\
    (status r = OK ->
     exists (n : nat) st,
       Z.of_nat n < 62 /\
       rtts st = Z.of_nat n /\
       cumulativePkts st = initCwndPkts * (2 ^ Z.of_nat n - 1) /\
       initCwndPkts * (2 ^ Z.of_nat n - 1) < xfer /\
       0 < remainingTime minRtt totalTime st /\
       0 < remainingPkts totalBytes mssBytes st /\
       r = mkModelRate
             (Int.u32 (achievedBps totalBytes mssBytes minRtt totalTime st))
             (Z.of_nat n)
             (Int.u64 (projected totalBytes mssBytes minRtt totalTime st))
             (initCwndPkts * 2 ^ Z.of_nat n) OK).
Proof.
  unfold GoodputBps, GoodputBps_fuel.
  destruct (Z.eqb_spec minRtt 0) as [|_]; [contradiction|].
  destruct (search totalBytes mssBytes minRtt totalTime 65 (initial initCwndPkts))
    as [s | |] eqn:Hs.
  - destruct (search_trace _ _ _ _ _ _ _ Hs) as (k & Hk & Hbefore & Hat).
    cbv zeta in Hbefore, Hat. fold xfer in Hbefore, Hat.
    pose proof (trace_doubling k (fun j Hj => proj1 (Hbefore j Hj))) as Hd.
    set (sk := state_after totalBytes mssBytes minRtt k (initial initCwndPkts)) in *.
    unfold finish. fold xfer.
    destruct Hat as [(Hc & _ & _ & ->) | (Hge & ->)].
    + (* left by break in round k *)
      unfold broken at 1; cbn [cumulativePkts].
      destruct (Z.leb_spec xfer (cumulativePkts sk)); [lia|].
      destruct Hd as (Hdr & Hdw & Hdc).
      destruct (doubling_window_bound totalBytes initCwndPkts mssBytes
                  window_fits no_overflow k sk (conj Hdr (conj Hdw Hdc)) Hc)
        as (_ & Hk62).
      destruct (finish_tail k (broken totalBytes mssBytes minRtt sk)
                  Hdr Hk62 Hdw Hdc Hc) as (r & Hr & Hok & _).
      exists r. split; [exact Hr|]. intros Hst.
      exists k, (broken totalBytes mssBytes minRtt sk).
      destruct (Hok Hst) as (H1 & H2 & H3).
      repeat split; try assumption. rewrite <- Hdc. exact Hc.
    + (* left at the loop condition after round k - 1 *)
      destruct (Z.leb_spec xfer (cumulativePkts sk)); [|lia].
      destruct k as [|n].
      { exfalso. unfold sk in Hge. cbn in Hge. lia. }
      destruct (Hbefore n ltac:(lia)) as (Hcn & _ & Htn).
      pose proof (trace_doubling n
                    (fun j Hj => proj1 (Hbefore j ltac:(lia)))) as Hdn.
      set (sn := state_after totalBytes mssBytes minRtt n (initial initCwndPkts)) in *.
      assert (Hsk : sk = advance totalBytes mssBytes minRtt sn)
        by (unfold sk, sn; apply state_after_succ).
      assert (Habove : modelTime_above totalTime sk = true).
      { rewrite Hsk. unfold modelTime_above, advance; cbn [modelTime].
        apply Z.ltb_lt. exact Htn. }
      rewrite Habove. unfold assert.
      destruct (doubling_window_bound totalBytes initCwndPkts mssBytes
                  window_fits no_overflow n sn Hdn Hcn) as (Hwn & Hn62).
      destruct Hdn as (Hnr & Hnw & Hnc). destruct Hd as (Hdr & Hdw & Hdc).
      assert (Hp : 1 <= 2 ^ Z.of_nat n) by (apply Z.lt_pred_le, pow2_pos; lia).
      assert (Hsucc : 2 ^ Z.of_nat (S n) = 2 ^ Z.of_nat n * 2)
        by (rewrite Nat2Z.inj_succ, Z.pow_succ_r by lia; ring).
      assert (Hhalf : Z.shiftr (cwnd sk) 1 = initCwndPkts * 2 ^ Z.of_nat n).
      { rewrite Z.shiftr_div_pow2 by lia. rewrite Hdw, Hsucc.
        change (2 ^ 1) with 2. rewrite Z.mul_assoc, Z.div_mul by lia.
        reflexivity. }
      change (2 ^ 62) with 4611686018427387904 in *.
      destruct (finish_tail n (backtrack sk)) as (r & Hr & Hok & _).
      * unfold backtrack; cbn [rtts]. rewrite Hdr, s64_small;
          [lia|change (2 ^ 63) with 9223372036854775808; lia].
      * exact Hn62.
      * unfold backtrack; cbn [cwnd]. exact Hhalf.
      * unfold backtrack; cbn [cumulativePkts]. rewrite Hhalf, Hdc, Hsucc.
        rewrite s64_small; [ring|].
        change (2 ^ 63) with 9223372036854775808. nia.
      * unfold backtrack; cbn [cumulativePkts]. rewrite Hhalf, Hdc, Hsucc.
        rewrite s64_small; [rewrite Hnc in Hcn; nia|].
        change (2 ^ 63) with 9223372036854775808. nia.
      * exists r. split; [exact Hr|]. intros Hst. exists n, (backtrack sk).
        destruct (Hok Hst) as (H1 & H2 & H3).
        repeat split; try assumption.
        -- unfold backtrack; cbn [rtts]. rewrite Hdr, s64_small;
             [lia|change (2 ^ 63) with 9223372036854775808; lia].
        -- unfold backtrack; cbn [cumulativePkts]. rewrite Hhalf, Hdc, Hsucc.
           rewrite s64_small; [ring|].
           change (2 ^ 63) with 9223372036854775808. nia.
        -- rewrite <- Hnc. exact Hcn.
  - eexists. split; [reflexivity|]. cbn. discriminate.
  - exfalso.
    apply (search_ends totalBytes mssBytes minRtt totalTime 65 0
             (Int.s64 initCwndPkts) (initial initCwndPkts));
      [lia|lia| |exact Hs].
    cbn [initial cwnd]. change (2 ^ Z.of_nat 0) with 1.
    rewrite Z.mul_1_l. reflexivity.
Qed.

End OnSchedule.

(** X5.  For sizes below 2 ^ 53 bytes, an initial window of at most
    2 ^ 61 packets and a nonzero round-trip time, [GoodputBps] returns a
    record for every observed time: neither assertion fires.  An [OK]
    record reports a number [n] of rounds below 62 for which the [n]
    doubled windows before the last carry fewer packets than the
    transfer, and its last field is the window of round [n]. *)
Theorem GoodputBps_returns :
  forall totalBytes initCwndPkts mssBytes minRtt totalTime,
    0 < totalBytes < 2 ^ 53 -> 0 < mssBytes < 2 ^ 53 ->
    0 < initCwndPkts <= 2 ^ 61 -> minRtt <> 0 ->
    exists r,
      GoodputBps totalBytes initCwndPkts mssBytes minRtt totalTime = Ret r /\
      (status r = OK ->
       exists n : nat,
         Z.of_nat n < 62 /\
         rttsInSlowStart r = Z.of_nat n /\
         lastFullCwndPkts r = initCwndPkts * 2 ^ Z.of_nat n /\
         initCwndPkts * (2 ^ Z.of_nat n - 1) < xferPkts totalBytes mssBytes).
Proof.
  intros tb ic mss rtt tt Htb Hmss Hic Hrtt.
  pose proof (xferPkts_range tb mss Htb Hmss) as Hx.
  change (2 ^ 53) with 9007199254740992 in *.
  change (2 ^ 61) with 2305843009213693952 in *.
  destruct (GoodputBps_schedule tb ic mss rtt tt) as (r & Hr & Hok).
  - change (2 ^ 63) with 9223372036854775808. lia.
  - change (2 ^ 62) with 4611686018427387904. lia.
  - lia.
  - exact Hrtt.
  - exists r. split; [exact Hr|]. intros Hst.
    destruct (Hok Hst) as (n & st & Hn & _ & _ & Hlt & _ & _ & ->).
    exists n. repeat split; assumption.
Qed.

Lemma GoodputBps_returns_witness :
  exists r,
    GoodputBps 10000000 10 1460 20000 300000 = Ret r /\
    (status r = OK ->
     exists n : nat,
       Z.of_nat n < 62 /\
       rttsInSlowStart r = Z.of_nat n /\
       lastFullCwndPkts r = 10 * 2 ^ Z.of_nat n /\
       10 * (2 ^ Z.of_nat n - 1) < xferPkts 10000000 1460).
Proof.
  apply (GoodputBps_returns 10000000 10 1460 20000 300000).
  - vm_compute; split; reflexivity.
  - vm_compute; split; reflexivity.
  - vm_compute; split; [reflexivity|discriminate].
  - discriminate.
Defined.

(** X6.  The rounds that [GoodputBps] infers never exceed the rounds of
    [Gpeak] on the same transfer: with at most 2 ^ 40 packets in the
    transfer and the initial window together, an [OK] record of
    [GoodputBps] has at most the [rttsInSlowStart] of the record [Gpeak]
    returns. *)
Theorem GoodputBps_rounds_below_Gpeak :
  forall totalBytes initCwndPkts mssBytes minRtt totalTime r,
    0 < totalBytes < 2 ^ 53 -> 0 < mssBytes < 2 ^ 53 ->
    0 < initCwndPkts -> minRtt <> 0 ->
    xferPkts totalBytes mssBytes + initCwndPkts <= 2 ^ 40 ->
    GoodputBps totalBytes initCwndPkts mssBytes minRtt totalTime = Ret r ->
    status r = OK ->
    exists g,
      Gpeak totalBytes initCwndPkts mssBytes minRtt = Ret g /\
      status g = OK /\
      rttsInSlowStart r <= rttsInSlowStart g.
Proof.
  intros tb ic mss rtt tt r Htb Hmss Hic Hrtt Hpk Hr Hst.
  pose proof (xferPkts_range tb mss Htb Hmss) as Hx.
  change (2 ^ 40) with 1099511627776 in Hpk.
  destruct (Gpeak_returns tb ic mss rtt Htb Hmss
              ltac:(change (2 ^ 50) with 1125899906842624; lia) Hrtt)
    as (_ & _ & g & Hg & Hsg & Hrg).
  exists g. split; [exact Hg|]. split; [exact Hsg|]. rewrite Hrg.
  destruct (GoodputBps_schedule tb ic mss rtt tt) as (r0 & Hr0 & Hok).
  - change (2 ^ 63) with 9223372036854775808. lia.
  - change (2 ^ 62) with 4611686018427387904. lia.
  - lia.
  - exact Hrtt.
  - rewrite Hr in Hr0. injection Hr0 as <-.
    destruct (Hok Hst) as (n & st & Hn & _ & _ & Hlt & _ & _ & ->).
    cbn [rttsInSlowStart].
    destruct (rttsToLast_exact (xferPkts tb mss) ic ltac:(lia) Hic
                ltac:(change (2 ^ 40) with 1099511627776; lia))
      as (HR & _ & Hhi).
    set (R := rttsToLast (xferPkts tb mss) ic) in *.
    destruct (Z.le_gt_cases (Z.of_nat n) R) as [|Hgt]; [assumption|exfalso].
    assert (Hp : 2 ^ (R + 1) <= 2 ^ Z.of_nat n) by (apply Z.pow_le_mono_r; lia).
    set (x := xferPkts tb mss) in *. clearbody x R.
    clear - Hp Hlt Hhi Hic.
    assert ((2 ^ (R + 1) - 1) * ic <= (2 ^ Z.of_nat n - 1) * ic)
      by (apply Z.mul_le_mono_nonneg_r; lia).
    lia.
Qed.

Lemma GoodputBps_rounds_below_Gpeak_witness :
  exists g,
    Gpeak 10000000 10 1460 20000 = Ret g /\
    status g = OK /\
    rttsInSlowStart (mkModelRate 58264428 7 798 1280 OK) <= rttsInSlowStart g.
Proof.
  apply (GoodputBps_rounds_below_Gpeak 10000000 10 1460 20000 300000).
  - vm_compute; split; reflexivity.
  - vm_compute; split; reflexivity.
  - reflexivity.
  - discriminate.
  - vm_compute; discriminate.
  - vm_compute; reflexivity.
  - reflexivity.
Defined.

(** ** The record of GoodputBps as a closed form *)

(** The loop is left through its [return] in the first round whose rate
    is zero. *)
Lemma search_zero_trace :
  forall totalBytes mssBytes minRtt totalTime fuel st,
    search totalBytes mssBytes minRtt totalTime fuel st = RateIsZero ->
    exists k,
      (forall j, (j < k)%nat ->
         cumulativePkts (state_after totalBytes mssBytes minRtt j st)
         < xferPkts totalBytes mssBytes) /\
      let sk := state_after totalBytes mssBytes minRtt k st in
      cumulativePkts sk < xferPkts totalBytes mssBytes /\
      tputBps mssBytes minRtt sk = 0.
Proof.
  intros tb mss rtt tt. induction fuel as [|fuel IH]; intros st.
  - cbn [search]. destruct (_ <? _); discriminate.
  - rewrite search_step.
    destruct (Z.ltb_spec (cumulativePkts st) (xferPkts tb mss)) as [Hlt | Hge];
      [|discriminate].
    destruct (Z.eqb_spec (tputBps mss rtt st) 0) as [Hz | Hnz].
    + intros _. exists 0%nat. split; [intros j Hj; lia|].
      split; assumption.
    + destruct (_ <=? _); [discriminate|].
      intros Hs. destruct (IH _ Hs) as (k & Hbefore & Hat).
      exists (S k). split; [|exact Hat].
      intros [|j] Hj; cbn [state_after]; [exact Hlt|apply Hbefore; lia].
Qed.

Section Rates.

Variables totalBytes initCwndPkts mssBytes minRtt totalTime : Z.

Let xfer : Z := xferPkts totalBytes mssBytes.

Hypothesis transfer_range : 0 < totalBytes < 2 ^ 53.
Hypothesis segment_range : 0 < mssBytes < 2 ^ 53.
Hypothesis window_positive : 0 < initCwndPkts.
Hypothesis rtt_range : 0 < minRtt <= 2 ^ 55.
Hypothesis bytes_fit : (xfer + initCwndPkts) * mssBytes * MICROS_IN_SEC < 2 ^ 61.

Lemma packets_in_range : 0 < xfer /\ xfer + initCwndPkts < 2 ^ 61.
Proof.
  pose proof (xferPkts_range totalBytes mssBytes transfer_range segment_range)
    as Hx. fold xfer in Hx.
  split; [lia|]. unfold MICROS_IN_SEC in bytes_fit.
  change (2 ^ 61) with 2305843009213693952 in *. nia.
Qed.

(** A product of fewer packets than the transfer and the window have
    together, with the segment size and the microseconds of a second. *)
Lemma bytes_in_range :
  forall q, 0 <= q < xfer + initCwndPkts ->
    0 <= q * mssBytes <= q * mssBytes * MICROS_IN_SEC /\
    q * mssBytes * MICROS_IN_SEC < 2 ^ 61.
Proof.
  intros q Hq. unfold MICROS_IN_SEC in *.
  change (2 ^ 61) with 2305843009213693952 in *.
  assert (0 <= q * mssBytes) by (apply Z.mul_nonneg_nonneg; lia).
  assert (q * mssBytes <= (xfer + initCwndPkts) * mssBytes)
    by (apply Z.mul_le_mono_nonneg_r; lia).
  lia.
Qed.

(** The rate of a window of the schedule is the plain quotient. *)
Lemma window_rate :
  forall w, 0 <= w < xfer + initCwndPkts ->
    rate_of w mssBytes minRtt = w * mssBytes * MICROS_IN_SEC / minRtt.
Proof.
  intros w Hw. destruct (bytes_in_range w Hw) as (H1 & H2).
  apply rate_of_plain; [lia|lia| |].
  - change (2 ^ 61) with 2305843009213693952 in *.
    change (2 ^ 63) with 9223372036854775808. lia.
  - change (2 ^ 55) with 36028797018963968 in *.
    change (2 ^ 63) with 9223372036854775808. lia.
Qed.

Hypothesis time_range : - 2 ^ 62 <= totalTime < 2 ^ 63.

(** The time and the rate left after [n + 1] round trips, for locals of
    round [n] of the schedule. *)
Lemma rate_after :
  forall (n : nat) st,
    rtts st = Z.of_nat n -> Z.of_nat n < 62 ->
    cumulativePkts st = initCwndPkts * (2 ^ Z.of_nat n - 1) ->
    cumulativePkts st < xfer ->
    let P := xfer - initCwndPkts * (2 ^ Z.of_nat n - 1) + Z.of_nat n in
    let T := totalTime - minRtt * (Z.of_nat n + 1) in
    remainingTime minRtt totalTime st = T /\
    (0 < T ->
     let A := P * mssBytes * MICROS_IN_SEC / T in
     achievedBps totalBytes mssBytes minRtt totalTime st = A /\
     0 <= A < 2 ^ 61 /\
     (A * minRtt < 2 ^ 63 ->
      Int.u64 (projected totalBytes mssBytes minRtt totalTime st)
      = A * minRtt / MICROS_IN_SEC / mssBytes)).
Proof.
  intros n st Hr Hn Hc Hlt P T.
  destruct packets_in_range as (Hx0 & Hx61).
  assert (Hp : Z.of_nat n < 2 ^ Z.of_nat n) by (apply Z.pow_gt_lin_r; lia).
  assert (HP : 0 < P < xfer + initCwndPkts) by (unfold P; rewrite Hc in Hlt; nia).
  destruct (bytes_in_range P ltac:(lia)) as (Hb1 & Hb2).
  change (2 ^ 55) with 36028797018963968 in *.
  change (2 ^ 61) with 2305843009213693952 in *.
  change (2 ^ 62) with 4611686018427387904 in *.
  change (2 ^ 63) with 9223372036854775808 in *.
  assert (Hramp : rampTime minRtt (rtts st) = minRtt * (Z.of_nat n + 1)).
  { unfold rampTime. rewrite Hr.
    rewrite (s64_small (Z.of_nat n + 1))
      by (change (2 ^ 63) with 9223372036854775808; lia).
    apply s64_small. change (2 ^ 63) with 9223372036854775808. nia. }
  assert (HT : remainingTime minRtt totalTime st = T).
  { unfold remainingTime. rewrite Hramp. apply s64_small.
    change (2 ^ 63) with 9223372036854775808. unfold T. nia. }
  split; [exact HT|]. intros HTpos. cbv zeta.
  assert (Hpk : remainingPkts totalBytes mssBytes st = P).
  { unfold remainingPkts. fold xfer. rewrite Hc, Hr.
    rewrite (s64_small (xfer - _))
      by (change (2 ^ 63) with 9223372036854775808; rewrite Hc in Hlt; nia).
    apply s64_small. change (2 ^ 63) with 9223372036854775808.
    unfold P in HP. lia. }
  assert (Hby : remainingBytes totalBytes mssBytes st = P * mssBytes).
  { unfold remainingBytes. rewrite Hpk.
    rewrite (u64_small P) by (change (2 ^ 64) with 18446744073709551616; lia).
    rewrite u64_small by (change (2 ^ 64) with 18446744073709551616; lia).
    apply s64_small. change (2 ^ 63) with 9223372036854775808. lia. }
  set (A := P * mssBytes * MICROS_IN_SEC / T).
  assert (HA : 0 <= A <= P * mssBytes * MICROS_IN_SEC).
  { unfold A. split; [apply Z.div_pos; lia|].
    apply Z.div_le_upper_bound; [lia|]. nia. }
  assert (Hach : achievedBps totalBytes mssBytes minRtt totalTime st = A).
  { unfold achievedBps. rewrite Hby, HT.
    rewrite (s64_small (P * mssBytes * MICROS_IN_SEC))
      by (change (2 ^ 63) with 9223372036854775808; lia).
    rewrite Z.quot_div_nonneg by lia. fold A.
    apply s64_small. change (2 ^ 63) with 9223372036854775808. lia. }
  split; [exact Hach|]. split; [lia|]. intros Hbdp.
  unfold projected. rewrite Hach.
  assert (HAr : 0 <= A * minRtt) by (apply Z.mul_nonneg_nonneg; lia).
  rewrite (s64_small (A * minRtt))
    by (change (2 ^ 63) with 9223372036854775808; lia).
  rewrite Z.quot_div_nonneg by (unfold MICROS_IN_SEC; lia).
  assert (Hq : 0 <= A * minRtt / MICROS_IN_SEC <= A * minRtt).
  { split; [apply Z.div_pos; unfold MICROS_IN_SEC; lia|].
    apply Z.div_le_upper_bound; unfold MICROS_IN_SEC; lia. }
  rewrite (s64_small (A * minRtt / MICROS_IN_SEC))
    by (change (2 ^ 63) with 9223372036854775808; lia).
  rewrite (u64_small (A * minRtt / MICROS_IN_SEC))
    by (change (2 ^ 64) with 18446744073709551616; lia).
  assert (Hq2 : 0 <= A * minRtt / MICROS_IN_SEC / mssBytes
                <= A * minRtt / MICROS_IN_SEC).
  { split; [apply Z.div_pos; lia|]. apply Z.div_le_upper_bound; [lia|].
    set (Q := A * minRtt / MICROS_IN_SEC) in *. clearbody Q.
    clear - Hq segment_range. nia. }
  rewrite s64_small by (change (2 ^ 63) with 9223372036854775808; lia).
  apply u64_small. change (2 ^ 64) with 18446744073709551616. lia.
Qed.

End Rates.

(** X7.  While the byte counts stay in range, an [OK] record of
    [GoodputBps] is a closed form of the rounds [n] it reports: the
    [n + 1] round trips are over before the observed time, the rate is
    that of the packets not sent in the [n] doubled windows, plus one
    packet for each round, over the time left (the field holds it modulo
    2 ^ 32), the last field is the window of round [n], and the projected
    window is the rate times the round-trip time in packets when that
    product fits [int64_t]. *)
Theorem GoodputBps_closed_form :
  forall totalBytes initCwndPkts mssBytes minRtt totalTime r,
    let xfer := xferPkts totalBytes mssBytes in
    0 < totalBytes < 2 ^ 53 -> 0 < mssBytes < 2 ^ 53 ->
    0 < initCwndPkts -> 0 < minRtt <= 2 ^ 55 ->
    (xfer + initCwndPkts) * mssBytes * MICROS_IN_SEC < 2 ^ 61 ->
    - 2 ^ 62 <= totalTime < 2 ^ 63 ->
    GoodputBps totalBytes initCwndPkts mssBytes minRtt totalTime = Ret r ->
    status r = OK ->
    exists n : nat,
      let P := xfer - initCwndPkts * (2 ^ Z.of_nat n - 1) + Z.of_nat n in
      let T := totalTime - minRtt * (Z.of_nat n + 1) in
      let A := P * mssBytes * MICROS_IN_SEC / T in
      initCwndPkts * (2 ^ Z.of_nat n - 1) < xfer /\ 0 < T /\
      rttsInSlowStart r = Z.of_nat n /\
      lastFullCwndPkts r = initCwndPkts * 2 ^ Z.of_nat n /\
      bytesPerSec r = A mod 2 ^ 32 /\
      (A * minRtt < 2 ^ 63 ->
       projectedCwndPkts r = A * minRtt / MICROS_IN_SEC / mssBytes).
Proof.
  intros tb ic mss rtt tt r xfer Htb Hmss Hic Hrtt Hfit Htt Hr Hst.
  destruct (packets_in_range tb ic mss Htb Hmss Hic Hfit) as (Hx0 & Hx61).
  fold xfer in Hx0, Hx61.
  change (2 ^ 61) with 2305843009213693952 in Hx61.
  destruct (GoodputBps_schedule tb ic mss rtt tt) as (r0 & Hr0 & Hok).
  - change (2 ^ 63) with 9223372036854775808. lia.
  - fold xfer. change (2 ^ 62) with 4611686018427387904. lia.
  - exact Hx0.
  - lia.
  - rewrite Hr in Hr0. injection Hr0 as <-.
    destruct (Hok Hst) as (n & st & Hn & Hrt & Hc & Hlt & Hrem & _ & ->).
    fold xfer in Hlt.
    destruct (rate_after tb ic mss rtt tt Htb Hmss Hic Hrtt Hfit Htt n st
                Hrt Hn Hc ltac:(rewrite Hc; exact Hlt)) as (HT & Hrate).
    fold xfer in HT, Hrate. cbv zeta in HT, Hrate.
    rewrite HT in Hrem. destruct (Hrate Hrem) as (HA & _ & Hproj).
    exists n. cbv zeta. cbn [rttsInSlowStart lastFullCwndPkts bytesPerSec
                              projectedCwndPkts].
    repeat split; try assumption; try reflexivity.
    rewrite HA. reflexivity.
Qed.

Lemma GoodputBps_closed_form_witness :
  exists n : nat,
    let P := xferPkts 10000000 1460 - 10 * (2 ^ Z.of_nat n - 1) + Z.of_nat n in
    let T := 300000 - 20000 * (Z.of_nat n + 1) in
    let A := P * 1460 * MICROS_IN_SEC / T in
    10 * (2 ^ Z.of_nat n - 1) < xferPkts 10000000 1460 /\ 0 < T /\
    rttsInSlowStart (mkModelRate 58264428 7 798 1280 OK) = Z.of_nat n /\
    lastFullCwndPkts (mkModelRate 58264428 7 798 1280 OK) = 10 * 2 ^ Z.of_nat n /\
    bytesPerSec (mkModelRate 58264428 7 798 1280 OK) = A mod 2 ^ 32 /\
    (A * 20000 < 2 ^ 63 ->
     projectedCwndPkts (mkModelRate 58264428 7 798 1280 OK)
     = A * 20000 / MICROS_IN_SEC / 1460).
Proof.
  apply (GoodputBps_closed_form 10000000 10 1460 20000 300000).
  - vm_compute; split; reflexivity.
  - vm_compute; split; reflexivity.
  - reflexivity.
  - vm_compute; split; [reflexivity|discriminate].
  - vm_compute; reflexivity.
  - vm_compute; split; [discriminate|reflexivity].
  - vm_compute; reflexivity.
  - reflexivity.
Defined.

(** X8.  While the byte counts stay in range, [GoodputBps] reports
    [ERROR_INIT_CWND_SLOWER_THAN_1BPMS] exactly when the initial window
    sends less than one byte per second, that is when
    [initCwndPkts * mssBytes * 10 ^ 6 < minRtt]: with a nonzero initial
    rate no later round has a zero rate. *)
Theorem GoodputBps_slow_window :
  forall totalBytes initCwndPkts mssBytes minRtt totalTime r,
    0 < totalBytes < 2 ^ 53 -> 0 < mssBytes < 2 ^ 53 ->
    0 < initCwndPkts -> 0 < minRtt <= 2 ^ 55 ->
    (xferPkts totalBytes mssBytes + initCwndPkts) * mssBytes * MICROS_IN_SEC
      < 2 ^ 61 ->
    GoodputBps totalBytes initCwndPkts mssBytes minRtt totalTime = Ret r ->
    (status r = ERROR_INIT_CWND_SLOWER_THAN_1BPMS <->
     initCwndPkts * mssBytes * MICROS_IN_SEC < minRtt).
Proof.
  intros tb ic mss rtt tt r Htb Hmss Hic Hrtt Hfit.
  destruct (packets_in_range tb ic mss Htb Hmss Hic Hfit) as (Hx0 & Hx61).
  change (2 ^ 61) with 2305843009213693952 in Hx61.
  assert (Hwin : 0 < ic < 2 ^ 63)
    by (change (2 ^ 63) with 9223372036854775808; lia).
  assert (Hov : ic + xferPkts tb mss <= 2 ^ 62)
    by (change (2 ^ 62) with 4611686018427387904; lia).
  assert (Hnum : 0 <= ic * mss * MICROS_IN_SEC)
    by (unfold MICROS_IN_SEC; nia).
  assert (Hinit : tputBps mss rtt (initial ic) = ic * mss * MICROS_IN_SEC / rtt).
  { unfold tputBps, initial; cbn [cwnd].
    rewrite s64_small by (change (2 ^ 63) with 9223372036854775808; lia).
    apply (window_rate tb ic mss rtt Hmss Hrtt Hfit). lia. }
  unfold GoodputBps, GoodputBps_fuel.
  destruct (Z.eqb_spec rtt 0) as [|_]; [lia|].
  destruct (search tb mss rtt tt 65 (initial ic)) as [s | |] eqn:Hs.
  - (* the loop was left: no round had a zero rate *)
    intros Hf. split.
    + intros Hst. exfalso. revert Hf Hst. unfold finish, assert.
      destruct (_ <=? cumulativePkts s).
      * destruct (modelTime_above tt s); [|discriminate].
        destruct (_ <=? 0); [intros [= <-]; discriminate|].
        destruct (0 <? _); [intros [= <-]|]; discriminate.
      * destruct (_ <=? 0); [intros [= <-]; discriminate|].
        destruct (0 <? _); [intros [= <-]|]; discriminate.
    + intros Hslow. exfalso.
      change 65%nat with (S 64) in Hs. rewrite search_step in Hs.
      cbn [initial cumulativePkts] in Hs.
      destruct (Z.ltb_spec 0 (xferPkts tb mss)); [|lia].
      change (mkState 0 0 (Int.s64 ic) None) with (initial ic) in Hs.
      rewrite Hinit, Z.div_small in Hs by lia. discriminate.
  - intros [= <-]. cbn [status error_rate]. split; [intros _|reflexivity].
    destruct (search_zero_trace _ _ _ _ _ _ Hs) as (k & Hbefore & Hc & Hz).
    pose proof (trace_doubling tb ic mss rtt Hwin Hov k Hbefore)
      as (Hdr & Hdw & Hdc).
    set (sk := state_after tb mss rtt k (initial ic)) in *.
    assert (Hp : 1 <= 2 ^ Z.of_nat k) by (apply Z.lt_pred_le, pow2_pos; lia).
    assert (Hw : ic <= cwnd sk < xferPkts tb mss + ic) by (rewrite Hdw; nia).
    unfold tputBps in Hz.
    rewrite (window_rate tb ic mss rtt Hmss Hrtt Hfit) in Hz by lia.
    destruct (Z.lt_ge_cases (ic * mss * MICROS_IN_SEC) rtt) as [|Hge];
      [assumption|exfalso].
    assert (rtt <= cwnd sk * mss * MICROS_IN_SEC)
      by (unfold MICROS_IN_SEC in *; nia).
    assert (1 <= cwnd sk * mss * MICROS_IN_SEC / rtt)
      by (apply Z.div_le_lower_bound; lia).
    lia.
  - discriminate.
Qed.

Lemma GoodputBps_slow_window_witness :
  status (mkModelRate 0 0 0 0 ERROR_INIT_CWND_SLOWER_THAN_1BPMS)
    = ERROR_INIT_CWND_SLOWER_THAN_1BPMS <->
  1 * 1 * MICROS_IN_SEC < 1000001.
Proof.
  apply (GoodputBps_slow_window 1 1 1 1000001 5).
  - vm_compute; split; reflexivity.
  - vm_compute; split; reflexivity.
  - reflexivity.
  - vm_compute; split; [reflexivity|discriminate].
  - vm_compute; reflexivity.
  - vm_compute; reflexivity.
Defined.

(** ** The packet count and the rounds in integers *)

(** X9.  The packet count of both functions, computed in [double], is
    the integer ceiling of [totalBytes / mssBytes] for sizes below
    2 ^ 53; one byte above 2 ^ 53 the conversion to [double] already
    loses the last byte. *)
Theorem xferPkts_is_ceiling :
  (forall totalBytes mssBytes,
      0 < totalBytes < 2 ^ 53 -> 0 < mssBytes < 2 ^ 53 ->
      xferPkts totalBytes mssBytes = (totalBytes + mssBytes - 1) / mssBytes) /\
  xferPkts (2 ^ 53 + 1) 1 = 2 ^ 53.
Proof.
  split; [|vm_compute; reflexivity].
  intros tb mss Htb Hmss.
  pose proof (xferPkts_ceiling tb mss Htb Hmss) as Hc.
  set (x := xferPkts tb mss) in *. clearbody x.
  apply Z.div_unique with (r := tb + mss - 1 - mss * x); nia.
Qed.

Lemma xferPkts_is_ceiling_witness :
  xferPkts 10000000 1460 = (10000000 + 1460 - 1) / 1460.
Proof.
  apply (proj1 xferPkts_is_ceiling).
  - vm_compute; split; reflexivity.
  - vm_compute; split; reflexivity.
Defined.

(** X10.  With at most 2 ^ 40 packets in the transfer and the initial
    window together, the rounds that [Gpeak] computes through
    [std::log2] and [std::ceil] are the integer logarithm
    [log2 ((xferPkts - 1) / initCwndPkts + 1)]. *)
Theorem Gpeak_rounds_log2 :
  forall totalBytes initCwndPkts mssBytes minRtt,
    let xfer := xferPkts totalBytes mssBytes in
    0 < totalBytes < 2 ^ 53 -> 0 < mssBytes < 2 ^ 53 ->
    0 < initCwndPkts -> minRtt <> 0 ->
    xfer + initCwndPkts <= 2 ^ 40 ->
    exists g,
      Gpeak totalBytes initCwndPkts mssBytes minRtt = Ret g /\
      status g = OK /\
      rttsInSlowStart g = Z.log2 ((xfer - 1) / initCwndPkts + 1).
Proof.
  intros tb ic mss rtt xfer Htb Hmss Hic Hrtt Hpk.
  pose proof (xferPkts_range tb mss Htb Hmss) as Hx. fold xfer in Hx.
  change (2 ^ 40) with 1099511627776 in Hpk.
  destruct (Gpeak_returns tb ic mss rtt Htb Hmss
              ltac:(change (2 ^ 50) with 1125899906842624; lia) Hrtt)
    as (_ & _ & g & Hg & Hsg & Hrg).
  exists g. split; [exact Hg|]. split; [exact Hsg|]. rewrite Hrg. fold xfer.
  destruct (rttsToLast_exact xfer ic ltac:(lia) Hic
              ltac:(change (2 ^ 40) with 1099511627776; lia))
    as (Hr & Hlo & Hhi).
  set (r := rttsToLast xfer ic) in *. clearbody r.
  assert (Hpr : 0 < 2 ^ r) by (apply pow2_pos; lia).
  assert (Hsucc : 2 ^ Z.succ r = 2 * 2 ^ r) by (apply Z.pow_succ_r; lia).
  replace (r + 1) with (Z.succ r) in Hhi by lia. rewrite Hsucc in Hhi.
  symmetry. apply Z.log2_unique; [lia|]. rewrite Hsucc.
  set (q := (xfer - 1) / ic).
  assert (Hq : ic * q <= xfer - 1 < ic * (q + 1)).
  { unfold q. split; [apply Z.mul_div_le; lia|].
    replace (ic * ((xfer - 1) / ic + 1)) with (ic * Z.succ ((xfer - 1) / ic))
      by lia.
    apply Z.mul_succ_div_gt. lia. }
  clearbody q. split; nia.
Qed.

Lemma Gpeak_rounds_log2_witness :
  exists g,
    Gpeak 10000000 10 1460 20000 = Ret g /\
    status g = OK /\
    rttsInSlowStart g = Z.log2 ((xferPkts 10000000 1460 - 1) / 10 + 1).
Proof.
  apply (Gpeak_rounds_log2 10000000 10 1460 20000).
  - vm_compute; split; reflexivity.
  - vm_compute; split; reflexivity.
  - reflexivity.
  - discriminate.
  - vm_compute; discriminate.
Defined.

(** ** A transfer no faster than the initial window *)

(** X11.  A transfer whose observed time is at least the model time of
    the initial window, [minRtt] plus the time to send [totalBytes] at the
    rate of [initCwndPkts] packets per round trip, and above [minRtt], is
    given no round in slow start: [GoodputBps] returns [OK] with 0
    rounds, the initial window, and the rate of all the packets over the
    time after the first round trip. *)
Theorem GoodputBps_slow_transfer :
  forall totalBytes initCwndPkts mssBytes minRtt totalTime,
    let xfer := xferPkts totalBytes mssBytes in
    let rate0 := initCwndPkts * mssBytes * MICROS_IN_SEC / minRtt in
    0 < totalBytes < 2 ^ 53 -> 0 < mssBytes < 2 ^ 53 ->
    0 < initCwndPkts -> 0 < minRtt <= 2 ^ 55 ->
    (xfer + initCwndPkts) * mssBytes * MICROS_IN_SEC < 2 ^ 61 ->
    minRtt <= initCwndPkts * mssBytes * MICROS_IN_SEC ->
    minRtt + totalBytes * MICROS_IN_SEC / rate0 <= totalTime ->
    minRtt < totalTime < 2 ^ 63 ->
    exists r,
      GoodputBps totalBytes initCwndPkts mssBytes minRtt totalTime = Ret r /\
      status r = OK /\ rttsInSlowStart r = 0 /\
      lastFullCwndPkts r = initCwndPkts /\
      bytesPerSec r
      = (xfer * mssBytes * MICROS_IN_SEC / (totalTime - minRtt)) mod 2 ^ 32.
Proof.
  intros tb ic mss rtt tt xfer rate0 Htb Hmss Hic Hrtt Hfit Hrate Hmodel Htt.
  pose proof (xferPkts_ceiling tb mss Htb Hmss) as Hceil. fold xfer in Hceil.
  destruct (packets_in_range tb ic mss Htb Hmss Hic Hfit) as (Hx0 & Hx61).
  fold xfer in Hx0, Hx61.
  change (2 ^ 61) with 2305843009213693952 in Hx61.
  assert (Hwin : 0 < ic < 2 ^ 63)
    by (change (2 ^ 63) with 9223372036854775808; lia).
  assert (Hov : ic + xferPkts tb mss <= 2 ^ 62)
    by (fold xfer; change (2 ^ 62) with 4611686018427387904; lia).
  pose proof (doubling_initial tb ic mss Hwin) as Hd0.
  assert (Hc0 : cumulativePkts (initial ic) < xferPkts tb mss)
    by (cbn [initial cumulativePkts]; exact Hx0).
  pose proof (round_values tb ic mss rtt ltac:(lia) Hic ltac:(lia) Hrtt
                Hceil Hfit Hrate 0%nat (initial ic) Hd0 Hc0) as Hv.
  cbv zeta in Hv.
  destruct Hv as (Htput & HT & _ & _ & _ & _ & Hmt & _).
  assert (Hcw : cwnd (initial ic) = ic).
  { cbn [initial cwnd]. apply s64_small.
    change (2 ^ 63) with 9223372036854775808. lia. }
  rewrite Hcw in *. cbn [initial cumulativePkts rtts] in Hmt.
  fold rate0 in Htput, HT, Hmt.
  replace (0 * mss * MICROS_IN_SEC / rate0) with 0 in Hmt
    by (rewrite !Z.mul_0_l, Z.div_0_l; lia).
  replace (tb - 0 * mss) with tb in Hmt by lia.
  assert (Hs : search tb mss rtt tt 65 (initial ic)
               = Left (broken tb mss rtt (initial ic))).
  { apply (search_breaks_at tb mss rtt tt 0 65 (initial ic)).
    - lia.
    - intros j Hj. assert (j = 0%nat) as -> by lia. cbn [state_after].
      split; [exact Hc0|]. rewrite Htput. lia.
    - intros j Hj. lia.
    - cbn [state_after]. change (mkState 0 0 (Int.s64 ic) None) with (initial ic).
      lia. }
  unfold GoodputBps, GoodputBps_fuel.
  destruct (Z.eqb_spec rtt 0) as [|_]; [lia|]. rewrite Hs.
  unfold finish. unfold broken at 1. cbn [cumulativePkts initial].
  destruct (Z.leb_spec (xferPkts tb mss) 0); [lia|].
  destruct Hd0 as (Hr0 & Hw0 & Hcm0).
  destruct (finish_tail tb ic mss rtt tt Hwin Hov 0%nat
              (broken tb mss rtt (initial ic)) Hr0 ltac:(lia) Hw0 Hcm0 Hc0)
    as (r & Hr & Hok & Hpos).
  assert (Htime : - 2 ^ 62 <= tt < 2 ^ 63)
    by (change (2 ^ 62) with 4611686018427387904; lia).
  destruct (rate_after tb ic mss rtt tt Htb Hmss Hic Hrtt Hfit Htime 0%nat
              (broken tb mss rtt (initial ic)) Hr0 ltac:(lia) Hcm0 Hc0)
    as (HT0 & Hach).
  change (Z.of_nat 0) with 0 in HT0, Hach. cbv zeta in HT0, Hach.
  replace (tt - rtt * (0 + 1)) with (tt - rtt) in HT0, Hach by lia.
  replace (xferPkts tb mss - ic * (2 ^ 0 - 1) + 0) with xfer in Hach
    by (fold xfer; change (2 ^ 0) with 1; lia).
  destruct (Hach ltac:(lia)) as (HA & _).
  assert (Hst : status r = OK) by (apply Hpos; lia).
  exists r. split; [exact Hr|]. split; [exact Hst|].
  destruct (Hok Hst) as (_ & _ & ->).
  cbn [rttsInSlowStart lastFullCwndPkts bytesPerSec].
  change (2 ^ Z.of_nat 0) with 1.
  repeat split; [lia|]. rewrite HA. reflexivity.
Qed.

Lemma GoodputBps_slow_transfer_witness :
  exists r,
    GoodputBps 10000000 10 1460 20000 14000000 = Ret r /\
    status r = OK /\ rttsInSlowStart r = 0 /\
    lastFullCwndPkts r = 10 /\
    bytesPerSec r
    = (xferPkts 10000000 1460 * 1460 * MICROS_IN_SEC / (14000000 - 20000))
        mod 2 ^ 32.
Proof.
  apply (GoodputBps_slow_transfer 10000000 10 1460 20000 14000000).
  - vm_compute; split; reflexivity.
  - vm_compute; split; reflexivity.
  - reflexivity.
  - vm_compute; split; [reflexivity|discriminate].
  - vm_compute; reflexivity.
  - vm_compute; discriminate.
  - vm_compute; discriminate.
  - vm_compute; split; reflexivity.
Defined.

(** ** The empty transfer *)

(** A positive integer of 64 bits converts to a positive finite double. *)
Lemma of_Z_positive :
  forall n, 0 < n < 2 ^ 64 -> exists m e, Dbl.of_Z n = S754_finite false m e.
Proof.
  intros n Hn. unfold Dbl.of_Z, Dbl.prec, Dbl.emax.
  pose proof (Zdigits2_bounds n ltac:(lia)) as Hd.
  assert (Hd64 : Zdigits2 n <= 64).
  { destruct (Z.le_gt_cases (Zdigits2 n) 64) as [|Hgt]; [assumption|exfalso].
    assert (2 ^ 64 <= 2 ^ (Zdigits2 n - 1)) by (apply Z.pow_le_mono_r; lia).
    lia. }
  destruct (binary_normalize_pos n 0 ltac:(lia) ltac:(lia) ltac:(lia))
    as (M & E & -> & _).
  unfold finish_round. destruct (M <? 2 ^ 53); eexists; eexists; reflexivity.
Qed.

(** X12.  An empty transfer has no packet, the closed form of the rounds
    gives -1 for it, and [Gpeak] fails its assertion on the rounds instead
    of returning a record, whatever the initial window, the segment size
    and the nonzero round-trip time. *)
Theorem Gpeak_empty_transfer :
  forall initCwndPkts mssBytes minRtt,
    0 < initCwndPkts < 2 ^ 64 -> 0 < mssBytes < 2 ^ 64 -> minRtt <> 0 ->
    xferPkts 0 mssBytes = 0 /\
    rttsToLast 0 initCwndPkts = -1 /\
    Gpeak 0 initCwndPkts mssBytes minRtt = Abort.
Proof.
  intros ic mss rtt Hic Hmss Hrtt.
  destruct (of_Z_positive mss Hmss) as (mm & em & Hm).
  destruct (of_Z_positive ic Hic) as (mi & ei & Hi).
  assert (Hx : xferPkts 0 mss = 0).
  { unfold xferPkts. rewrite Hm. reflexivity. }
  assert (Hr : rttsToLast 0 ic = -1).
  { unfold rttsToLast. rewrite Hi. vm_compute. reflexivity. }
  split; [exact Hx|]. split; [exact Hr|].
  unfold Gpeak. destruct (Z.eqb_spec rtt 0) as [|_]; [contradiction|].
  cbv zeta. rewrite Hx, Hr. reflexivity.
Qed.

Lemma Gpeak_empty_transfer_witness :
  xferPkts 0 1460 = 0 /\ rttsToLast 0 10 = -1 /\ Gpeak 0 10 1460 20000 = Abort.
Proof.
  apply (Gpeak_empty_transfer 10 1460 20000).
  - vm_compute; split; reflexivity.
  - vm_compute; split; reflexivity.
  - discriminate.
Defined.

(** ** The round that GoodputBps selects *)

(** The model time of a round of the schedule, in terms of the inputs. *)
Lemma model_time_of_round :
  forall totalBytes initCwndPkts mssBytes minRtt (j : nat) st,
    0 < totalBytes < 2 ^ 53 -> 0 < mssBytes < 2 ^ 53 ->
    0 < initCwndPkts -> 0 < minRtt <= 2 ^ 55 ->
    (xferPkts totalBytes mssBytes + initCwndPkts) * mssBytes * MICROS_IN_SEC
      < 2 ^ 61 ->
    minRtt <= initCwndPkts * mssBytes * MICROS_IN_SEC ->
    doubling initCwndPkts j st ->
    cumulativePkts st < xferPkts totalBytes mssBytes ->
    let rate := initCwndPkts * 2 ^ Z.of_nat j * mssBytes * MICROS_IN_SEC / minRtt in
    modelTimeAt totalBytes mssBytes minRtt st
    = minRtt * (Z.of_nat j + 1)
      + (totalBytes - initCwndPkts * (2 ^ Z.of_nat j - 1) * mssBytes)
        * MICROS_IN_SEC / rate
      + Z.of_nat j * mssBytes * MICROS_IN_SEC / rate.
Proof.
  intros tb ic mss rtt j st Htb Hmss Hic Hrtt Hfit Hrate Hd Hc rate.
  pose proof (xferPkts_ceiling tb mss Htb Hmss) as Hceil.
  pose proof (round_values tb ic mss rtt ltac:(lia) Hic ltac:(lia) Hrtt
                Hceil Hfit Hrate j st Hd Hc) as Hv.
  cbv zeta in Hv. destruct Hv as (_ & _ & _ & _ & _ & _ & Hmt & _).
  destruct Hd as (Hdr & Hdw & Hdc).
  rewrite Hmt, Hdr, Hdw, Hdc. reflexivity.
Qed.

(** X13.  While the byte counts stay in range and the initial rate is
    not zero, the rounds [n] of an [OK] record of [GoodputBps] are
    selected by the model times of the doubling schedule: the observed
    time is below the model time of every round before [n], and either it
    reaches the model time of round [n], or it is below that too and the
    transfer is complete with the window of round [n]. *)
Theorem GoodputBps_round_selected :
  forall totalBytes initCwndPkts mssBytes minRtt totalTime r,
    let xfer := xferPkts totalBytes mssBytes in
    let model (j : Z) :=
      let rate := initCwndPkts * 2 ^ j * mssBytes * MICROS_IN_SEC / minRtt in
      minRtt * (j + 1)
      + (totalBytes - initCwndPkts * (2 ^ j - 1) * mssBytes)
        * MICROS_IN_SEC / rate
      + j * mssBytes * MICROS_IN_SEC / rate in
    0 < totalBytes < 2 ^ 53 -> 0 < mssBytes < 2 ^ 53 ->
    0 < initCwndPkts -> 0 < minRtt <= 2 ^ 55 ->
    (xfer + initCwndPkts) * mssBytes * MICROS_IN_SEC < 2 ^ 61 ->
    minRtt <= initCwndPkts * mssBytes * MICROS_IN_SEC ->
    GoodputBps totalBytes initCwndPkts mssBytes minRtt totalTime = Ret r ->
    status r = OK ->
    exists n : nat,
      rttsInSlowStart r = Z.of_nat n /\
      (forall j : nat, (j < n)%nat -> totalTime < model (Z.of_nat j)) /\
      (model (Z.of_nat n) <= totalTime \/
       (totalTime < model (Z.of_nat n) /\
        xfer <= initCwndPkts * (2 ^ (Z.of_nat n + 1) - 1))).
Proof.
  intros tb ic mss rtt tt r xfer model Htb Hmss Hic Hrtt Hfit Hrate.
  destruct (packets_in_range tb ic mss Htb Hmss Hic Hfit) as (Hx0 & Hx61).
  change (2 ^ 61) with 2305843009213693952 in Hx61.
  assert (Hwin : 0 < ic < 2 ^ 63)
    by (change (2 ^ 63) with 9223372036854775808; lia).
  assert (Hov : ic + xferPkts tb mss <= 2 ^ 62)
    by (change (2 ^ 62) with 4611686018427387904; lia).
  unfold GoodputBps, GoodputBps_fuel.
  destruct (rtt =? 0); [intros [= <-]; discriminate|].
  destruct (search tb mss rtt tt 65 (initial ic)) as [s | |] eqn:Hs;
    [|intros [= <-]; discriminate|discriminate].
  intros Hf Hok.
  destruct (search_trace _ _ _ _ _ _ _ Hs) as (k & Hk & Hbefore & Hat).
  cbv zeta in Hbefore, Hat.
  destruct (rounds_after_trace tb ic mss rtt tt s r k Hk Hf Hok) as (Hb & He).
  cbv zeta in Hb, He.
  assert (Hmodel : forall j, (j <= k)%nat ->
            cumulativePkts (state_after tb mss rtt j (initial ic))
              < xferPkts tb mss ->
            modelTimeAt tb mss rtt (state_after tb mss rtt j (initial ic))
            = model (Z.of_nat j)).
  { intros j Hj Hc.
    apply (model_time_of_round tb ic mss rtt j _ Htb Hmss Hic Hrtt Hfit Hrate);
      [|exact Hc].
    apply (trace_doubling tb ic mss rtt Hwin Hov).
    intros i Hi. apply Hbefore. lia. }
  assert (Hprev : forall j, (j < k)%nat -> tt < model (Z.of_nat j)).
  { intros j Hj. destruct (Hbefore j Hj) as (Hc & _ & Ht).
    rewrite <- (Hmodel j ltac:(lia) Hc). exact Ht. }
  destruct Hat as [(Hc & _ & Hm & Hst) | (Hge & Hst)].
  - exists k. split; [apply Hb; split; assumption|].
    split; [exact Hprev|]. left. rewrite <- (Hmodel k ltac:(lia) Hc). exact Hm.
  - destruct (He (conj Hge Hst)) as (Hpos & Hr).
    destruct k as [|n]; [lia|].
    exists n. split; [rewrite Hr; lia|].
    split; [intros j Hj; apply Hprev; lia|].
    right. split; [apply Hprev; lia|].
    pose proof (trace_doubling tb ic mss rtt Hwin Hov (S n)
                  (fun j Hj => proj1 (Hbefore j Hj))) as (_ & _ & Hdc).
    rewrite Hdc in Hge. fold xfer in Hge.
    replace (Z.of_nat n + 1) with (Z.of_nat (S n)) by lia. exact Hge.
Qed.

Lemma GoodputBps_round_selected_witness :
  exists n : nat,
    rttsInSlowStart (mkModelRate 58264428 7 798 1280 OK) = Z.of_nat n.
Proof.
  destruct (GoodputBps_round_selected 10000000 10 1460 20000 300000
              (mkModelRate 58264428 7 798 1280 OK)) as (n & Hn & _ & _).
  - vm_compute; split; reflexivity.
  - vm_compute; split; reflexivity.
  - reflexivity.
  - vm_compute; split; [reflexivity|discriminate].
  - vm_compute; reflexivity.
  - vm_compute; discriminate.
  - vm_compute; reflexivity.
  - reflexivity.
  - exists n. exact Hn.
Defined.
